(** * Revenue-by-country exposure engine: a shallow embedding

    The development follows [geo-exposure-map/lib/exposure-core.ts],
    the stand-alone script [estimate_factset_country_revenue.mjs], which
    carries the same helper functions and writes the rows to a file, and
    the pure functions of the page that shows the result (names, search,
    colours).

    Numbers.  A JavaScript [number] is modelled as an extended real:
    a finite real, one of the two infinities, or NaN.  Arithmetic on the
    finite part is exact (no rounding, no overflow, and the two zeros
    are identified); the special values follow ECMAScript.

    Strings are [string]s of the Standard Library, holding the bytes of
    the UTF-8 text.  Case mapping and white space are those of ASCII: a
    letter or a blank outside ASCII takes several bytes and is left as
    it is.  A [Map] and a plain
    object used as a dictionary are insertion-ordered association lists
    with unique keys; the keys of the plain objects are upper-cased
    country codes, which never meet the names inherited from
    [Object.prototype], and none of which is written as a whole number
    (such keys an object lists first).  Where the page looks a raw name
    up in a table, the inherited members are modelled.

    Effects.  The network is left out: [buildExposureData] is a function
    of the text of the country list and of the six parsed responses, and
    a failed fetch (an exception in the source) has no counterpart. *)

From Stdlib Require Import Reals Lra Lia ZArith List Bool Ascii String.
From Stdlib Require Import DecimalString.
From Stdlib Require Import Permutation Sorted.
Import ListNotations.

Open Scope R_scope.

(** ** JavaScript numbers *)

Inductive num : Type :=
| Fin (x : R)
| PInf
| NInf
| NaN.

Definition Rltb (x y : R) : bool := if Rlt_dec x y then true else false.
Definition Rleb (x y : R) : bool := if Rle_dec x y then true else false.
Definition Reqb (x y : R) : bool := if Req_dec_T x y then true else false.

(** [Number.isFinite(x)] on a value that is already a number. *)
Definition isFiniteNum (n : num) : bool :=
  match n with Fin _ => true | _ => false end.

(** [Number.isFinite(x)] where [x] may be [undefined]. *)
Definition Number_isFinite (v : option num) : bool :=
  match v with Some n => isFiniteNum n | None => false end.

(** [a + b] *)
Definition jadd (a b : num) : num :=
  match a, b with
  | NaN, _ | _, NaN => NaN
  | Fin x, Fin y => Fin (x + y)
  | PInf, NInf | NInf, PInf => NaN
  | PInf, _ | _, PInf => PInf
  | NInf, _ | _, NInf => NInf
  end.

(** [a - b] *)
Definition jneg (a : num) : num :=
  match a with
  | Fin x => Fin (- x) | PInf => NInf | NInf => PInf | NaN => NaN
  end.

Definition jsub (a b : num) : num := jadd a (jneg b).

(** Sign of an infinite product or quotient: [pos] tells the sign of the
    infinite operand, [x] is the finite one. *)
Definition inf_signed (pos : bool) (x : R) : num :=
  if Reqb x 0 then NaN
  else if Bool.eqb pos (Rltb 0 x) then PInf else NInf.

(** [a * b] *)
Definition jmul (a b : num) : num :=
  match a, b with
  | NaN, _ | _, NaN => NaN
  | Fin x, Fin y => Fin (x * y)
  | PInf, Fin x | Fin x, PInf => inf_signed true x
  | NInf, Fin x | Fin x, NInf => inf_signed false x
  | PInf, PInf | NInf, NInf => PInf
  | PInf, NInf | NInf, PInf => NInf
  end.

(** [a / b]; the divisor zero is read as [+0]. *)
Definition jdiv (a b : num) : num :=
  match a, b with
  | NaN, _ | _, NaN => NaN
  | Fin x, Fin y =>
      if Reqb y 0
      then (if Reqb x 0 then NaN else if Rltb 0 x then PInf else NInf)
      else Fin (x / y)
  | Fin _, PInf | Fin _, NInf => Fin 0
  | PInf, Fin y => if Rleb 0 y then PInf else NInf
  | NInf, Fin y => if Rleb 0 y then NInf else PInf
  | _, _ => NaN
  end.

(** [a < b], [a <= b], [a > b]: every comparison with NaN is false. *)
Definition jlt (a b : num) : bool :=
  match a, b with
  | NaN, _ | _, NaN => false
  | Fin x, Fin y => Rltb x y
  | NInf, NInf => false
  | NInf, _ => true
  | _, PInf => match a with PInf => false | _ => true end
  | _, _ => false
  end.

Definition jle (a b : num) : bool :=
  match a, b with
  | NaN, _ | _, NaN => false
  | Fin x, Fin y => Rleb x y
  | NInf, _ => true
  | _, PInf => true
  | _, _ => false
  end.

Definition jgt (a b : num) : bool := jlt b a.

(** [Math.min(a, b)] and [Math.max(a, b)]: NaN if either argument is. *)
Definition Math_min (a b : num) : num :=
  match a, b with
  | NaN, _ | _, NaN => NaN
  | _, _ => if jle a b then a else b
  end.

Definition Math_max (a b : num) : num :=
  match a, b with
  | NaN, _ | _, NaN => NaN
  | _, _ => if jle a b then b else a
  end.

(** [Math.pow(base, exponent)].  On a positive finite base it is the real
    power [Rpower]; the remaining cases follow ECMAScript's
    [Number::exponentiate]. *)
Definition is_integer (y : R) : bool := Reqb y (IZR (Int_part y)).
Definition is_odd_integer (y : R) : bool :=
  is_integer y && Z.odd (Int_part y).

Definition Math_pow (base exponent : num) : num :=
  match exponent with
  | NaN => NaN
  | Fin y =>
      if Reqb y 0 then Fin 1 else
      match base with
      | NaN => NaN
      | PInf => if Rltb 0 y then PInf else Fin 0
      | NInf =>
          if Rltb 0 y then (if is_odd_integer y then NInf else PInf)
          else Fin 0
      | Fin x =>
          if Reqb x 0 then (if Rltb 0 y then Fin 0 else PInf)
          else if Rltb 0 x then Fin (Rpower x y)
          else if is_integer y
               then Fin ((if Z.odd (Int_part y) then -1 else 1) * Rpower (- x) y)
               else NaN
      end
  | PInf =>
      match base with
      | NaN => NaN
      | PInf | NInf => PInf
      | Fin x =>
          if Rltb 1 (Rabs x) then PInf
          else if Reqb (Rabs x) 1 then NaN else Fin 0
      end
  | NInf =>
      match base with
      | NaN => NaN
      | PInf | NInf => Fin 0
      | Fin x =>
          if Rltb 1 (Rabs x) then Fin 0
          else if Reqb (Rabs x) 1 then NaN else PInf
      end
  end.

(** [function clamp(x, lo, hi) { return Math.max(lo, Math.min(hi, x)); }] *)
Definition clamp (x lo hi : num) : num := Math_max lo (Math_min hi x).

(** ** Strings *)

Open Scope string_scope.

Definition dquote : ascii := ascii_of_nat 34.
Definition comma : ascii := ","%char.

(** [s + ch] *)
Definition snoc (s : string) (ch : ascii) : string := s ++ String ch EmptyString.

(** The white space and line terminators removed by [String.prototype.trim]
    that take one byte: tab, line feed, vertical tab, form feed, carriage
    return and space. *)
Definition is_space (c : ascii) : bool :=
  let n := nat_of_ascii c in
  ((9 <=? n) && (n <=? 13) || (n =? 32))%nat.

Fixpoint trimStart (s : string) : string :=
  match s with
  | String c r => if is_space c then trimStart r else s
  | EmptyString => EmptyString
  end.

(** Removes trailing white space: a character is kept when something
    non-blank remains at or after it. *)
Fixpoint trimEnd (s : string) : string :=
  match s with
  | EmptyString => EmptyString
  | String c r =>
      match trimEnd r with
      | EmptyString => if is_space c then EmptyString else String c EmptyString
      | r' => String c r'
      end
  end.

Definition trim (s : string) : string := trimEnd (trimStart s).

Definition upper_ascii (c : ascii) : ascii :=
  let n := nat_of_ascii c in
  if ((97 <=? n) && (n <=? 122))%nat then ascii_of_nat (n - 32) else c.

Definition lower_ascii (c : ascii) : ascii :=
  let n := nat_of_ascii c in
  if ((65 <=? n) && (n <=? 90))%nat then ascii_of_nat (n + 32) else c.

Fixpoint map_string (f : ascii -> ascii) (s : string) : string :=
  match s with
  | EmptyString => EmptyString
  | String c r => String (f c) (map_string f r)
  end.

Definition toUpperCase : string -> string := map_string upper_ascii.
Definition toLowerCase : string -> string := map_string lower_ascii.

(** [s.split] at line feeds *)
Definition newline : ascii := ascii_of_nat 10.

Fixpoint split_lines_from (cur : string) (s : string) : list string :=
  match s with
  | EmptyString => [cur]
  | String c r =>
      if Ascii.eqb c newline then cur :: split_lines_from EmptyString r
      else split_lines_from (snoc cur c) r
  end.

Definition split_newline (s : string) : list string :=
  split_lines_from EmptyString s.

(** [s.slice(0, 2)] *)
Definition slice02 (s : string) : string := substring 0 2 s.

(** ** The CSV line splitter

    [splitCsvLine] scans the line once, with the field being built
    ([cur]), the quote flag ([inQ]) and the fields already closed
    ([out]).  The look-ahead at [line[i + 1]] followed by [i++] consumes
    two characters at once. *)
Fixpoint splitCsvLine_loop (line : string) (cur : string) (inQ : bool)
    (out : list string) : list string :=
  match line with
  | EmptyString => out ++ [cur]
  | String ch rest =>
      if Ascii.eqb ch dquote then
        match inQ, rest with
        | true, String ch' rest' =>
            if Ascii.eqb ch' dquote
            then splitCsvLine_loop rest' (snoc cur dquote) inQ out
            else splitCsvLine_loop rest cur (negb inQ) out
        | _, _ => splitCsvLine_loop rest cur (negb inQ) out
        end
      else if Ascii.eqb ch comma && negb inQ then
        splitCsvLine_loop rest EmptyString inQ (out ++ [cur])
      else splitCsvLine_loop rest (snoc cur ch) inQ out
  end.

Definition splitCsvLine (line : string) : list string :=
  splitCsvLine_loop line EmptyString false [].

(** The writer of the export script wraps a field in quote characters
    after doubling each quote character it contains ([replaceAll]). *)
Fixpoint double_quotes (s : string) : string :=
  match s with
  | EmptyString => EmptyString
  | String c r =>
      if Ascii.eqb c dquote then String dquote (String dquote (double_quotes r))
      else String c (double_quotes r)
  end.

Definition quote_field (s : string) : string :=
  String dquote (double_quotes s) ++ String dquote EmptyString.

(** [fields.join] with a comma *)
Fixpoint join_comma (fs : list string) : string :=
  match fs with
  | [] => EmptyString
  | [f] => f
  | f :: rest => f ++ String comma (join_comma rest)
  end.

(** A string between quote characters, as it appears in a CSV line. *)
Definition quoted (s : string) : string :=
  String dquote s ++ String dquote EmptyString.

(** ** Maps keyed by strings

    A [Map] (and a plain object used as a dictionary) keeps its entries in
    insertion order; [set] on a key already present replaces the value in
    place. *)
Open Scope list_scope.

Section JsMap.
Context {V : Type}.

Definition jsmap : Type := list (string * V).

Fixpoint map_get (m : jsmap) (k : string) : option V :=
  match m with
  | [] => None
  | (k', v) :: r => if String.eqb k' k then Some v else map_get r k
  end.

Fixpoint map_set (m : jsmap) (k : string) (v : V) : jsmap :=
  match m with
  | [] => [(k, v)]
  | (k', v') :: r =>
      if String.eqb k' k then (k', v) :: r else (k', v') :: map_set r k v
  end.

Definition map_has (m : jsmap) (k : string) : bool :=
  match map_get m k with Some _ => true | None => false end.

Definition map_keys (m : jsmap) : list string := List.map fst m.
Definition map_values (m : jsmap) : list V := List.map snd m.

(** [new Map(entries)] *)
Definition map_of_entries (es : list (string * V)) : jsmap :=
  fold_left (fun m e => map_set m (fst e) (snd e)) es [].
End JsMap.
Arguments jsmap : clear implicits.

(** [new Set([...]).has(k)] *)
Definition set_has (s : list string) (k : string) : bool :=
  existsb (String.eqb k) s.

(** ** Median *)

Open Scope R_scope.

Fixpoint finite_values (arr : list num) : list R :=
  match arr with
  | [] => []
  | Fin x :: r => x :: finite_values r
  | _ :: r => finite_values r
  end.

Fixpoint insert_asc (x : R) (l : list R) : list R :=
  match l with
  | [] => [x]
  | y :: r => if Rleb x y then x :: l else y :: insert_asc x r
  end.

(** [a.sort((x, y) => x - y)] on finite numbers: ascending order. *)
Fixpoint sort_asc (l : list R) : list R :=
  match l with
  | [] => []
  | x :: r => insert_asc x (sort_asc r)
  end.

(** [median]: [None] is the [null] returned on an array without finite
    value. *)
Definition median (arr : list num) : option num :=
  let a := sort_asc (finite_values arr) in
  if (List.length a =? 0)%nat then None
  else
    let mid := Nat.div (List.length a) 2 in
    if negb (Nat.modulo (List.length a) 2 =? 0)%nat
    then Some (Fin (nth mid a 0))
    else Some (jdiv (jadd (Fin (nth (mid - 1) a 0)) (Fin (nth mid a 0))) (Fin 2)).

(** [x ?? d] *)
Definition nullish {A : Type} (x : option A) (d : A) : A :=
  match x with Some v => v | None => d end.

(** ** Values read from the indicator feeds

    A field of a feed row holds a JSON scalar, or nothing.  [Number(v)]
    is the coercion the code applies to the [date] and [value] fields. *)
Inductive jsval : Type :=
| JUndefined
| JNull
| JBool (b : bool)
| JNum (n : num)
| JStr (s : string).

(** *** Numeric strings ([StringToNumber]) *)

Definition digit_of (base : nat) (c : ascii) : option Z :=
  let n := nat_of_ascii c in
  let d :=
    if ((48 <=? n) && (n <=? 57))%nat then Some (n - 48)%nat
    else if ((97 <=? n) && (n <=? 102))%nat then Some (n - 87)%nat
    else if ((65 <=? n) && (n <=? 70))%nat then Some (n - 55)%nat
    else None in
  match d with
  | Some v => if (v <? base)%nat then Some (Z.of_nat v) else None
  | None => None
  end.

(** Reads the longest run of digits: the value accumulated onto [acc], the
    number of digits read and the rest of the string. *)
Fixpoint read_digits (base : nat) (s : string) (acc : Z) (cnt : nat)
  : Z * nat * string :=
  match s with
  | String c r =>
      match digit_of base c with
      | Some d => read_digits base r (acc * Z.of_nat base + d)%Z (S cnt)
      | None => (acc, cnt, s)
      end
  | EmptyString => (acc, cnt, s)
  end.

Definition is_char (c : ascii) (n : nat) : bool := (nat_of_ascii c =? n)%nat.

(** The exponent part, when there is one, and what follows it. *)
Definition read_exponent (s : string) : option (Z * string) :=
  match s with
  | String c r =>
      if is_char c 101 || is_char c 69 then
        let '(neg, r1) :=
          match r with
          | String c' r' =>
              if is_char c' 43 then (false, r')
              else if is_char c' 45 then (true, r') else (false, r)
          | EmptyString => (false, r)
          end in
        let '(v, cnt, r2) := read_digits 10 r1 0%Z 0%nat in
        if (cnt =? 0)%nat then None
        else Some (if neg then (- v)%Z else v, r2)
      else Some (0%Z, s)
  | EmptyString => Some (0%Z, s)
  end.

(** An unsigned decimal literal as mantissa and power of ten. *)
Definition unsigned_decimal (s : string) : option (Z * Z) :=
  let '(ip, ni, r1) := read_digits 10 s 0%Z 0%nat in
  let '(m, nf, r2) :=
    match r1 with
    | String c r' =>
        if is_char c 46 then read_digits 10 r' ip 0%nat else (ip, 0%nat, r1)
    | EmptyString => (ip, 0%nat, r1)
    end in
  if (ni + nf =? 0)%nat then None
  else
    match read_exponent r2 with
    | Some (e, EmptyString) => Some (m, (e - Z.of_nat nf)%Z)
    | _ => None
    end.

(** [m * 10 ^ e] *)
Definition dec_value (m e : Z) : R :=
  match e with
  | Z0 => IZR m
  | Zpos p => IZR m * IZR (Z.pow_pos 10 p)
  | Zneg p => IZR m / IZR (Z.pow_pos 10 p)
  end.

(** A literal with a radix prefix: [0x], [0o] or [0b] and digits. *)
Definition radix_literal (s : string) : option (option Z) :=
  match s with
  | String z (String x r) =>
      if is_char z 48 then
        let base :=
          if is_char x 120 || is_char x 88 then Some 16%nat
          else if is_char x 111 || is_char x 79 then Some 8%nat
          else if is_char x 98 || is_char x 66 then Some 2%nat
          else None in
        match base with
        | Some b =>
            match read_digits b r 0%Z 0%nat with
            | (v, S _, EmptyString) => Some (Some v)
            | _ => Some None
            end
        | None => None
        end
      else None
  | _ => None
  end.

Definition StringToNumber (s : string) : num :=
  let t := trim s in
  match t with
  | EmptyString => Fin 0
  | String c r =>
      match radix_literal t with
      | Some (Some v) => Fin (IZR v)
      | Some None => NaN
      | None =>
          let '(neg, body) :=
            if is_char c 43 then (false, r)
            else if is_char c 45 then (true, r) else (false, t) in
          if String.eqb body "Infinity" then (if neg then NInf else PInf)
          else
            match unsigned_decimal body with
            | Some (m, e) =>
                Fin (if neg then - dec_value m e else dec_value m e)
            | None => NaN
            end
      end
  end.

(** [Number(v)] *)
Definition Number (v : jsval) : num :=
  match v with
  | JUndefined => NaN
  | JNull => Fin 0
  | JBool true => Fin 1
  | JBool false => Fin 0
  | JNum n => n
  | JStr s => StringToNumber s
  end.

(** ** The latest observation per country ([latestByIso3]) *)

(** A row of a feed ([WorldBankDatum]).  The country code is read at its
    declared type (a string, or missing); [date] and [value], which the
    code coerces with [Number], are arbitrary scalars.  A row that is
    [null] reads as a row whose three fields are missing. *)
Module Datum.
Record t : Type := mk {
  countryiso3code : option string;
  date : jsval;
  value : jsval
}.
End Datum.

(** An entry of the resulting lookup. *)
Module Latest.
Record t : Type := mk {
  year : num;
  value : num
}.
End Latest.

(** The parsed response: anything that is not an array, or an array whose
    element 0 (page metadata, never read) is held by a placeholder.
    Element 1 of an array is a list of rows; a response whose element 1
    is not iterable, on which the loop of [latestByIso3] throws, is
    outside this type. *)
Inductive WbJson : Type :=
| WbNotArray
| WbArray (elems : list (list Datum.t)).

Definition wb_rows (wbJson : WbJson) : list Datum.t :=
  match wbJson with
  | WbArray (_ :: rows :: _) => rows
  | _ => []
  end.

(** [val == null] *)
Definition is_nullish (v : jsval) : bool :=
  match v with JUndefined | JNull => true | _ => false end.

(** One turn of the loop over the rows. *)
Definition latest_step (best : jsmap Latest.t) (it : Datum.t) : jsmap Latest.t :=
  let year := Number (Datum.date it) in
  let val := Datum.value it in
  match Datum.countryiso3code it with
  | None => best
  | Some iso3 =>
      if String.eqb iso3 "" || negb (isFiniteNum year) || is_nullish val
      then best
      else
        match map_get best iso3 with
        | None => map_set best iso3 (Latest.mk year (Number val))
        | Some prev =>
            if jgt year (Latest.year prev)
            then map_set best iso3 (Latest.mk year (Number val))
            else best
        end
  end.

Definition latestRows (rows : list Datum.t) : jsmap Latest.t :=
  fold_left latest_step rows [].

Definition latestByIso3 (wbJson : WbJson) : jsmap Latest.t :=
  latestRows (wb_rows wbJson).

(** [m.get(k)?.value] *)
Definition value_of (m : jsmap Latest.t) (k : string) : option num :=
  option_map Latest.value (map_get m k).

(** ** Segments and the static tables *)

Inductive Segment : Type := AMERICAS | EMEA | APAC.

Definition Segment_eqb (a b : Segment) : bool :=
  match a, b with
  | AMERICAS, AMERICAS | EMEA, EMEA | APAC, APAC => true
  | _, _ => false
  end.

(** [Object.keys(scores)] *)
Definition segments : list Segment := [AMERICAS; EMEA; APAC].

Definition segment_name (s : Segment) : string :=
  match s with AMERICAS => "AMERICAS" | EMEA => "EMEA" | APAC => "APAC" end.

Definition SEGMENT_REVENUE_USD_M (s : Segment) : num :=
  match s with
  | AMERICAS => jdiv (Fin 1506108) (Fin 1000)
  | EMEA => jdiv (Fin 580284) (Fin 1000)
  | APAC => jdiv (Fin 235356) (Fin 1000)
  end.

Definition HUB_MULT : jsmap num :=
  [ ("USA", Fin 1.3); ("GBR", Fin 1.3); ("CHE", Fin 1.3); ("LUX", Fin 1.3);
    ("SGP", Fin 1.3); ("HKG", Fin 1.3); ("ARE", Fin 1.25); ("IRL", Fin 1.2);
    ("NLD", Fin 1.2); ("FRA", Fin 1.15); ("DEU", Fin 1.15); ("JPN", Fin 1.15);
    ("AUS", Fin 1.15); ("CAN", Fin 1.15) ].

Definition OFFICE_COUNTRIES : list string :=
  [ "USA"; "BRA"; "CAN";
    "BGR"; "GBR"; "FRA"; "DEU"; "ITA"; "LVA"; "LUX"; "NLD"; "SWE"; "ARE";
    "AUS"; "CHN"; "HKG"; "IND"; "JPN"; "PHL"; "SGP" ].
Definition OFFICE_MULT : num := Fin 1.15.

Definition NEAR_ZERO : list string := [ "CUB"; "IRN"; "PRK"; "RUS" ].
Definition NEAR_ZERO_MULT : num := Fin 0.01.

Definition str_is (x : option string) (s : string) : bool :=
  match x with Some y => String.eqb y s | None => false end.

Definition segmentOfCountry (region subRegion : option string) : option Segment :=
  if str_is region "Americas" then Some AMERICAS
  else if str_is region "Europe" then Some EMEA
  else if str_is region "Africa" then Some EMEA
  else if str_is region "Asia" then
    (if str_is subRegion "Western Asia" then Some EMEA else Some APAC)
  else if str_is region "Oceania" then Some APAC
  else None.

(** ** The country list *)

Module Country.
Record t : Type := mk {
  iso3 : string;
  alpha2 : option string;
  name : string;
  region : option string;
  subRegion : option string;
  seg : option Segment
}.
End Country.

(** [header.indexOf(name)]; [None] stands for [-1]. *)
Fixpoint indexOf (l : list string) (x : string) : option nat :=
  match l with
  | [] => None
  | y :: r =>
      if String.eqb y x then Some 0%nat
      else option_map S (indexOf r x)
  end.

(** [cols[i]] *)
Definition col (cols : list string) (i : option nat) : option string :=
  match i with Some n => nth_error cols n | None => None end.

(** A string that is [undefined], [null] or empty is falsy. *)
Definition truthy (x : option string) : option string :=
  match x with
  | Some EmptyString | None => None
  | Some s => Some s
  end.

(** One data line of the CSV: the record pushed (if any) and the update of
    [iso3ToAlpha2]. *)
Definition country_step (header : list string)
    (st : list Country.t * jsmap string) (line : string)
  : list Country.t * jsmap string :=
  let '(countries, iso3ToAlpha2) := st in
  let idx := indexOf header in
  let cols := splitCsvLine line in
  let iso3 := option_map (fun s => toUpperCase (trim s)) (col cols (idx "alpha-3")) in
  let alpha2Idx := idx "alpha-2" in
  let alpha2 :=
    match alpha2Idx with
    | Some _ =>
        truthy (option_map (fun s => toUpperCase (trim s)) (col cols alpha2Idx))
    | None => None
    end in
  let name := option_map trim (col cols (idx "name")) in
  let region := option_map trim (col cols (idx "region")) in
  let subRegion := option_map trim (col cols (idx "sub-region")) in
  match truthy iso3, truthy name with
  | Some iso3, Some name =>
      let seg := segmentOfCountry region subRegion in
      (countries ++ [Country.mk iso3 alpha2 name region subRegion seg],
       match alpha2 with
       | Some a2 => map_set iso3ToAlpha2 (toUpperCase iso3) (toUpperCase a2)
       | None => iso3ToAlpha2
       end)
  | _, _ => st
  end.

Definition parseCountries (isoCsv : string) : list Country.t * jsmap string :=
  match split_newline (trim isoCsv) with
  | [] => ([], [])
  | header_line :: data =>
      fold_left (country_step (splitCsvLine header_line)) data ([], [])
  end.

(** ** The engine *)

(** The six lookups built from the feeds. *)
Record Indicators : Type := mkIndicators {
  gdp : jsmap Latest.t;
  mcapPct : jsmap Latest.t;
  creditPct : jsmap Latest.t;
  gdpPc : jsmap Latest.t;
  netPct : jsmap Latest.t;
  pop : jsmap Latest.t
}.

(** A table indexed by the three segment names. *)
Definition upd {V : Type} (t : Segment -> V) (s : Segment) (v : V) : Segment -> V :=
  fun s' => if Segment_eqb s' s then v else t s'.

(** *** Step 3: medians per segment *)

Module Vals.
Record t : Type := mk {
  mcap : list num;
  credit : list num;
  gdppc : list num;
  net : list num
}.
End Vals.

Module Med.
Record t : Type := mk {
  mcap : num;
  credit : num;
  gdppc : num;
  net : num
}.
End Med.

(** [if (Number.isFinite(v)) arr.push(v)] *)
Definition push_finite (arr : list num) (v : option num) : list num :=
  match v with
  | Some n => if Number_isFinite v then arr ++ [n] else arr
  | None => arr
  end.

Definition segVals_step (ind : Indicators) (segVals : Segment -> Vals.t)
    (c : Country.t) : Segment -> Vals.t :=
  match Country.seg c with
  | None => segVals
  | Some s =>
      let mp := value_of (mcapPct ind) (Country.iso3 c) in
      let cp := value_of (creditPct ind) (Country.iso3 c) in
      let gp := value_of (gdpPc ind) (Country.iso3 c) in
      let np := value_of (netPct ind) (Country.iso3 c) in
      let old := segVals s in
      upd segVals s
        (Vals.mk (push_finite (Vals.mcap old) mp)
                 (push_finite (Vals.credit old) cp)
                 (push_finite (Vals.gdppc old) gp)
                 (push_finite (Vals.net old) np))
  end.

Definition segVals (countries : list Country.t) (ind : Indicators)
  : Segment -> Vals.t :=
  fold_left (segVals_step ind) countries (fun _ => Vals.mk [] [] [] []).

Definition segMedian (countries : list Country.t) (ind : Indicators)
    (s : Segment) : Med.t :=
  let v := segVals countries ind s in
  Med.mk (nullish (median (Vals.mcap v)) (Fin 30))
         (nullish (median (Vals.credit v)) (Fin 50))
         (nullish (median (Vals.gdppc v)) (Fin 8000))
         (nullish (median (Vals.net v)) (Fin 55)).

(** *** Step 4: scores *)

(** The four indicators as they enter the formula. *)
Definition resolved_mcap (ind : Indicators) (med : Med.t) (iso3 : string) : num :=
  nullish (value_of (mcapPct ind) iso3) (Med.mcap med).
Definition resolved_credit (ind : Indicators) (med : Med.t) (iso3 : string) : num :=
  nullish (value_of (creditPct ind) iso3) (Med.credit med).
Definition resolved_gdppc (ind : Indicators) (med : Med.t) (iso3 : string) : num :=
  nullish (value_of (gdpPc ind) iso3) (Med.gdppc med).
Definition resolved_net (ind : Indicators) (med : Med.t) (iso3 : string) : num :=
  nullish (value_of (netPct ind) iso3) (Med.net med).

(** The score computed for one country of a segment whose medians are
    [med]. *)
Definition score_of (ind : Indicators) (med : Med.t) (iso3 : string) : num :=
  let g := value_of (gdp ind) iso3 in
  if negb (Number_isFinite g) || jle (nullish g NaN) (Fin 0) then Fin 1e-9
  else
    let g := nullish g NaN in
    let mp := resolved_mcap ind med iso3 in
    let cp := resolved_credit ind med iso3 in
    let gp := resolved_gdppc ind med iso3 in
    let np := resolved_net ind med iso3 in
    let mcapFactor :=
      Math_pow (jadd (Fin 1) (jdiv (clamp mp (Fin 0) (Fin 400)) (Fin 100))) (Fin 0.9) in
    let creditFactor :=
      Math_pow (jadd (Fin 1) (jdiv (clamp cp (Fin 0) (Fin 300)) (Fin 100))) (Fin 0.6) in
    let wealthFactor :=
      Math_pow (jadd (Fin 1) (jdiv (clamp gp (Fin 0) (Fin 80000)) (Fin 50000))) (Fin 0.35) in
    let internetFactor :=
      Math_pow (jadd (Fin 0.2) (jdiv (clamp np (Fin 0) (Fin 100)) (Fin 100))) (Fin 0.25) in
    let s :=
      jmul (jmul (jmul (jmul (Math_pow g (Fin 0.7)) mcapFactor) creditFactor)
                 wealthFactor) internetFactor in
    let s := jmul s (nullish (map_get HUB_MULT iso3) (Fin 1.0)) in
    let s := if set_has OFFICE_COUNTRIES iso3 then jmul s OFFICE_MULT else s in
    let s := if set_has NEAR_ZERO iso3 then jmul s NEAR_ZERO_MULT else s in
    s.

Definition scores_step (ind : Indicators) (segMedian : Segment -> Med.t)
    (scores : Segment -> jsmap num) (c : Country.t) : Segment -> jsmap num :=
  match Country.seg c with
  | None => scores
  | Some s =>
      upd scores s
        (map_set (scores s) (Country.iso3 c)
           (score_of ind (segMedian s) (Country.iso3 c)))
  end.

Definition scores (countries : list Country.t) (ind : Indicators)
  : Segment -> jsmap num :=
  fold_left (scores_step ind (segMedian countries ind)) countries (fun _ => []).

(** *** Allocation within each segment *)

Module Alloc.
Record t : Type := mk {
  iso3 : string;
  country : string;
  segment : Segment;
  revenueMillions : num;
  office : bool;
  hub : bool;
  nearZero : bool
}.
End Alloc.

Definition in_segment (seg : Segment) (c : Country.t) : bool :=
  match Country.seg c with Some s => Segment_eqb s seg | None => false end.

(** [let sum = 0; for (const v of map.values()) sum += v;] *)
Definition score_sum (m : jsmap num) : num :=
  fold_left jadd (map_values m) (Fin 0).

Definition alloc_row (m : jsmap num) (sum : num) (seg : Segment) (c : Country.t)
  : Alloc.t :=
  let s := nullish (map_get m (Country.iso3 c)) (Fin 0) in
  let share := if jgt sum (Fin 0) then jdiv s sum else Fin 0 in
  Alloc.mk (Country.iso3 c) (Country.name c) seg
    (jmul (SEGMENT_REVENUE_USD_M seg) share)
    (set_has OFFICE_COUNTRIES (Country.iso3 c))
    (map_has HUB_MULT (Country.iso3 c))
    (set_has NEAR_ZERO (Country.iso3 c)).

(** The rows pushed while the outer loop is at segment [seg]. *)
Definition alloc_segment (countries : list Country.t)
    (scores : Segment -> jsmap num) (seg : Segment) : list Alloc.t :=
  let m := scores seg in
  let sum := score_sum m in
  List.map (alloc_row m sum seg) (filter (in_segment seg) countries).

Definition allocations (countries : list Country.t) (ind : Indicators)
  : list Alloc.t :=
  fold_left
    (fun acc seg => acc ++ alloc_segment countries (scores countries ind) seg)
    segments [].

(** [allocations.reduce((a, b) => a + b.revenueMillions, 0)] *)
Definition sum_revenue (rows : list Alloc.t) : num :=
  fold_left (fun a b => jadd a (Alloc.revenueMillions b)) rows (Fin 0).

(** *** Global shares and the output table *)

Definition global_share (totalRevenueMillions : num) (row : Alloc.t) : num :=
  if jgt totalRevenueMillions (Fin 0)
  then jdiv (Alloc.revenueMillions row) totalRevenueMillions
  else Fin 0.

Definition intensity_step (totalRevenueMillions : num)
    (st : jsmap num * num) (row : Alloc.t) : jsmap num * num :=
  let '(iso3ToIntensity, maxShare) := st in
  let isoKey := toUpperCase (Alloc.iso3 row) in
  let share := global_share totalRevenueMillions row in
  (map_set iso3ToIntensity isoKey share,
   if jgt share maxShare then share else maxShare).

Module Detail.
Record t : Type := mk {
  iso3 : string;
  name : string;
  region : string;
  revenueMillions : num;
  share : num;
  population : option num;
  flagUrl : option string;
  segment : string;
  office : bool;
  hub : bool;
  nearZero : bool
}.
End Detail.

(** The two-letter code behind the flag: the record's own, else the one
    noted in [iso3ToAlpha2], else the first two characters of the iso3. *)
Definition alpha2_for (own : option string) (iso3ToAlpha2 : jsmap string)
    (iso3 : string) : option string :=
  match own with
  | Some a => Some a
  | None =>
      match map_get iso3ToAlpha2 iso3 with
      | Some a => Some a
      | None => if (2 <=? String.length iso3)%nat then Some (slice02 iso3) else None
      end
  end.

Definition flag_of (alpha2 : option string) : option string :=
  match truthy alpha2 with
  | Some a => Some ("https://flagcdn.com/" ++ toLowerCase a ++ ".svg")%string
  | None => None
  end.

(** First pass: one entry per allocation row. *)
Definition detail_of_row (countryMap : jsmap Country.t)
    (iso3ToAlpha2 : jsmap string) (pop : jsmap Latest.t)
    (totalRevenueMillions : num) (row : Alloc.t) : Detail.t :=
  let population := value_of pop (Alloc.iso3 row) in
  let meta := map_get countryMap (Alloc.iso3 row) in
  let alpha2 :=
    alpha2_for (match meta with Some c => Country.alpha2 c | None => None end)
               iso3ToAlpha2 (Alloc.iso3 row) in
  Detail.mk (Alloc.iso3 row) (Alloc.country row)
    (nullish (match meta with Some c => Country.region c | None => None end) "")
    (Alloc.revenueMillions row)
    (global_share totalRevenueMillions row)
    population (flag_of alpha2)
    (segment_name (Alloc.segment row))
    (Alloc.office row) (Alloc.hub row) (Alloc.nearZero row).

(** Second pass: a zero entry for a country that has none yet. *)
Definition detail_of_country (iso3ToAlpha2 : jsmap string) (pop : jsmap Latest.t)
    (c : Country.t) : Detail.t :=
  let alpha2 := alpha2_for (Country.alpha2 c) iso3ToAlpha2 (Country.iso3 c) in
  Detail.mk (Country.iso3 c) (Country.name c)
    (nullish (Country.region c) "")
    (Fin 0) (Fin 0)
    (value_of pop (Country.iso3 c)) (flag_of alpha2)
    (match Country.seg c with Some s => segment_name s | None => "" end)
    (set_has OFFICE_COUNTRIES (Country.iso3 c))
    (map_has HUB_MULT (Country.iso3 c))
    (set_has NEAR_ZERO (Country.iso3 c)).

Definition fill_step (iso3ToAlpha2 : jsmap string) (pop : jsmap Latest.t)
    (st : jsmap num * jsmap Detail.t) (c : Country.t)
  : jsmap num * jsmap Detail.t :=
  let '(iso3ToIntensity, countryDetailsMap) := st in
  if map_has countryDetailsMap (Country.iso3 c) then st
  else
    (map_set iso3ToIntensity (Country.iso3 c)
       (nullish (map_get iso3ToIntensity (Country.iso3 c)) (Fin 0)),
     map_set countryDetailsMap (Country.iso3 c)
       (detail_of_country iso3ToAlpha2 pop c)).

(** The payload, without the map geometry (a document fetched and handed
    over unchanged) and the constant note.  [countryDetails] lists the
    values of [countryDetailsMap] in insertion order; JavaScript lists
    integer-like keys first, and nothing below depends on the order. *)
Record ApiPayload : Type := mkPayload {
  iso3ToIntensity : jsmap num;
  countryDetails : list Detail.t;
  totalRevenueMillions : num;
  maxShare : num
}.

Definition assemble (countries : list Country.t) (iso3ToAlpha2 : jsmap string)
    (ind : Indicators) : ApiPayload :=
  let countryMap :=
    map_of_entries (List.map (fun c => (Country.iso3 c, c)) countries) in
  let rows := allocations countries ind in
  let total := sum_revenue rows in
  let '(intensity, maxShare) :=
    fold_left (intensity_step total) rows ([], Fin 0) in
  let detailsMap :=
    fold_left
      (fun m row =>
         map_set m (Alloc.iso3 row)
           (detail_of_row countryMap iso3ToAlpha2 (pop ind) total row))
      rows [] in
  let '(intensity, detailsMap) :=
    fold_left (fill_step iso3ToAlpha2 (pop ind)) countries (intensity, detailsMap) in
  mkPayload intensity (map_values detailsMap) total maxShare.

(** [buildExposureData], given the text of the country list and the six
    parsed responses. *)
Definition buildExposureData (isoCsv : string)
    (gdpJson mcapJson creditJson gdpPcJson netJson popJson : WbJson)
  : ApiPayload :=
  let '(countries, iso3ToAlpha2) := parseCountries isoCsv in
  assemble countries iso3ToAlpha2
    (mkIndicators (latestByIso3 gdpJson) (latestByIso3 mcapJson)
       (latestByIso3 creditJson) (latestByIso3 gdpPcJson)
       (latestByIso3 netJson) (latestByIso3 popJson)).

(** ** The export script: ordering and writing the rows

    [estimate_factset_country_revenue.mjs] builds the same allocation
    rows, orders them and writes one line per row. *)

(** [a.localeCompare(b)] on the three segment names, which are plain
    capital letters: alphabetical order. *)
Definition segment_rank (s : Segment) : nat :=
  match s with AMERICAS => 0 | APAC => 1 | EMEA => 2 end.

Definition localeCompare_segment (a b : Segment) : num :=
  if (segment_rank a <? segment_rank b)%nat then Fin (-1)
  else if (segment_rank b <? segment_rank a)%nat then Fin 1
  else Fin 0.

(** The comparator handed to [allocations.sort]. *)
Definition export_compare (a b : Alloc.t) : num :=
  if Segment_eqb (Alloc.segment a) (Alloc.segment b)
  then jsub (Alloc.revenueMillions b) (Alloc.revenueMillions a)
  else localeCompare_segment (Alloc.segment a) (Alloc.segment b).

(** [Array.prototype.sort] is stable: an element moves behind another
    one only when the comparator is positive on the pair.  This is the
    stable insertion sort; the engines agree with it whenever the
    comparator orders the elements consistently. *)
Fixpoint insert_by {A : Type} (cmp : A -> A -> num) (x : A) (l : list A)
  : list A :=
  match l with
  | [] => [x]
  | y :: r => if jgt (cmp x y) (Fin 0) then y :: insert_by cmp x r else x :: l
  end.

Definition sort_by {A : Type} (cmp : A -> A -> num) (l : list A) : list A :=
  fold_right (insert_by cmp) [] l.

Definition export_order (rows : list Alloc.t) : list Alloc.t :=
  sort_by export_compare rows.

(** [r.office], [r.hub], [r.near_zero] are 1 or 0 in the script. *)
Definition flag_text (b : bool) : string := if b then "1" else "0".

(** One line of the file.  [fixed] is the text [toFixed(6)] gives for
    the revenue of the row. *)
Definition export_line (r : Alloc.t) (fixed : string) : string :=
  join_comma
    [ Alloc.iso3 r;
      quote_field (Alloc.country r);
      segment_name (Alloc.segment r);
      fixed;
      flag_text (Alloc.office r);
      flag_text (Alloc.hub r);
      flag_text (Alloc.nearZero r) ].

(** ** The page: names, search and map features

    The page keeps its own two tables of names.  They are plain
    objects, so a look-up with a key the table does not own can still
    meet a member inherited from [Object.prototype]. *)
Definition NAME_OVERRIDES : jsmap string :=
  [("FRA", "France"); ("NOR", "Norway")].

(** The French name of Norway, its accented letter as two bytes. *)
Definition Norvege : string :=
  "Norv" ++ String (ascii_of_nat 195) (String (ascii_of_nat 168) "ge").

Definition NAME_TO_ISO_OVERRIDES : jsmap string :=
  [ ("France", "FRA");
    ("FRANCE", "FRA");
    (Norvege, "NOR");
    ("Norway", "NOR");
    ("NORWAY", "NOR");
    ("UNITED KINGDOM", "GBR");
    ("GREAT BRITAIN", "GBR");
    ("U.K.", "GBR");
    ("UK", "GBR");
    ("BRITAIN", "GBR");
    ("UNITED STATES", "USA");
    ("UNITED STATES OF AMERICA", "USA");
    ("USA", "USA");
    ("U.S.", "USA");
    ("US", "USA");
    ("UNITED ARAB EMIRATES", "ARE");
    ("UAE", "ARE");
    ("SAUDI ARABIA", "SAU");
    ("KSA", "SAU") ].

(** The property names every plain object inherits. *)
Definition Object_prototype_names : list string :=
  [ "constructor"; "__defineGetter__"; "__defineSetter__"; "hasOwnProperty";
    "__lookupGetter__"; "__lookupSetter__"; "isPrototypeOf";
    "propertyIsEnumerable"; "toString"; "valueOf"; "__proto__";
    "toLocaleString" ].

(** [table[k]] on a plain object: an own entry, an inherited member (a
    function, or the prototype itself), or [undefined]. *)
Inductive member (V : Type) : Type :=
| Own (v : V)
| Inherited
| Missing.
Arguments Own {V} v.
Arguments Inherited {V}.
Arguments Missing {V}.

Definition object_get {V : Type} (o : jsmap V) (k : string) : member V :=
  match map_get o k with
  | Some v => Own v
  | None => if set_has Object_prototype_names k then Inherited else Missing
  end.

(** [a || b || ...] on values that are strings or [undefined], closed by
    [|| undefined]: the first non-empty string. *)
Definition first_truthy (l : list (option string)) : option string :=
  fold_right
    (fun a r => match truthy a with Some s => Some s | None => r end) None l.

(** What [iso3FromFeature] returns: a string, [undefined], or, when a
    name meets an inherited member of the alias table, that member. *)
Inductive feature_code : Type :=
| Code (s : string)
| InheritedValue
| NoCode.

(** [iso3FromFeature(f)], as a function of [f.properties] ([None] for
    [null]); the property values are strings, as the source casts them. *)
Definition iso3FromFeature (properties : option (jsmap string)) : feature_code :=
  let props := match properties with Some p => p | None => [] end in
  let by_codes :=
    match first_truthy
            [ option_map toUpperCase (map_get props "id");
              map_get props "ISO3166-1-Alpha-3";
              map_get props "ISO_A3";
              map_get props "iso_a3";
              map_get props "adm0_a3" ] with
    | Some s => Code s
    | None => NoCode
    end in
  match first_truthy
          [map_get props "name"; map_get props "NAME"; map_get props "NAME_LONG"] with
  | Some nmRaw =>
      let nm := trim nmRaw in
      match object_get NAME_TO_ISO_OVERRIDES nm with
      | Own (String c r) => Code (String c r)
      | Inherited => InheritedValue
      | _ =>
          match object_get NAME_TO_ISO_OVERRIDES (toUpperCase nm) with
          | Own (String c r) => Code (String c r)
          | Inherited => InheritedValue
          | _ => by_codes
          end
      end
  | None => by_codes
  end.

(** [s.startsWith(t)] and [s.includes(t)] *)
Definition startsWith (s t : string) : bool := String.prefix t s.

Fixpoint includes (s t : string) : bool :=
  match s with
  | EmptyString => String.prefix t EmptyString
  | String _ r => String.prefix t s || includes r t
  end.

(** The table of the page, filled by [load]: keys are upper-cased codes,
    and the two names of [NAME_OVERRIDES] replace those of the list. *)
Definition page_entry (d : Detail.t) : string * Detail.t :=
  let iso := toUpperCase (Detail.iso3 d) in
  (iso,
   Detail.mk iso (nullish (map_get NAME_OVERRIDES iso) (Detail.name d))
     (Detail.region d) (Detail.revenueMillions d) (Detail.share d)
     (Detail.population d) (Detail.flagUrl d) (Detail.segment d)
     (Detail.office d) (Detail.hub d) (Detail.nearZero d)).

Definition page_details (countryDetails : list Detail.t) : jsmap Detail.t :=
  fold_left
    (fun map d => map_set map (fst (page_entry d)) (snd (page_entry d)))
    countryDetails [].

(** [normIntensity] of [load]. *)
Definition page_intensity (iso3ToIntensity : jsmap num) : jsmap num :=
  fold_left (fun map kv => map_set map (toUpperCase (fst kv)) (snd kv))
    iso3ToIntensity [].

(** What [applySearch] does to the selection ([searchIso] and
    [hoverIso3] are set together): cleared, set to a code, or left as
    it was.  The term is upper-cased, so the two look-ups by term never
    meet an inherited member. *)
Inductive selection : Type :=
| Cleared
| Selected (iso : string)
| Kept.

Definition name_test (test : string -> string -> bool) (term : string)
    (kv : string * Detail.t) : bool :=
  test (toUpperCase (Detail.name (snd kv))) term.

Definition applySearch (details : jsmap Detail.t) (val : string) : selection :=
  let term := toUpperCase (trim val) in
  match term with
  | EmptyString => Cleared
  | _ =>
      let alias :=
        match truthy (map_get NAME_TO_ISO_OVERRIDES term) with
        | Some iso => if map_has details iso then Some iso else None
        | None => None
        end in
      match alias with
      | Some iso => Selected iso
      | None =>
          if map_has details term then Selected term else
          match find (name_test startsWith term) details with
          | Some kv => Selected (fst kv)
          | None =>
              match find (name_test includes term) details with
              | Some kv => Selected (fst kv)
              | None => Kept
              end
          end
      end
  end.

(** ** The page: colours

    [colorFor] maps a share to a colour between three fixed ones. *)

(** [Math.round(x)]: the nearest integer, a half going up. *)
Definition Math_round (x : num) : num :=
  match x with
  | Fin v => Fin (IZR (Int_part (v + / 2)))
  | _ => x
  end.

(** [function clamp01(x) { return Math.max(0, Math.min(1, x)); }] *)
Definition clamp01 (x : num) : num := Math_max (Fin 0) (Math_min (Fin 1) x).

(** [a.map((v, i) => Math.round(v + (b[i] - v) * f))]; past the end of
    [b] the index reads [undefined], NaN in the subtraction. *)
Fixpoint mix (a b : list num) (f : num) : list num :=
  match a with
  | [] => []
  | v :: a' => Math_round (jadd v (jmul (jsub (hd NaN b) v) f)) :: mix a' (tl b) f
  end.

Definition ramp_start : list num := [Fin 10; Fin 25; Fin 40].
Definition ramp_mid : list num := [Fin 0; Fin 174; Fin 239].
Definition ramp_end : list num := [Fin 120; Fin 230; Fin 255].

(** [finalMix] of [colorFor]. *)
Definition colorFor_channels (v maxShare : num) : list num :=
  let norm := if jgt maxShare (Fin 0) then jdiv v maxShare else Fin 0 in
  let t := Math_pow (clamp01 norm) (Fin 0.35) in
  let midMix := mix ramp_start ramp_mid (jmul t (Fin 0.7)) in
  mix midMix ramp_end (Math_pow t (Fin 1.2)).

(** A number inside a template string.  The finite numbers met here are
    integers, written in decimal digits. *)
Definition number_text (x : num) : string :=
  match x with
  | Fin v => NilZero.string_of_int (Z.to_int (Int_part v))
  | PInf => "Infinity"
  | NInf => "-Infinity"
  | NaN => "NaN"
  end.

(** [colorFor(v, maxShare)]; [finalMix] has three elements. *)
Definition colorFor (v maxShare : num) : string :=
  let finalMix := colorFor_channels v maxShare in
  "rgb(" ++ number_text (nth 0 finalMix NaN) ++ ","
         ++ number_text (nth 1 finalMix NaN) ++ ","
         ++ number_text (nth 2 finalMix NaN) ++ ")".

(** * Definitions used in the statements

    Readings of the specification, predicates on inputs, and closed
    inputs on which the engine is run. *)

(** A country list as CSV text and feeds as parsed JSON. *)
Fixpoint join_lines (ls : list string) : string :=
  match ls with
  | [] => EmptyString
  | [l] => l
  | l :: r => (l ++ String newline (join_lines r))%string
  end.

(** A field that needs no quoting: no comma and no quote character. *)
Fixpoint plain (s : string) : bool :=
  match s with
  | EmptyString => true
  | String c r => negb (Ascii.eqb c dquote) && negb (Ascii.eqb c comma) && plain r
  end.

(** A field as it may stand in a line: quoted when asked to or when it
    has to be, bare otherwise. *)
Definition encode_field (f : bool * string) : string :=
  if fst f || negb (plain (snd f)) then quote_field (snd f) else snd f.

(** What follows a field in a line: nothing, or a comma. *)
Definition field_end (rest : string) : Prop :=
  rest = EmptyString \/ exists r, rest = String comma r.

(** The middle of a sorted array, in the words of the specification: the
    middle element for an odd count, the average of the two middle
    elements for an even count. *)
Definition middle_value (a : list R) : R :=
  let n := List.length a in
  if Nat.odd n then nth (n / 2) a 0
  else (nth (n / 2 - 1) a 0 + nth (n / 2) a 0) / 2.

(** The fallback statistic in the words of the specification. *)
Definition fallback_statistic (observed : list R) (default : R) : num :=
  match sort_asc observed with
  | [] => Fin default
  | a => Fin (middle_value a)
  end.

(** The finite values of one indicator seen among the countries of a
    segment, in the order of the country list. *)
Fixpoint seg_observations (m : jsmap Latest.t) (s : Segment)
    (countries : list Country.t) : list R :=
  match countries with
  | [] => []
  | c :: r =>
      match in_segment s c, value_of m (Country.iso3 c) with
      | true, Some (Fin x) => x :: seg_observations m s r
      | _, _ => seg_observations m s r
      end
  end.

(** [result] is the median of [observed], or [default] when nothing was
    observed. *)
Definition is_median_or (observed : list R) (default : R) (result : num) : Prop :=
  exists a : list R,
    Permutation a observed /\ Sorted Rle a /\
    result = match a with [] => Fin default | _ => Fin (middle_value a) end.

(** A row the loop does not skip: a non-empty country code, a date whose
    [Number] is finite, a value that is neither [null] nor missing. *)
Definition qualifies (it : Datum.t) : bool :=
  match Datum.countryiso3code it with
  | None => false
  | Some iso3 =>
      negb (String.eqb iso3 "")
      && isFiniteNum (Number (Datum.date it))
      && negb (is_nullish (Datum.value it))
  end.

Definition entry_of (it : Datum.t) : Latest.t :=
  Latest.mk (Number (Datum.date it)) (Number (Datum.value it)).

Definition row_is_for (iso3 : string) (it : Datum.t) : bool :=
  qualifies it && str_is (Datum.countryiso3code it) iso3.

(** The qualifying observations of one country, in input order. *)
Definition observations (iso3 : string) (rows : list Datum.t) : list Latest.t :=
  List.map entry_of (filter (row_is_for iso3) rows).

(** The fate of one key during one turn of the loop. *)
Definition keep_or_replace (prev : option Latest.t) (o : Latest.t) : option Latest.t :=
  match prev with
  | None => Some o
  | Some p => if jgt (Latest.year o) (Latest.year p) then Some o else Some p
  end.

(** [e] is the first entry of [obs] that carries the greatest year. *)
Definition first_of_max_year (obs : list Latest.t) (e : Latest.t) : Prop :=
  exists pre post,
    obs = pre ++ e :: post
    /\ (forall o, In o pre -> jlt (Latest.year o) (Latest.year e) = true)
    /\ (forall o, In o post -> jle (Latest.year o) (Latest.year e) = true).

(** The reduction as the specification words it: a row also drops out
    when its value is not numeric, that is, when [Number] of the value is
    not a finite number. *)
Definition claimed_row_is_for (iso3 : string) (it : Datum.t) : bool :=
  row_is_for iso3 it && isFiniteNum (Number (Datum.value it)).

Definition claimed_observations (iso3 : string) (rows : list Datum.t)
  : list Latest.t :=
  List.map entry_of (filter (claimed_row_is_for iso3) rows).

(** [e] is an entry of [obs] of greatest year. *)
Definition at_max_year (obs : list Latest.t) (e : Latest.t) : Prop :=
  In e obs /\ forall o, In o obs -> jle (Latest.year o) (Latest.year e) = true.

Definition latest_as_claimed (rows : list Datum.t) (iso3 : string) : Prop :=
  match map_get (latestRows rows) iso3 with
  | None => claimed_observations iso3 rows = []
  | Some e => at_max_year (claimed_observations iso3 rows) e
  end.

(** [clamp] read on the extended reals: NaN has no clamped value. *)
Definition clamp_real (v : num) (lo hi : R) : option R :=
  match v with
  | Fin x => Some (Rmax lo (Rmin hi x))
  | PInf => Some hi
  | NInf => Some lo
  | NaN => None
  end.

Definition hub_multiplier (iso3 : string) : R :=
  match map_get HUB_MULT iso3 with Some (Fin h) => h | _ => 1 end.

Definition office_multiplier (iso3 : string) : R :=
  if set_has OFFICE_COUNTRIES iso3 then 1.15 else 1.

Definition near_zero_multiplier (iso3 : string) : R :=
  if set_has NEAR_ZERO iso3 then 0.01 else 1.

(** The composite score of the specification, before the multipliers. *)
Definition composite (g m c w n : R) : R :=
  Rpower g 0.7
  * Rpower (1 + m / 100) 0.9
  * Rpower (1 + c / 100) 0.6
  * Rpower (1 + w / 50000) 0.35
  * Rpower (0.2 + n / 100) 0.25.

(** The score of the specification for GDP [g] and the four resolved
    indicators. *)
Definition claimed_score (g : R) (mcap credit gdppc net : num) (iso3 : string)
  : num :=
  match clamp_real mcap 0 400, clamp_real credit 0 300,
        clamp_real gdppc 0 80000, clamp_real net 0 100 with
  | Some m, Some c, Some w, Some n =>
      Fin (composite g m c w n
           * hub_multiplier iso3
           * office_multiplier iso3
           * near_zero_multiplier iso3)
  | _, _, _, _ => NaN
  end.

(** A small country list and its lookups, used to run the engine. *)
Definition sample_countries : list Country.t :=
  [ Country.mk "USA" (Some "US") "United States" (Some "Americas")
      (Some "Northern America") (Some AMERICAS);
    Country.mk "CUB" (Some "CU") "Cuba" (Some "Americas")
      (Some "Latin America and the Caribbean") (Some AMERICAS);
    Country.mk "FRA" (Some "FR") "France" (Some "Europe")
      (Some "Western Europe") (Some EMEA);
    Country.mk "JPN" (Some "JP") "Japan" (Some "Asia")
      (Some "Eastern Asia") (Some APAC);
    Country.mk "ATA" (Some "AQ") "Antarctica" (Some "") (Some "") None ].

Definition at_year (y v : R) : Latest.t := Latest.mk (Fin y) (Fin v).

Definition sample_indicators : Indicators :=
  mkIndicators
    [ ("USA", at_year 2023 1000); ("CUB", at_year 2020 1000);
      ("FRA", at_year 2023 500) ]
    [ ("USA", at_year 2022 150) ]
    [ ("USA", at_year 2022 200); ("FRA", at_year 2022 100) ]
    [ ("USA", at_year 2023 90000) ]
    [ ("USA", at_year 2023 95) ]
    [ ("USA", at_year 2023 330000000) ].

(** None of the four indicator lookups holds NaN for the key. *)
Definition no_nan_indicator (ind : Indicators) (iso3 : string) : Prop :=
  value_of (mcapPct ind) iso3 <> Some NaN
  /\ value_of (creditPct ind) iso3 <> Some NaN
  /\ value_of (gdpPc ind) iso3 <> Some NaN
  /\ value_of (netPct ind) iso3 <> Some NaN.

(** The GDP of the key is missing, not finite, or not positive. *)
Definition gdp_unusable (ind : Indicators) (iso3 : string) : Prop :=
  match value_of (gdp ind) iso3 with
  | Some (Fin g) => g <= 0
  | _ => True
  end.

Definition Rsum (l : list R) : R := fold_right Rplus 0 l.

(** The anchor totals as reals. *)
Definition anchor (s : Segment) : R :=
  match s with
  | AMERICAS => 1506108 / 1000
  | EMEA => 580284 / 1000
  | APAC => 235356 / 1000
  end.

(** The revenue written in the row of country [c] of segment [s]. *)
Definition revenue_of (countries : list Country.t) (ind : Indicators)
    (s : Segment) (c : Country.t) : num :=
  let m := scores countries ind s in
  Alloc.revenueMillions (alloc_row m (score_sum m) s c).

(** Two keys that the engine cannot tell apart but for the near-zero
    set: same GDP [g], same four indicator readings, same hub and office
    status, the first in the near-zero set and the second not. *)
Definition twins (ind : Indicators) (k1 k2 : string) (g : R) : Prop :=
  value_of (gdp ind) k1 = Some (Fin g)
  /\ value_of (gdp ind) k2 = Some (Fin g)
  /\ 0 < g
  /\ value_of (mcapPct ind) k1 = value_of (mcapPct ind) k2
  /\ value_of (creditPct ind) k1 = value_of (creditPct ind) k2
  /\ value_of (gdpPc ind) k1 = value_of (gdpPc ind) k2
  /\ value_of (netPct ind) k1 = value_of (netPct ind) k2
  /\ map_get HUB_MULT k1 = map_get HUB_MULT k2
  /\ set_has OFFICE_COUNTRIES k1 = set_has OFFICE_COUNTRIES k2
  /\ set_has NEAR_ZERO k1 = true
  /\ set_has NEAR_ZERO k2 = false.

Definition every_segment_populated (countries : list Country.t) : Prop :=
  forall s, exists c, In c countries /\ Country.seg c = Some s.

(** The rows of each segment add up to its anchor and all rows add up to
    the three anchors. *)
Definition anchored (countries : list Country.t) (ind : Indicators) : Prop :=
  (forall s,
     sum_revenue (alloc_segment countries (scores countries ind) s)
     = SEGMENT_REVENUE_USD_M s)
  /\ sum_revenue (allocations countries ind)
     = jadd (jadd (SEGMENT_REVENUE_USD_M AMERICAS) (SEGMENT_REVENUE_USD_M EMEA))
            (SEGMENT_REVENUE_USD_M APAC).

(** A country list in which one code comes twice. *)
Definition repeated_csv : string :=
  join_lines
    [ "name,alpha-2,alpha-3,region,sub-region";
      "United States,US,USA,Americas,Northern America";
      "United States of America,US,USA,Americas,Northern America";
      "France,FR,FRA,Europe,Western Europe";
      "Japan,JP,JPN,Asia,Eastern Asia" ].

Definition repeated_code : list Country.t := fst (parseCountries repeated_csv).

Definition no_indicators : Indicators := mkIndicators [] [] [] [] [] [].

(** The resolution of an indicator in the words of the specification:
    the direct value when it is present and finite, the segment median
    otherwise. *)
Definition claimed_resolution (direct : option num) (median : num) : num :=
  match direct with
  | Some (Fin x) => Fin x
  | _ => median
  end.

Definition taxonomy_csv : string :=
  join_lines
    [ "name,alpha-2,alpha-3,region,sub-region";
      "United States,US,USA,Americas,Northern America";
      "Haiti,HT,HTI,Americas,Latin America and the Caribbean";
      "Cuba,CU,CUB,Americas,Latin America and the Caribbean";
      "Dominican Republic,DO,DOM,Americas,Latin America and the Caribbean";
      "France,FR,FRA,Europe,Western Europe";
      "Japan,JP,JPN,Asia,Eastern Asia";
      "Antarctica,AQ,ATA,," ].

Definition feed (rows : list Datum.t) : WbJson := WbArray [ []; rows ].

Definition obs (iso3 year : string) (v : jsval) : Datum.t :=
  Datum.mk (Some iso3) (JStr year) v.

Definition gdp_feed : WbJson :=
  feed [ obs "USA" "2023" (JNum (Fin 1000));
         obs "HTI" "2023" JNull;
         obs "CUB" "2023" (JNum (Fin 500));
         obs "DOM" "2023" (JNum (Fin 500));
         obs "FRA" "2023" (JNum (Fin 800));
         obs "JPN" "2023" (JNum (Fin 900)) ].

(** A market-cap value too large for a double reads as Infinity. *)
Definition mcap_feed_infinite : WbJson :=
  feed [ obs "USA" "2022" (JNum PInf); obs "DOM" "2022" (JNum (Fin 40)) ].

(** A market-cap value that is a word. *)
Definition mcap_feed_word : WbJson :=
  feed [ obs "USA" "2022" (JStr "n/a") ].

(** A market-cap value that is the number NaN. *)
Definition mcap_feed_nan : WbJson :=
  feed [ obs "USA" "2022" (JNum NaN) ].

Definition taxonomy : list Country.t := fst (parseCountries taxonomy_csv).

Definition lookups (mcapJson : WbJson) : Indicators :=
  mkIndicators (latestByIso3 gdp_feed) (latestByIso3 mcapJson)
    (latestByIso3 (feed [])) (latestByIso3 (feed []))
    (latestByIso3 (feed [])) (latestByIso3 (feed [])).

Definition no_segment (c : Country.t) : bool :=
  match Country.seg c with None => true | Some _ => false end.

(** A line without quote character. *)
Fixpoint no_quote (s : string) : bool :=
  match s with
  | EmptyString => true
  | String c r => negb (Ascii.eqb c dquote) && no_quote r
  end.

(** The number of commas of a string. *)
Fixpoint count_commas (s : string) : nat :=
  match s with
  | EmptyString => 0%nat
  | String c r => ((if Ascii.eqb c comma then 1 else 0) + count_commas r)%nat
  end.

(** The lookups with another GDP lookup. *)
Definition with_gdp (ind : Indicators) (gdp' : jsmap Latest.t) : Indicators :=
  mkIndicators gdp' (mcapPct ind) (creditPct ind) (gdpPc ind) (netPct ind) (pop ind).

(** The anchor of a segment that has a country, 0 for one that has
    none. *)
Definition anchor_if_populated (countries : list Country.t) (s : Segment) : R :=
  if existsb (in_segment s) countries then anchor s else 0.

(** The greatest of [m0] and the numbers of a list. *)
Definition Rmax_list (m0 : R) (l : list R) : R := fold_left Rmax l m0.

(** The lookups with another market-cap lookup. *)
Definition with_mcap (ind : Indicators) (mcap' : jsmap Latest.t) : Indicators :=
  mkIndicators (gdp ind) mcap' (creditPct ind) (gdpPc ind) (netPct ind) (pop ind).

(** The table entry of a country, read off the country record, its
    allocation row and the lookups. *)
Definition entry_for (countries : list Country.t) (iso3ToAlpha2 : jsmap string)
    (ind : Indicators) (c : Country.t) : Detail.t :=
  let total := sum_revenue (allocations countries ind) in
  let revenue :=
    match Country.seg c with
    | Some s => revenue_of countries ind s c
    | None => Fin 0
    end in
  Detail.mk (Country.iso3 c) (Country.name c)
    (nullish (Country.region c) "")
    revenue
    (match Country.seg c with
     | Some _ => if jgt total (Fin 0) then jdiv revenue total else Fin 0
     | None => Fin 0
     end)
    (value_of (pop ind) (Country.iso3 c))
    (flag_of (alpha2_for (Country.alpha2 c) iso3ToAlpha2 (Country.iso3 c)))
    (match Country.seg c with Some s => segment_name s | None => "" end)
    (set_has OFFICE_COUNTRIES (Country.iso3 c))
    (map_has HUB_MULT (Country.iso3 c))
    (set_has NEAR_ZERO (Country.iso3 c)).

(** The order of the export file: segments alphabetically, and within a
    segment the larger revenue first. *)
Definition export_before (a b : Alloc.t) : Prop :=
  (segment_rank (Alloc.segment a) < segment_rank (Alloc.segment b))%nat
  \/ (Alloc.segment a = Alloc.segment b
      /\ match Alloc.revenueMillions a, Alloc.revenueMillions b with
         | Fin x, Fin y => y <= x
         | _, _ => False
         end).

Definition finite_revenue (r : Alloc.t) : Prop :=
  isFiniteNum (Alloc.revenueMillions r) = true.

Definition export_sample : list Alloc.t :=
  [ Alloc.mk "DEU" "Germany" EMEA (Fin 40) true true false;
    Alloc.mk "JPN" "Japan" APAC (Fin 30) true true false;
    Alloc.mk "USA" "United States of America" AMERICAS (Fin 1200) true true false;
    Alloc.mk "GBR" "United Kingdom" EMEA (Fin 90) true true false ].

(** A character other than a small letter. *)
Definition not_small (c : ascii) : bool :=
  let n := nat_of_ascii c in negb ((97 <=? n) && (n <=? 122))%nat.

Fixpoint no_small (s : string) : bool :=
  match s with
  | EmptyString => true
  | String c r => not_small c && no_small r
  end.

(** A string of white space only. *)
Fixpoint blank (s : string) : bool :=
  match s with
  | EmptyString => true
  | String c r => is_space c && blank r
  end.

(** What entitles a code to be selected for a search term: the term is
    an alias of it, or is the code itself, or occurs in the upper-cased
    name of an entry under that code. *)
Definition justified (details : jsmap Detail.t) (term iso : string) : Prop :=
  map_get NAME_TO_ISO_OVERRIDES term = Some iso
  \/ iso = term
  \/ exists d, In (iso, d) details
               /\ includes (toUpperCase (Detail.name d)) term = true.

Definition detail_row (iso3 name : string) : Detail.t :=
  Detail.mk iso3 name "Europe" (Fin 1) (Fin 0.5) None None "EMEA"
    false false false.

(** The places a feature's code can come from: the alias table, or one
    of the five code properties (the id upper-cased). *)
Definition code_sources (props : jsmap string) : list (option string) :=
  List.map Some (map_values NAME_TO_ISO_OVERRIDES)
  ++ [ option_map toUpperCase (map_get props "id");
       map_get props "ISO3166-1-Alpha-3";
       map_get props "ISO_A3";
       map_get props "iso_a3";
       map_get props "adm0_a3" ].

Definition page_sample : list Detail.t :=
  [ detail_row "fra" "Francia"; detail_row "UKR" "Ukraine" ].

(** A colour channel: a whole number from 0 to 255. *)
Definition channel (c : num) : Prop :=
  exists z : Z, c = Fin (IZR z) /\ (0 <= z <= 255)%Z.

(** A cell of a data line, read under a column name of the header and
    trimmed; [None] when the header has no such column or the line is
    too short. *)
Definition cell (header : list string) (line : string) (column : string)
  : option string :=
  option_map trim (col (splitCsvLine line) (indexOf header column)).

(** The record a data line stands for, in the words of the claim: a row
    with a non-empty code and a non-empty name gives one record, any
    other row none.  The code is the upper-cased alpha-3 cell. *)
Definition record_of_row (header : list string) (line : string)
  : option Country.t :=
  match truthy (option_map toUpperCase (cell header line "alpha-3")),
        truthy (cell header line "name") with
  | Some code, Some name =>
      Some (Country.mk code
              (truthy (option_map toUpperCase (cell header line "alpha-2")))
              name
              (cell header line "region")
              (cell header line "sub-region")
              (segmentOfCountry (cell header line "region")
                 (cell header line "sub-region")))
  | _, _ => None
  end.

(** The countries present in the taxonomy text: the records of the
    lines that follow the header, in their order. *)
Definition taxonomy_rows (isoCsv : string) : list Country.t :=
  match split_newline (trim isoCsv) with
  | [] => []
  | header :: data =>
      flat_map
        (fun line =>
           match record_of_row (splitCsvLine header) line with
           | Some c => [c]
           | None => []
           end)
        data
  end.

(** The alpha-3 cells of the data lines exactly as they are written. *)
Definition raw_codes (isoCsv : string) : list (option string) :=
  match split_newline (trim isoCsv) with
  | [] => []
  | header :: data =>
      List.map
        (fun line => col (splitCsvLine line) (indexOf (splitCsvLine header) "alpha-3"))
        data
  end.

(** A country list whose codes differ as written and agree once
    upper-cased. *)
Definition mixed_case_csv : string :=
  join_lines
    [ "name,alpha-2,alpha-3,region,sub-region";
      "United States,US,usa,Americas,Northern America";
      "United States of America,US,USA,Americas,Northern America" ].

(** The output table for that list. *)
Definition mixed_case_table : list Detail.t :=
  countryDetails
    (buildExposureData mixed_case_csv gdp_feed (feed []) (feed []) (feed [])
       (feed []) (feed [])).

(** * Properties *)

(** ** Real comparisons *)

Lemma Rltb_true x y : Rltb x y = true <-> x < y.
Proof. unfold Rltb; destruct (Rlt_dec x y); split; intros; try easy. Qed.

Lemma Rltb_false x y : Rltb x y = false <-> y <= x.
Proof.
  unfold Rltb; destruct (Rlt_dec x y); split; intros; try easy; lra.
Qed.

Lemma Rleb_true x y : Rleb x y = true <-> x <= y.
Proof. unfold Rleb; destruct (Rle_dec x y); split; intros; try easy. Qed.

Lemma Rleb_false x y : Rleb x y = false <-> y < x.
Proof.
  unfold Rleb; destruct (Rle_dec x y); split; intros; try easy; lra.
Qed.

Lemma Reqb_true x y : Reqb x y = true <-> x = y.
Proof. unfold Reqb; destruct (Req_dec_T x y); split; intros; try easy. Qed.

Lemma Reqb_false x y : Reqb x y = false <-> x <> y.
Proof. unfold Reqb; destruct (Req_dec_T x y); split; intros; try easy. Qed.

(** Decide every real comparison of the goal whose outcome [lra] can see. *)
Ltac rdec :=
  repeat match goal with
  | |- context [Rltb ?a ?b] =>
      first [ replace (Rltb a b) with true by (symmetry; apply Rltb_true; lra)
            | replace (Rltb a b) with false by (symmetry; apply Rltb_false; lra) ]
  | |- context [Rleb ?a ?b] =>
      first [ replace (Rleb a b) with true by (symmetry; apply Rleb_true; lra)
            | replace (Rleb a b) with false by (symmetry; apply Rleb_false; lra) ]
  | |- context [Reqb ?a ?b] =>
      first [ replace (Reqb a b) with true by (symmetry; apply Reqb_true; lra)
            | replace (Reqb a b) with false by (symmetry; apply Reqb_false; lra) ]
  end.

(** ** Evaluation of the helpers on small inputs *)

Example split_smith :
  splitCsvLine ("USA," ++ quoted "Smith, John" ++ ",1")
  = ["USA"; "Smith, John"; "1"].
Proof. reflexivity. Qed.

Example Number_year : Number (JStr "2020") = Fin 2020.
Proof. reflexivity. Qed.

Example Number_blank : Number (JStr " ") = Fin 0.
Proof. reflexivity. Qed.

Example Number_word : Number (JStr "n/a") = NaN.
Proof. reflexivity. Qed.

Example Number_decimal : Number (JStr "-12.5") = Fin (-12.5).
Proof.
  replace (Number (JStr "-12.5")) with (Fin (- (125 / 10))) by reflexivity.
  f_equal; lra.
Qed.

(** ** The CSV splitter reads back what the writer quotes *)

Lemma append_nil_r (s : string) : (s ++ "")%string = s.
Proof. induction s; simpl; congruence. Qed.

Lemma append_assoc (a b c : string) :
  ((a ++ b) ++ c)%string = (a ++ (b ++ c))%string.
Proof. induction a; simpl; congruence. Qed.

Lemma snoc_append (cur : string) (c : ascii) (r : string) :
  (snoc cur c ++ r)%string = (cur ++ String c r)%string.
Proof. unfold snoc. now rewrite append_assoc. Qed.

Lemma loop_close_quote rest cur out :
  field_end rest ->
  splitCsvLine_loop (String dquote rest) cur true out
  = splitCsvLine_loop rest cur false out.
Proof.
  intros [-> | [r ->]]; reflexivity.
Qed.

Lemma loop_quoted_body f : forall rest cur out,
  field_end rest ->
  splitCsvLine_loop (double_quotes f ++ String dquote rest) cur true out
  = splitCsvLine_loop rest (cur ++ f) false out.
Proof.
  induction f as [| c f IH]; intros rest cur out Hend.
  - simpl append at 1. rewrite append_nil_r. now apply loop_close_quote.
  - simpl double_quotes. destruct (Ascii.eqb c dquote) eqn:Hc.
    + apply Ascii.eqb_eq in Hc; subst c.
      change (splitCsvLine_loop
                (double_quotes f ++ String dquote rest) (snoc cur dquote) true out
              = splitCsvLine_loop rest (cur ++ String dquote f) false out).
      rewrite IH by assumption. now rewrite snoc_append.
    + simpl. rewrite Hc. rewrite andb_false_r.
      rewrite IH by assumption. now rewrite snoc_append.
Qed.

Lemma loop_quoted_field f rest cur out :
  field_end rest ->
  splitCsvLine_loop (quote_field f ++ rest) cur false out
  = splitCsvLine_loop rest (cur ++ f) false out.
Proof.
  intros Hend. unfold quote_field.
  change (splitCsvLine_loop
            ((double_quotes f ++ String dquote "") ++ rest) cur true out
          = splitCsvLine_loop rest (cur ++ f) false out).
  rewrite append_assoc. simpl append at 2.
  now apply loop_quoted_body.
Qed.

Lemma loop_plain_field f : forall rest cur out,
  plain f = true ->
  splitCsvLine_loop (f ++ rest) cur false out
  = splitCsvLine_loop rest (cur ++ f) false out.
Proof.
  induction f as [| c f IH]; intros rest cur out Hp.
  - simpl. now rewrite append_nil_r.
  - simpl in Hp. apply andb_prop in Hp as [Hp Hf].
    apply andb_prop in Hp as [Hq Hc].
    apply negb_true_iff in Hq, Hc.
    simpl. rewrite Hq, Hc. simpl.
    rewrite IH by assumption. now rewrite snoc_append.
Qed.

Lemma loop_encoded_field f rest cur out :
  field_end rest ->
  splitCsvLine_loop (encode_field f ++ rest) cur false out
  = splitCsvLine_loop rest (cur ++ snd f) false out.
Proof.
  intros Hend. unfold encode_field.
  destruct (fst f || negb (plain (snd f))) eqn:E.
  - now apply loop_quoted_field.
  - apply orb_false_elim in E as [_ E]. apply negb_false_iff in E.
    now apply loop_plain_field.
Qed.

Lemma loop_encoded_line fs : forall f out,
  splitCsvLine_loop (join_comma (List.map encode_field (f :: fs))) "" false out
  = out ++ List.map snd (f :: fs).
Proof.
  induction fs as [| g fs IH]; intros f out.
  - simpl. rewrite <- (append_nil_r (encode_field f)).
    rewrite loop_encoded_field by (now left). reflexivity.
  - change (join_comma (List.map encode_field (f :: g :: fs)))
      with (encode_field f
            ++ String comma (join_comma (List.map encode_field (g :: fs))))%string.
    rewrite loop_encoded_field by (right; eauto).
    change (splitCsvLine_loop
              (join_comma (List.map encode_field (g :: fs))) "" false
              (out ++ [("" ++ snd f)%string])
            = out ++ List.map snd (f :: g :: fs)).
    rewrite IH. simpl. now rewrite <- app_assoc.
Qed.

(** C8.  The splitter undoes standard CSV quoting: on a line made of
    fields that are each either bare (no comma, no quote character) or
    wrapped in quotes with every inner quote doubled, it returns exactly
    the fields.  So a comma inside a quoted field does not split and a
    doubled quote yields one quote character.  In particular the line
    USA, quoted Smith-comma-John, 1 gives three fields, and the quoted
    field He said hi with doubled quotes around hi reads back with single
    quotes. *)
Theorem splitCsvLine_standard_quoting :
  (forall (f : bool * string) (fs : list (bool * string)),
     splitCsvLine (join_comma (List.map encode_field (f :: fs)))
     = List.map snd (f :: fs))
  /\ (forall a b : string,
        splitCsvLine (quote_field (a ++ String comma b))
        = [(a ++ String comma b)%string])
  /\ (forall a b : string,
        splitCsvLine (quoted (double_quotes a ++ String dquote (String dquote (double_quotes b))))
        = [(a ++ String dquote b)%string])
  /\ splitCsvLine ("USA," ++ quoted "Smith, John" ++ ",1")
     = ["USA"; "Smith, John"; "1"]
  /\ splitCsvLine (quoted ("He said " ++ quoted (quoted "hi")))
     = [("He said " ++ quoted "hi")%string].
Proof.
  assert (G : forall (f : bool * string) (fs : list (bool * string)),
             splitCsvLine (join_comma (List.map encode_field (f :: fs)))
             = List.map snd (f :: fs)).
  { intros f fs. unfold splitCsvLine. now rewrite loop_encoded_line. }
  split; [exact G |].
  split; [intros a b; exact (G (true, (a ++ String comma b)%string) []) |].
  split; [| split; reflexivity].
  intros a b.
  replace (quoted (double_quotes a ++ String dquote (String dquote (double_quotes b))))
    with (quote_field (a ++ String dquote b)).
  - exact (G (true, (a ++ String dquote b)%string) []).
  - unfold quote_field, quoted. do 2 f_equal.
    induction a as [| c a IH]; simpl.
    + reflexivity.
    + destruct (Ascii.eqb c dquote); simpl; now rewrite IH.
Qed.

(** ** The median and the per-segment fallback *)

Lemma insert_asc_perm x l : Permutation (x :: l) (insert_asc x l).
Proof.
  induction l as [| y l IH]; simpl.
  - apply Permutation_refl.
  - destruct (Rleb x y).
    + apply Permutation_refl.
    + eapply perm_trans; [apply perm_swap |]. now apply perm_skip.
Qed.

Lemma sort_asc_perm l : Permutation l (sort_asc l).
Proof.
  induction l as [| x l IH]; simpl.
  - apply perm_nil.
  - eapply perm_trans; [apply perm_skip, IH | apply insert_asc_perm].
Qed.

Lemma insert_asc_sorted x l : Sorted Rle l -> Sorted Rle (insert_asc x l).
Proof.
  induction l as [| y l IH]; intros Hs; simpl.
  - repeat constructor.
  - destruct (Rleb x y) eqn:E.
    + apply Rleb_true in E. constructor; [assumption | now constructor].
    + apply Rleb_false in E. inversion Hs as [| ? ? Hs' Hhd]; subst.
      constructor; [now apply IH |].
      destruct l as [| z l]; simpl.
      * constructor; lra.
      * destruct (Rleb x z); constructor; try lra.
        now inversion Hhd.
Qed.

Lemma sort_asc_sorted l : Sorted Rle (sort_asc l).
Proof.
  induction l as [| x l IH]; simpl.
  - constructor.
  - now apply insert_asc_sorted.
Qed.

Lemma sort_asc_length l : List.length (sort_asc l) = List.length l.
Proof. symmetry. apply Permutation_length, sort_asc_perm. Qed.

Lemma finite_values_Fin l : finite_values (List.map Fin l) = l.
Proof. induction l; simpl; congruence. Qed.

Lemma odd_mod2 n : negb (Nat.modulo n 2 =? 0)%nat = Nat.odd n.
Proof.
  rewrite <- Nat.negb_even. f_equal.
  destruct (Nat.even n) eqn:E.
  - apply Nat.even_spec in E. destruct E as [k ->].
    apply Nat.eqb_eq. rewrite Nat.mul_comm. apply Nat.Div0.mod_mul.
  - apply Nat.eqb_neq. intros H.
    assert (Nat.even n = true); [| congruence].
    apply Nat.even_spec. exists (n / 2)%nat.
    pose proof (Nat.div_mod_eq n 2). lia.
Qed.

Lemma median_of_finite (l : list R) (d : R) :
  nullish (median (List.map Fin l)) (Fin d) = fallback_statistic l d.
Proof.
  unfold median, fallback_statistic. rewrite finite_values_Fin.
  destruct (sort_asc l) as [| x a] eqn:E; [reflexivity |].
  cbv zeta. rewrite odd_mod2. unfold middle_value.
  change (List.length (x :: a) =? 0)%nat with false. cbv iota.
  destruct (Nat.odd (List.length (x :: a))); [reflexivity |].
  unfold jadd, jdiv, nullish.
  replace (Reqb 2 0) with false by (symmetry; apply Reqb_false; lra).
  reflexivity.
Qed.

Lemma push_finite_spec arr v :
  push_finite arr v
  = arr ++ match v with Some (Fin x) => [Fin x] | _ => [] end.
Proof.
  destruct v as [[x | | |] |]; simpl; now rewrite ?app_nil_r.
Qed.

Lemma Segment_eqb_eq a b : Segment_eqb a b = true <-> a = b.
Proof. destruct a, b; simpl; split; congruence. Qed.

Lemma Segment_eqb_refl a : Segment_eqb a a = true.
Proof. now destruct a. Qed.

Lemma Segment_eqb_sym a b : Segment_eqb a b = Segment_eqb b a.
Proof. now destruct a, b. Qed.

Lemma in_segment_true s c : in_segment s c = true <-> Country.seg c = Some s.
Proof.
  unfold in_segment. destruct (Country.seg c) as [s' |].
  - rewrite Segment_eqb_eq. split; congruence.
  - split; discriminate.
Qed.

Lemma segVals_fold ind s countries : forall sv0,
  let sv := fold_left (segVals_step ind) countries sv0 s in
  Vals.mcap sv
    = Vals.mcap (sv0 s) ++ List.map Fin (seg_observations (mcapPct ind) s countries)
  /\ Vals.credit sv
    = Vals.credit (sv0 s) ++ List.map Fin (seg_observations (creditPct ind) s countries)
  /\ Vals.gdppc sv
    = Vals.gdppc (sv0 s) ++ List.map Fin (seg_observations (gdpPc ind) s countries)
  /\ Vals.net sv
    = Vals.net (sv0 s) ++ List.map Fin (seg_observations (netPct ind) s countries).
Proof.
  induction countries as [| c cs IH]; intros sv0; cbn zeta.
  - simpl. now rewrite !app_nil_r.
  - simpl fold_left. specialize (IH (segVals_step ind sv0 c)).
    cbn zeta in IH. destruct IH as (H1 & H2 & H3 & H4).
    rewrite H1, H2, H3, H4. clear H1 H2 H3 H4.
    unfold segVals_step. simpl seg_observations. unfold in_segment.
    destruct (Country.seg c) as [s' |]; [| now repeat split].
    unfold upd. destruct (Segment_eqb s s') eqn:E.
    + apply Segment_eqb_eq in E; subst s'. rewrite Segment_eqb_refl.
      simpl. rewrite !push_finite_spec.
      repeat split; rewrite <- app_assoc; f_equal;
        match goal with
        | |- context [value_of ?m ?k] => destruct (value_of m k) as [[x | | |] |]
        end; reflexivity.
    + replace (Segment_eqb s' s) with false
        by (destruct s, s'; simpl in *; congruence).
      now repeat split.
Qed.

Lemma segVals_spec countries ind s :
  Vals.mcap (segVals countries ind s)
    = List.map Fin (seg_observations (mcapPct ind) s countries)
  /\ Vals.credit (segVals countries ind s)
    = List.map Fin (seg_observations (creditPct ind) s countries)
  /\ Vals.gdppc (segVals countries ind s)
    = List.map Fin (seg_observations (gdpPc ind) s countries)
  /\ Vals.net (segVals countries ind s)
    = List.map Fin (seg_observations (netPct ind) s countries).
Proof.
  exact (segVals_fold ind s countries (fun _ => Vals.mk [] [] [] [])).
Qed.

Lemma segMedian_spec countries ind s :
  Med.mcap (segMedian countries ind s)
    = fallback_statistic (seg_observations (mcapPct ind) s countries) 30
  /\ Med.credit (segMedian countries ind s)
    = fallback_statistic (seg_observations (creditPct ind) s countries) 50
  /\ Med.gdppc (segMedian countries ind s)
    = fallback_statistic (seg_observations (gdpPc ind) s countries) 8000
  /\ Med.net (segMedian countries ind s)
    = fallback_statistic (seg_observations (netPct ind) s countries) 55.
Proof.
  unfold segMedian. destruct (segVals_spec countries ind s) as (H1 & H2 & H3 & H4).
  rewrite H1, H2, H3, H4. simpl.
  repeat split; apply median_of_finite.
Qed.

Lemma fallback_statistic_is_median observed default :
  is_median_or observed default (fallback_statistic observed default).
Proof.
  exists (sort_asc observed). split; [| split].
  - apply Permutation_sym, sort_asc_perm.
  - apply sort_asc_sorted.
  - unfold fallback_statistic. now destruct (sort_asc observed).
Qed.

Lemma sorted_perm_unique (a : list R) : forall b,
  Sorted Rle a -> Sorted Rle b -> Permutation a b -> a = b.
Proof.
  induction a as [| x a IH]; intros b Ha Hb Hp.
  - apply Permutation_nil in Hp. now subst.
  - destruct b as [| y b].
    { apply Permutation_sym, Permutation_nil in Hp. discriminate. }
    assert (Htr : Relations_1.Transitive Rle) by (intros u v w; apply Rle_trans).
    pose proof (Sorted_StronglySorted Htr Ha) as Sa.
    pose proof (Sorted_StronglySorted Htr Hb) as Sb.
    inversion Sa as [| ? ? Sa' Fa]; subst. inversion Sb as [| ? ? Sb' Fb]; subst.
    assert (Hxy : x = y).
    { assert (y <= x).
      { assert (Hin : In x (y :: b)) by (eapply Permutation_in; [exact Hp | now left]).
        destruct Hin as [-> | Hin]; [lra |].
        rewrite Forall_forall in Fb. now apply Fb. }
      assert (x <= y).
      { assert (Hin : In y (x :: a))
          by (eapply Permutation_in; [apply Permutation_sym, Hp | now left]).
        destruct Hin as [-> | Hin]; [lra |].
        rewrite Forall_forall in Fa. now apply Fa. }
      lra. }
    subst y. f_equal. apply IH.
    + now inversion Ha.
    + now inversion Hb.
    + now apply Permutation_cons_inv in Hp.
Qed.

(** The statistic is determined by the observations. *)
Lemma is_median_or_unique observed default r1 r2 :
  is_median_or observed default r1 -> is_median_or observed default r2 -> r1 = r2.
Proof.
  intros (a & Pa & Sa & ->) (b & Pb & Sb & ->).
  assert (a = b); [| now subst].
  apply sorted_perm_unique; try assumption.
  eapply perm_trans; [exact Pa | now apply Permutation_sym].
Qed.

Lemma median_10_20_30 : median [Fin 10; Fin 20; Fin 30] = Some (Fin 20).
Proof.
  unfold median. simpl finite_values. simpl sort_asc. rdec.
  simpl insert_asc. rdec. reflexivity.
Qed.

Lemma median_10_20 : median [Fin 10; Fin 20] = Some (Fin 15).
Proof.
  unfold median. simpl finite_values. simpl sort_asc. rdec.
  simpl. rdec. f_equal. f_equal. lra.
Qed.

Lemma median_unordered : median [Fin 30; NaN; Fin 10; PInf; Fin 20] = Some (Fin 20).
Proof.
  unfold median. simpl finite_values. simpl sort_asc. rdec.
  simpl insert_asc. rdec. simpl insert_asc. rdec. reflexivity.
Qed.

(** C9.  For every segment and each of the four scoring indicators, the
    fallback statistic is the median of the finite values observed among
    the countries of the segment: the middle element of the sorted values
    for an odd count, the average of the two middle elements for an even
    count; with no finite observation it is the literal default, 30 for
    market cap, 50 for credit, 8000 for GDP per capita and 55 for internet.
    The median of 10, 20, 30 is 20, that of 10, 20 is 15, and the empty
    array has none. *)
Theorem segment_fallback_is_median :
  (forall (countries : list Country.t) (ind : Indicators) (s : Segment),
     is_median_or (seg_observations (mcapPct ind) s countries) 30
       (Med.mcap (segMedian countries ind s))
     /\ is_median_or (seg_observations (creditPct ind) s countries) 50
          (Med.credit (segMedian countries ind s))
     /\ is_median_or (seg_observations (gdpPc ind) s countries) 8000
          (Med.gdppc (segMedian countries ind s))
     /\ is_median_or (seg_observations (netPct ind) s countries) 55
          (Med.net (segMedian countries ind s)))
  /\ median [Fin 10; Fin 20; Fin 30] = Some (Fin 20)
  /\ median [Fin 10; Fin 20] = Some (Fin 15)
  /\ median [] = None.
Proof.
  split; [| repeat split].
  - intros countries ind s.
    destruct (segMedian_spec countries ind s) as (H1 & H2 & H3 & H4).
    rewrite H1, H2, H3, H4.
    repeat split; apply fallback_statistic_is_median.
  - apply median_10_20_30.
  - apply median_10_20.
Qed.

(** ** The latest-value reduction *)

Lemma map_get_set {V} (m : jsmap V) k v k' :
  map_get (map_set m k v) k' = if String.eqb k k' then Some v else map_get m k'.
Proof.
  induction m as [| [k0 v0] m IH]; simpl.
  - reflexivity.
  - destruct (String.eqb k0 k) eqn:E0; simpl.
    + apply String.eqb_eq in E0; subst k0.
      now destruct (String.eqb k k').
    + rewrite IH. destruct (String.eqb k0 k') eqn:E1; [| reflexivity].
      apply String.eqb_eq in E1; subst k0.
      now rewrite String.eqb_sym, E0.
Qed.

Lemma latest_step_get best it k :
  map_get (latest_step best it) k
  = if row_is_for k it then keep_or_replace (map_get best k) (entry_of it)
    else map_get best k.
Proof.
  unfold latest_step, row_is_for, qualifies, entry_of.
  destruct (Datum.countryiso3code it) as [iso3 |]; [| reflexivity].
  simpl str_is.
  destruct (String.eqb iso3 "") eqn:E1; simpl; [reflexivity |].
  destruct (isFiniteNum (Number (Datum.date it))) eqn:E2; simpl; [| reflexivity].
  destruct (is_nullish (Datum.value it)) eqn:E3; simpl; [reflexivity |].
  destruct (String.eqb iso3 k) eqn:Ek.
  - apply String.eqb_eq in Ek; subst k.
    destruct (map_get best iso3) as [prev |] eqn:Eg; simpl.
    + destruct (jgt _ _); [| now rewrite Eg].
      rewrite map_get_set. now rewrite String.eqb_refl.
    + rewrite map_get_set. now rewrite String.eqb_refl.
  - destruct (map_get best iso3) as [prev |]; [destruct (jgt _ _) |];
      try reflexivity; rewrite map_get_set; now rewrite Ek.
Qed.

Lemma latest_fold_get k rows : forall best,
  map_get (fold_left latest_step rows best) k
  = fold_left keep_or_replace (observations k rows) (map_get best k).
Proof.
  unfold observations.
  induction rows as [| it rows IH]; intros best; simpl.
  - reflexivity.
  - rewrite IH, latest_step_get.
    now destruct (row_is_for k it).
Qed.

Lemma observations_finite_year iso3 rows o :
  In o (observations iso3 rows) -> isFiniteNum (Latest.year o) = true.
Proof.
  unfold observations. rewrite in_map_iff. intros [it [<- Hin]].
  apply filter_In in Hin as [_ Hq]. unfold row_is_for, qualifies in Hq.
  destruct (Datum.countryiso3code it); [| discriminate].
  simpl. apply andb_prop in Hq as [Hq _].
  apply andb_prop in Hq as [Hq _]. now apply andb_prop in Hq as [_ Hq].
Qed.

Lemma not_jgt_jle a b :
  isFiniteNum a = true -> isFiniteNum b = true -> jgt a b = false -> jle a b = true.
Proof.
  destruct a, b; try discriminate. intros _ _. unfold jgt, jlt, jle.
  rewrite Rltb_false, Rleb_true. tauto.
Qed.

Lemma jlt_jle a b : jlt a b = true -> jle a b = true.
Proof.
  destruct a, b; simpl; try congruence.
  rewrite Rltb_true, Rleb_true. lra.
Qed.

Lemma jle_jlt_trans a b c : jle a b = true -> jlt b c = true -> jlt a c = true.
Proof.
  destruct a, b, c; simpl; try congruence.
  rewrite Rleb_true, !Rltb_true. lra.
Qed.

Lemma jle_refl_finite a : isFiniteNum a = true -> jle a a = true.
Proof. destruct a; try discriminate. intros _. apply Rleb_true. lra. Qed.

(** Folding [keep_or_replace] from the empty state selects the first entry
    of greatest year. *)
Lemma keep_or_replace_fold obs :
  (forall o, In o obs -> isFiniteNum (Latest.year o) = true) ->
  match fold_left keep_or_replace obs None with
  | None => obs = []
  | Some e => first_of_max_year obs e
  end.
Proof.
  induction obs as [| x obs IH] using rev_ind; intros Hfin.
  - reflexivity.
  - rewrite fold_left_app. simpl.
    assert (Hfin' : forall o, In o obs -> isFiniteNum (Latest.year o) = true).
    { intros o Ho. apply Hfin, in_or_app. now left. }
    assert (Hx : isFiniteNum (Latest.year x) = true).
    { apply Hfin, in_or_app. right. now left. }
    specialize (IH Hfin').
    destruct (fold_left keep_or_replace obs None) as [e |]; simpl.
    + destruct IH as (pre & post & -> & Hpre & Hpost).
      assert (He : isFiniteNum (Latest.year e) = true).
      { apply Hfin'. apply in_or_app. right. now left. }
      destruct (jgt (Latest.year x) (Latest.year e)) eqn:E.
      * exists (pre ++ e :: post), []. split; [reflexivity |].
        split; [| intros o []].
        intros o Ho. apply in_app_or in Ho as [Ho | [<- | Ho]].
        -- eapply jle_jlt_trans; [apply jlt_jle, Hpre, Ho | exact E].
        -- exact E.
        -- eapply jle_jlt_trans; [apply Hpost, Ho | exact E].
      * exists pre, (post ++ [x]). split; [now rewrite <- app_assoc |].
        split; [exact Hpre |].
        intros o Ho. apply in_app_or in Ho as [Ho | [<- | []]].
        -- now apply Hpost.
        -- now apply not_jgt_jle.
    + subst obs. exists [], []. repeat split; intros o [].
Qed.

Lemma latestRows_first_of_max rows iso3 :
  match map_get (latestRows rows) iso3 with
  | None => observations iso3 rows = []
  | Some e => first_of_max_year (observations iso3 rows) e
  end.
Proof.
  unfold latestRows. rewrite latest_fold_get. simpl map_get.
  apply keep_or_replace_fold.
  intros o. apply observations_finite_year.
Qed.

(** C10.  When a country has several qualifying observations of the
    greatest year, the reduction keeps the first of them in input order:
    every earlier observation of the country has a strictly smaller year
    and no later one has a greater year; an observation replaces the
    stored one only when its year is strictly greater.  A country without
    qualifying observation has no entry. *)
Theorem latestByIso3_keeps_first_of_max_year :
  (forall (wbJson : WbJson) (iso3 : string),
     match map_get (latestByIso3 wbJson) iso3 with
     | None => observations iso3 (wb_rows wbJson) = []
     | Some e => first_of_max_year (observations iso3 (wb_rows wbJson)) e
     end)
  /\ (forall (best : jsmap Latest.t) (it : Datum.t) (iso3 : string),
        map_get (latest_step best it) iso3
        = if row_is_for iso3 it
          then match map_get best iso3 with
               | None => Some (entry_of it)
               | Some prev =>
                   if jlt (Latest.year prev) (Number (Datum.date it))
                   then Some (entry_of it) else Some prev
               end
          else map_get best iso3)
  /\ map_get
       (latestByIso3
          (WbArray
             [ [];
               [ Datum.mk (Some "USA") (JStr "2019") (JNum (Fin 3));
                 Datum.mk (Some "USA") (JStr "2020") (JNum (Fin 1));
                 Datum.mk (Some "USA") (JStr "2020") (JNum (Fin 2)) ] ]))
       "USA"
     = Some (Latest.mk (Fin 2020) (Fin 1)).
Proof.
  split; [| split].
  - intros wbJson iso3. apply latestRows_first_of_max.
  - intros best it iso3. rewrite latest_step_get.
    destruct (row_is_for iso3 it); [| reflexivity].
    now destruct (map_get best iso3).
  - unfold latestByIso3, latestRows, wb_rows, fold_left, latest_step.
    cbn [Datum.countryiso3code Datum.date Datum.value String.eqb Ascii.eqb
         Bool.eqb orb negb is_nullish].
    replace (Number (JStr "2019")) with (Fin 2019) by reflexivity.
    replace (Number (JStr "2020")) with (Fin 2020) by reflexivity.
    cbn [isFiniteNum negb orb map_get map_set String.eqb Ascii.eqb Bool.eqb
         Latest.year Number jgt jlt].
    rdec.
    cbn [isFiniteNum negb orb map_get map_set String.eqb Ascii.eqb Bool.eqb
         Latest.year Number jgt jlt].
    rdec. reflexivity.
Qed.

Lemma first_of_max_at_max obs e :
  (forall o, In o obs -> isFiniteNum (Latest.year o) = true) ->
  first_of_max_year obs e -> at_max_year obs e.
Proof.
  intros Hfin (pre & post & -> & Hpre & Hpost). split.
  - apply in_or_app. right. now left.
  - intros o Ho. apply in_app_or in Ho as [Ho | [<- | Ho]].
    + now apply jlt_jle, Hpre.
    + apply jle_refl_finite, Hfin, in_or_app. right. now left.
    + now apply Hpost.
Qed.

(** A feed row whose value is a word: the code keeps it, as NaN. *)
Lemma latest_keeps_non_numeric_value :
  ~ latest_as_claimed [Datum.mk (Some "USA") (JStr "2020") (JStr "n/a")] "USA".
Proof.
  unfold latest_as_claimed.
  replace (map_get (latestRows [Datum.mk (Some "USA") (JStr "2020") (JStr "n/a")]) "USA")
    with (Some (Latest.mk (Fin 2020) NaN)) by reflexivity.
  intros [Hin _]. exact Hin.
Qed.

(** Values that are not numbers are coerced, not dropped: a word becomes
    NaN, the empty string and [false] become 0. *)
Lemma latest_coerces_values :
  map_get (latestRows [Datum.mk (Some "USA") (JStr "2020") (JStr "n/a")]) "USA"
    = Some (Latest.mk (Fin 2020) NaN)
  /\ map_get (latestRows [Datum.mk (Some "USA") (JStr "2020") (JStr "")]) "USA"
    = Some (Latest.mk (Fin 2020) (Fin 0))
  /\ map_get (latestRows [Datum.mk (Some "USA") (JStr "2020") (JBool false)]) "USA"
    = Some (Latest.mk (Fin 2020) (Fin 0))
  /\ map_get (latestRows [Datum.mk (Some "USA") (JStr "2020") JNull]) "USA" = None
  /\ map_get (latestRows [Datum.mk (Some "USA") (JStr "2020") JUndefined]) "USA" = None
  /\ map_get (latestRows [Datum.mk (Some "USA") (JStr "soon") (JNum (Fin 1))]) "USA" = None
  /\ map_get (latestRows [Datum.mk None (JStr "2020") (JNum (Fin 1))]) "USA" = None.
Proof. repeat split; reflexivity. Qed.

(** What the reduction does.  For every feed and every country code it
    returns an observation of the greatest year among the qualifying
    observations of the country, and no entry when there is none.  A row
    qualifies when its country code is present and not empty, [Number] of
    its date is finite, and its value is neither [null] nor missing; the
    stored value is [Number] of the row's value, whatever the value is. *)
Lemma latestByIso3_latest_qualifying :
  (forall (wbJson : WbJson) (iso3 : string),
     match map_get (latestByIso3 wbJson) iso3 with
     | None => observations iso3 (wb_rows wbJson) = []
     | Some e => at_max_year (observations iso3 (wb_rows wbJson)) e
     end)
  /\ (forall (rows : list Datum.t) (iso3 : string) (o : Latest.t),
        In o (observations iso3 rows) <->
        exists it, In it rows
          /\ Datum.countryiso3code it = Some iso3 /\ iso3 <> ""%string
          /\ isFiniteNum (Number (Datum.date it)) = true
          /\ Datum.value it <> JNull /\ Datum.value it <> JUndefined
          /\ o = Latest.mk (Number (Datum.date it)) (Number (Datum.value it))).
Proof.
  split.
  - intros wbJson iso3. unfold latestByIso3.
    pose proof (latestRows_first_of_max (wb_rows wbJson) iso3) as H.
    destruct (map_get (latestRows (wb_rows wbJson)) iso3) as [e |]; [| exact H].
    apply first_of_max_at_max; [| exact H].
    intros o. apply observations_finite_year.
  - intros rows iso3 o. unfold observations. rewrite in_map_iff.
    split.
    + intros (it & <- & Hin). apply filter_In in Hin as [Hin Hq].
      exists it. split; [exact Hin |].
      unfold row_is_for, qualifies, str_is in Hq.
      destruct (Datum.countryiso3code it) as [k |]; [| discriminate].
      apply andb_prop in Hq as [Hq Hk]. apply String.eqb_eq in Hk; subst k.
      apply andb_prop in Hq as [Hq Hv]. apply andb_prop in Hq as [Hne Hy].
      apply negb_true_iff in Hne, Hv. apply String.eqb_neq in Hne.
      repeat split; try assumption.
      * intros E; rewrite E in Hv; discriminate.
      * intros E; rewrite E in Hv; discriminate.
    + intros (it & Hin & Hk & Hne & Hy & Hv1 & Hv2 & ->).
      exists it. split; [reflexivity |]. apply filter_In. split; [exact Hin |].
      unfold row_is_for, qualifies, str_is. rewrite Hk, Hy.
      apply String.eqb_neq in Hne. rewrite Hne, String.eqb_refl.
      destruct (Datum.value it); simpl; congruence.
Qed.

(** C4, at a failing input.  The date of a row is tested after coercion
    ([Number.isFinite(year)]), its value only against [null]: a value
    that is a word passes the guard and is stored as [Number] of it, NaN,
    where the claim leaves the row out; the empty string and [false] are
    stored as the zero the claim rules out.  Such a row also takes the
    place of an earlier numeric observation of the country.  A [null]
    value and a date that is not a number are left out, as claimed. *)
Theorem latestByIso3_keeps_non_numeric_value :
  map_get (latestByIso3 (feed [obs "USA" "2020" (JStr "n/a")])) "USA"
    = Some (Latest.mk (Fin 2020) NaN)
  /\ map_get (latestByIso3 (feed [obs "USA" "2020" (JStr EmptyString)])) "USA"
    = Some (Latest.mk (Fin 2020) (Fin 0))
  /\ map_get (latestByIso3 (feed [obs "USA" "2020" (JBool false)])) "USA"
    = Some (Latest.mk (Fin 2020) (Fin 0))
  /\ map_get (latestByIso3 (feed [ obs "USA" "2019" (JNum (Fin 7));
                                   obs "USA" "2020" (JStr "n/a") ])) "USA"
    = Some (Latest.mk (Fin 2020) NaN)
  /\ map_get (latestByIso3 (feed [obs "USA" "2020" JNull])) "USA" = None
  /\ map_get (latestByIso3 (feed [obs "USA" "soon" (JNum (Fin 1))])) "USA" = None.
Proof.
  split; [reflexivity |]. split; [reflexivity |]. split; [reflexivity |].
  split; [| split; reflexivity].
  unfold latestByIso3, latestRows, wb_rows, feed, obs, fold_left, latest_step.
  cbn [Datum.countryiso3code Datum.date Datum.value String.eqb Ascii.eqb
       Bool.eqb orb negb is_nullish].
  replace (Number (JStr "2019")) with (Fin 2019) by reflexivity.
  replace (Number (JStr "2020")) with (Fin 2020) by reflexivity.
  cbn [isFiniteNum negb orb map_get map_set String.eqb Ascii.eqb Bool.eqb
       Latest.year Number jgt jlt].
  rdec.
  cbn [isFiniteNum negb orb map_get map_set String.eqb Ascii.eqb Bool.eqb
       Latest.year Number jgt jlt].
  replace (Number (JStr "n/a")) with NaN by reflexivity.
  reflexivity.
Qed.

(** ** The score formula *)

Lemma Math_min_Fin a b : Math_min (Fin a) (Fin b) = Fin (Rmin a b).
Proof.
  unfold Math_min, jle, Rmin, Rleb. now destruct (Rle_dec a b).
Qed.

Lemma Math_max_Fin a b : Math_max (Fin a) (Fin b) = Fin (Rmax a b).
Proof.
  unfold Math_max, jle, Rmax, Rleb. now destruct (Rle_dec a b).
Qed.

Lemma clamp_spec v lo hi :
  lo <= hi ->
  clamp v (Fin lo) (Fin hi)
  = match clamp_real v lo hi with Some c => Fin c | None => NaN end.
Proof.
  intros Hle. unfold clamp. destruct v as [x | | |]; simpl clamp_real.
  - now rewrite Math_min_Fin, Math_max_Fin.
  - cbn [Math_min jle]. rewrite Math_max_Fin.
    f_equal. now apply Rmax_right.
  - cbn [Math_min Math_max jle]. reflexivity.
  - reflexivity.
Qed.

Lemma clamp_real_bounds v lo hi c :
  lo <= hi -> clamp_real v lo hi = Some c -> lo <= c <= hi.
Proof.
  intros Hle. destruct v as [x | | |]; simpl; intros E; inversion E; subst;
    try lra.
  split; [apply Rmax_l |].
  apply Rmax_lub; [exact Hle | apply Rmin_l].
Qed.

Lemma Math_pow_pos x y :
  0 < x -> y <> 0 -> Math_pow (Fin x) (Fin y) = Fin (Rpower x y).
Proof.
  intros Hx Hy. unfold Math_pow.
  apply Reqb_false in Hy. rewrite Hy.
  replace (Reqb x 0) with false by (symmetry; apply Reqb_false; lra).
  replace (Rltb 0 x) with true by (symmetry; now apply Rltb_true).
  reflexivity.
Qed.

Lemma Rpower_pos x y : 0 < Rpower x y.
Proof. unfold Rpower. apply exp_pos. Qed.

(** One factor of the score: an offset plus a clamped indicator over a
    scale, raised to a power. *)
Lemma factor_spec v k hi d e :
  0 < k -> 0 <= hi -> 0 < d -> e <> 0 ->
  Math_pow (jadd (Fin k) (jdiv (clamp v (Fin 0) (Fin hi)) (Fin d))) (Fin e)
  = match clamp_real v 0 hi with
    | Some c => Fin (Rpower (k + c / d) e)
    | None => NaN
    end.
Proof.
  intros Hk Hhi Hd He. rewrite clamp_spec by assumption.
  destruct (clamp_real v 0 hi) as [c |] eqn:E.
  - apply clamp_real_bounds in E; [| assumption].
    unfold jdiv.
    replace (Reqb d 0) with false by (symmetry; apply Reqb_false; lra).
    simpl jadd. apply Math_pow_pos; [| assumption].
    assert (0 <= c / d); [| lra].
    apply Rmult_le_pos; [lra |]. left. now apply Rinv_0_lt_compat.
  - simpl. unfold Math_pow. apply Reqb_false in He. now rewrite He.
Qed.

Lemma hub_value iso3 :
  nullish (map_get HUB_MULT iso3) (Fin 1.0) = Fin (hub_multiplier iso3)
  /\ 0 < hub_multiplier iso3.
Proof.
  unfold hub_multiplier, HUB_MULT. cbn [map_get].
  repeat match goal with
  | |- context [String.eqb ?a iso3] => destruct (String.eqb a iso3)
  end; cbn [nullish]; (split; [try reflexivity; f_equal; lra | lra]).
Qed.

Lemma score_of_spec ind med iso3 g :
  value_of (gdp ind) iso3 = Some (Fin g) -> 0 < g ->
  score_of ind med iso3
  = claimed_score g (resolved_mcap ind med iso3) (resolved_credit ind med iso3)
      (resolved_gdppc ind med iso3) (resolved_net ind med iso3) iso3.
Proof.
  intros Hg Hpos. unfold score_of. rewrite Hg.
  cbn [Number_isFinite isFiniteNum negb orb nullish jle].
  replace (Rleb g 0) with false by (symmetry; apply Rleb_false; lra).
  cbv zeta.
  rewrite (factor_spec _ 1 400 100 0.9) by lra.
  rewrite (factor_spec _ 1 300 100 0.6) by lra.
  rewrite (factor_spec _ 1 80000 50000 0.35) by lra.
  rewrite (factor_spec _ 0.2 100 100 0.25) by lra.
  rewrite (Math_pow_pos g 0.7) by lra.
  destruct (hub_value iso3) as [-> _].
  unfold claimed_score, office_multiplier, near_zero_multiplier,
    OFFICE_MULT, NEAR_ZERO_MULT.
  destruct (clamp_real (resolved_mcap ind med iso3) 0 400) as [m |];
  destruct (clamp_real (resolved_credit ind med iso3) 0 300) as [c |];
  destruct (clamp_real (resolved_gdppc ind med iso3) 0 80000) as [w |];
  destruct (clamp_real (resolved_net ind med iso3) 0 100) as [n |];
  destruct (set_has OFFICE_COUNTRIES iso3);
  destruct (set_has NEAR_ZERO iso3);
  cbn [jmul]; try reflexivity; f_equal; unfold composite; ring.
Qed.

(** What the scoring loop leaves in the table of a segment. *)
Lemma scores_fold_get ind M s k cs : forall sc0,
  map_get (fold_left (scores_step ind M) cs sc0 s) k
  = if existsb (fun c => in_segment s c && String.eqb (Country.iso3 c) k) cs
    then Some (score_of ind (M s) k)
    else map_get (sc0 s) k.
Proof.
  induction cs as [| c cs IH]; intros sc0; simpl.
  - reflexivity.
  - rewrite IH. unfold scores_step, in_segment.
    destruct (existsb _ cs) eqn:Ecs.
    + now rewrite orb_true_r.
    + rewrite orb_false_r.
      destruct (Country.seg c) as [s' |]; [| reflexivity].
      unfold upd. rewrite (Segment_eqb_sym s' s).
      destruct (Segment_eqb s s') eqn:E; simpl; [| reflexivity].
      apply Segment_eqb_eq in E; subst s'. rewrite map_get_set.
      destruct (String.eqb (Country.iso3 c) k) eqn:Ek; [| reflexivity].
      apply String.eqb_eq in Ek. now rewrite Ek.
Qed.

Lemma scores_get countries ind c s :
  In c countries -> Country.seg c = Some s ->
  map_get (scores countries ind s) (Country.iso3 c)
  = Some (score_of ind (segMedian countries ind s) (Country.iso3 c)).
Proof.
  intros Hin Hseg. unfold scores. rewrite scores_fold_get.
  replace (existsb _ countries) with true; [reflexivity |].
  symmetry. apply existsb_exists. exists c. split; [exact Hin |].
  apply andb_true_intro. split.
  - now apply in_segment_true.
  - apply String.eqb_refl.
Qed.

(** C5.  For a country of the list with a segment and a finite GDP
    [g > 0], the score stored for it is
    g^0.70 * (1 + clamp(mcap,0,400)/100)^0.90
    * (1 + clamp(credit,0,300)/100)^0.60
    * (1 + clamp(gdppc,0,80000)/50000)^0.35
    * (0.2 + clamp(net,0,100)/100)^0.25
    on the resolved indicators, times the hub multiplier of the table (1
    when absent), times 1.15 for an office country, times 0.01 for a
    near-zero country. *)
Theorem stored_score_formula (countries : list Country.t) (ind : Indicators)
    (c : Country.t) (s : Segment) (g : R) :
  In c countries ->
  Country.seg c = Some s ->
  value_of (gdp ind) (Country.iso3 c) = Some (Fin g) ->
  0 < g ->
  let med := segMedian countries ind s in
  let iso3 := Country.iso3 c in
  map_get (scores countries ind s) iso3
  = Some (claimed_score g
            (resolved_mcap ind med iso3) (resolved_credit ind med iso3)
            (resolved_gdppc ind med iso3) (resolved_net ind med iso3) iso3).
Proof.
  intros Hin Hseg Hg Hpos med iso3.
  unfold iso3. rewrite (scores_get countries ind c s Hin Hseg).
  f_equal. now apply score_of_spec.
Qed.

Lemma stored_score_formula_witness :
  let med := segMedian sample_countries sample_indicators AMERICAS in
  map_get (scores sample_countries sample_indicators AMERICAS) "USA"
  = Some (claimed_score 1000
            (resolved_mcap sample_indicators med "USA")
            (resolved_credit sample_indicators med "USA")
            (resolved_gdppc sample_indicators med "USA")
            (resolved_net sample_indicators med "USA") "USA").
Proof.
  apply (stored_score_formula sample_countries sample_indicators
           (Country.mk "USA" (Some "US") "United States" (Some "Americas")
              (Some "Northern America") (Some AMERICAS))
           AMERICAS 1000).
  - simpl. auto.
  - reflexivity.
  - reflexivity.
  - lra.
Defined.

(** ** Scores are positive unless an indicator is NaN *)

Lemma fallback_statistic_finite obs d : exists x, fallback_statistic obs d = Fin x.
Proof.
  unfold fallback_statistic. destruct (sort_asc obs); eauto.
Qed.

Lemma segMedian_finite countries ind s :
  exists m c w n, segMedian countries ind s = Med.mk (Fin m) (Fin c) (Fin w) (Fin n).
Proof.
  destruct (segMedian_spec countries ind s) as (H1 & H2 & H3 & H4).
  destruct (fallback_statistic_finite (seg_observations (mcapPct ind) s countries) 30) as [m Hm].
  destruct (fallback_statistic_finite (seg_observations (creditPct ind) s countries) 50) as [c Hc].
  destruct (fallback_statistic_finite (seg_observations (gdpPc ind) s countries) 8000) as [w Hw].
  destruct (fallback_statistic_finite (seg_observations (netPct ind) s countries) 55) as [n Hn].
  exists m, c, w, n.
  destruct (segMedian countries ind s) as [a b e f]; simpl in *. congruence.
Qed.

Lemma clamp_real_defined v lo hi :
  v <> NaN -> exists c, clamp_real v lo hi = Some c.
Proof. destruct v; simpl; eauto. congruence. Qed.

Lemma resolved_not_nan (direct : option num) (m : R) :
  direct <> Some NaN -> nullish direct (Fin m) <> NaN.
Proof. destruct direct as [[x | | |] |]; simpl; congruence. Qed.

Lemma gdp_cases ind iso3 :
  gdp_unusable ind iso3
  \/ exists g, value_of (gdp ind) iso3 = Some (Fin g) /\ 0 < g.
Proof.
  unfold gdp_unusable. destruct (value_of (gdp ind) iso3) as [[g | | |] |]; auto.
  destruct (Rle_dec g 0); [now left |].
  right. exists g. split; [reflexivity | lra].
Qed.

Lemma score_of_unusable ind med iso3 :
  gdp_unusable ind iso3 -> score_of ind med iso3 = Fin 1e-9.
Proof.
  unfold gdp_unusable, score_of.
  destruct (value_of (gdp ind) iso3) as [[g | | |] |]; try reflexivity.
  intros Hg. cbn [Number_isFinite isFiniteNum negb orb nullish jle].
  apply Rleb_true in Hg. now rewrite Hg.
Qed.

Lemma claimed_score_positive g mp cp gp np iso3 :
  mp <> NaN -> cp <> NaN -> gp <> NaN -> np <> NaN ->
  exists x, claimed_score g mp cp gp np iso3 = Fin x /\ 0 < x.
Proof.
  intros Hm Hc Hw Hn. unfold claimed_score.
  destruct (clamp_real_defined mp 0 400 Hm) as [m ->].
  destruct (clamp_real_defined cp 0 300 Hc) as [c ->].
  destruct (clamp_real_defined gp 0 80000 Hw) as [w ->].
  destruct (clamp_real_defined np 0 100 Hn) as [n ->].
  eexists. split; [reflexivity |].
  assert (0 < composite g m c w n).
  { unfold composite. repeat apply Rmult_lt_0_compat; apply Rpower_pos. }
  assert (0 < office_multiplier iso3)
    by (unfold office_multiplier; destruct (set_has _ _); lra).
  assert (0 < near_zero_multiplier iso3)
    by (unfold near_zero_multiplier; destruct (set_has _ _); lra).
  destruct (hub_value iso3) as [_ Hh].
  apply Rmult_lt_0_compat; [| assumption].
  apply Rmult_lt_0_compat; [| assumption].
  apply Rmult_lt_0_compat; assumption.
Qed.

Lemma score_of_positive countries ind s iso3 :
  no_nan_indicator ind iso3 ->
  exists x, score_of ind (segMedian countries ind s) iso3 = Fin x /\ 0 < x.
Proof.
  intros (Hm & Hc & Hw & Hn).
  destruct (gdp_cases ind iso3) as [Hg | (g & Hg & Hpos)].
  - rewrite score_of_unusable by assumption. exists 1e-9. split; [reflexivity | lra].
  - rewrite (score_of_spec _ _ _ g Hg Hpos).
    destruct (segMedian_finite countries ind s) as (m & c & w & n & ->).
    apply claimed_score_positive; unfold resolved_mcap, resolved_credit,
      resolved_gdppc, resolved_net; simpl; now apply resolved_not_nan.
Qed.

(** ** Sums *)

Lemma fold_jadd_Fin xs : forall a,
  fold_left jadd (List.map Fin xs) (Fin a) = Fin (a + Rsum xs).
Proof.
  induction xs as [| x xs IH]; intros a; simpl.
  - f_equal; lra.
  - rewrite IH. f_equal; lra.
Qed.

Lemma Rsum_pos xs :
  xs <> [] -> Forall (fun x => 0 < x) xs -> 0 < Rsum xs.
Proof.
  intros Hne Hall. destruct xs as [| x xs]; [congruence |].
  inversion Hall as [| ? ? Hx Hxs]; subst. simpl.
  assert (0 <= Rsum xs); [| lra].
  clear -Hxs. induction Hxs; simpl; lra.
Qed.

Lemma Rsum_scaled t S xs :
  Rsum (List.map (fun x => t * (x / S)) xs) = t * (Rsum xs / S).
Proof.
  induction xs as [| x xs IH]; simpl.
  - unfold Rdiv. ring.
  - rewrite IH. unfold Rdiv. ring.
Qed.

(** Every value of a list of numbers is a positive real. *)
Lemma positive_reals (A : Type) (f : A -> num) (l : list A) :
  (forall a, In a l -> exists x, f a = Fin x /\ 0 < x) ->
  exists xs, List.map f l = List.map Fin xs /\ Forall (fun x => 0 < x) xs.
Proof.
  induction l as [| a l IH]; intros H.
  - exists []. split; constructor.
  - destruct (H a (or_introl eq_refl)) as (x & Hx & Hpos).
    destruct IH as (xs & Hxs & Hall).
    { intros b Hb. apply H. now right. }
    exists (x :: xs). simpl. rewrite Hx, Hxs. split; [reflexivity |].
    now constructor.
Qed.

(** ** Allocation rows *)

Lemma anchor_value s : SEGMENT_REVENUE_USD_M s = Fin (anchor s) /\ 0 < anchor s.
Proof.
  destruct s; unfold SEGMENT_REVENUE_USD_M, anchor, jdiv;
    (replace (Reqb 1000 0) with false by (symmetry; apply Reqb_false; lra));
    (split; [reflexivity | lra]).
Qed.

Lemma map_set_In {V} (m : jsmap V) k v kv :
  In kv (map_set m k v) -> In kv m \/ kv = (k, v).
Proof.
  induction m as [| [k0 v0] m IH]; simpl.
  - intros [<- | []]. now right.
  - destruct (String.eqb k0 k) eqn:E; simpl.
    + apply String.eqb_eq in E; subst k0. intros [<- | H]; auto.
    + intros [<- | H]; auto. destruct (IH H); auto.
Qed.

Lemma scores_fold_entries ind M s cs : forall sc0 kv,
  In kv (fold_left (scores_step ind M) cs sc0 s) ->
  In kv (sc0 s)
  \/ exists c, In c cs /\ Country.seg c = Some s
               /\ kv = (Country.iso3 c, score_of ind (M s) (Country.iso3 c)).
Proof.
  induction cs as [| c cs IH]; intros sc0 kv; simpl.
  - auto.
  - intros H. apply IH in H as [H | (c' & Hin & Hseg & ->)].
    + unfold scores_step in H.
      destruct (Country.seg c) as [s' |] eqn:Hs; [| now left].
      unfold upd in H. destruct (Segment_eqb s s') eqn:E; [| now left].
      apply Segment_eqb_eq in E; subst s'.
      apply map_set_In in H as [H | ->]; [now left |].
      right. exists c. auto.
    + right. exists c'. auto.
Qed.

Section Segment_without_NaN.
Variables (countries : list Country.t) (ind : Indicators) (s : Segment).
Hypothesis no_nan :
  forall c, In c countries -> Country.seg c = Some s ->
            no_nan_indicator ind (Country.iso3 c).

Lemma score_sum_positive :
  (exists c, In c countries /\ Country.seg c = Some s) ->
  exists S, score_sum (scores countries ind s) = Fin S /\ 0 < S.
Proof.
  intros (c0 & Hin0 & Hseg0).
  destruct (positive_reals _ snd (scores countries ind s)) as (xs & Hxs & Hall).
  { intros [k v] Hkv. unfold scores in Hkv.
    apply scores_fold_entries in Hkv as [[] | (c & Hin & Hseg & E)].
    inversion E; subst. simpl. apply score_of_positive. now apply no_nan. }
  unfold score_sum, map_values. rewrite Hxs, fold_jadd_Fin.
  exists (0 + Rsum xs). split; [reflexivity |].
  assert (xs <> []).
  { intros ->. pose proof (scores_get countries ind c0 s Hin0 Hseg0) as Hg.
    simpl in Hxs. apply map_eq_nil in Hxs. rewrite Hxs in Hg. discriminate. }
  pose proof (Rsum_pos xs H Hall). lra.
Qed.

Lemma row_revenue c :
  In c countries -> Country.seg c = Some s ->
  exists x S,
    score_of ind (segMedian countries ind s) (Country.iso3 c) = Fin x /\ 0 < x
    /\ score_sum (scores countries ind s) = Fin S /\ 0 < S
    /\ revenue_of countries ind s c = Fin (anchor s * (x / S)).
Proof.
  intros Hin Hseg.
  destruct (score_of_positive countries ind s (Country.iso3 c)) as (x & Hx & Hxpos).
  { now apply no_nan. }
  destruct score_sum_positive as (S & HS & HSpos); [eauto |].
  exists x, S. repeat split; try assumption.
  unfold revenue_of, alloc_row. cbn [Alloc.revenueMillions].
  rewrite (scores_get countries ind c s Hin Hseg), HS, Hx.
  destruct (anchor_value s) as [-> _].
  cbn [nullish jgt jlt].
  replace (Rltb 0 S) with true by (symmetry; now apply Rltb_true).
  unfold jdiv.
  replace (Reqb S 0) with false by (symmetry; apply Reqb_false; lra).
  reflexivity.
Qed.

(** Without NaN among the indicators of a segment, a country whose GDP
    is unusable is scored 1e-9 and its row carries a positive revenue. *)
Lemma unusable_gdp_positive_allocation c :
  In c countries -> Country.seg c = Some s ->
  gdp_unusable ind (Country.iso3 c) ->
  map_get (scores countries ind s) (Country.iso3 c) = Some (Fin 1e-9)
  /\ jgt (revenue_of countries ind s c) (Fin 0) = true.
Proof.
  intros Hin Hseg Hg. split.
  - rewrite (scores_get countries ind c s Hin Hseg).
    now rewrite score_of_unusable.
  - destruct (row_revenue c Hin Hseg) as (x & S & _ & Hx & _ & HS & ->).
    destruct (anchor_value s) as [_ Ht].
    apply Rltb_true. apply Rmult_lt_0_compat; [assumption |].
    apply Rdiv_lt_0_compat; assumption.
Qed.
End Segment_without_NaN.

Lemma alloc_segment_revenues countries ind s :
  List.map Alloc.revenueMillions (alloc_segment countries (scores countries ind) s)
  = List.map (revenue_of countries ind s) (filter (in_segment s) countries).
Proof. unfold alloc_segment. now rewrite map_map. Qed.

(** ** The near-zero multiplier *)

Lemma twins_score ind med k1 k2 g :
  twins ind k1 k2 g ->
  score_of ind med k1 = jmul (score_of ind med k2) (Fin 0.01).
Proof.
  intros (G1 & G2 & Hg & Em & Ec & Ew & En & Eh & Eo & N1 & N2).
  rewrite (score_of_spec ind med k1 g G1 Hg), (score_of_spec ind med k2 g G2 Hg).
  unfold resolved_mcap, resolved_credit, resolved_gdppc, resolved_net.
  rewrite Em, Ec, Ew, En. unfold claimed_score.
  unfold hub_multiplier, office_multiplier, near_zero_multiplier.
  rewrite Eh, Eo, N1, N2.
  repeat match goal with
  | |- context [clamp_real ?v ?lo ?hi] => destruct (clamp_real v lo hi)
  end; try reflexivity.
  cbn [jmul]. f_equal. ring.
Qed.

(** Without NaN among the indicators of the segment, the near-zero twin
    is scored one hundredth of the other and receives strictly less. *)
Lemma near_zero_smaller_allocation countries ind s c1 c2 g :
  (forall c, In c countries -> Country.seg c = Some s ->
             no_nan_indicator ind (Country.iso3 c)) ->
  In c1 countries -> In c2 countries ->
  Country.seg c1 = Some s -> Country.seg c2 = Some s ->
  twins ind (Country.iso3 c1) (Country.iso3 c2) g ->
  (exists v2,
     map_get (scores countries ind s) (Country.iso3 c2) = Some v2
     /\ map_get (scores countries ind s) (Country.iso3 c1)
        = Some (jmul v2 (Fin 0.01)))
  /\ jlt (revenue_of countries ind s c1) (revenue_of countries ind s c2) = true.
Proof.
  intros Hnan In1 In2 S1 S2 Htw.
  pose proof (twins_score ind (segMedian countries ind s) _ _ g Htw) as Hsc.
  split.
  - eexists. split; [apply (scores_get countries ind c2 s In2 S2) |].
    rewrite (scores_get countries ind c1 s In1 S1). now rewrite Hsc.
  - destruct (row_revenue countries ind s Hnan c1 In1 S1)
      as (x1 & S & Hx1 & P1 & HS & PS & ->).
    destruct (row_revenue countries ind s Hnan c2 In2 S2)
      as (x2 & S' & Hx2 & P2 & HS' & _ & ->).
    rewrite HS in HS'. inversion HS'; subst S'.
    rewrite Hx1, Hx2 in Hsc. cbn [jmul] in Hsc. inversion Hsc; subst x1.
    destruct (anchor_value s) as [_ Ht].
    apply Rltb_true.
    apply Rmult_lt_compat_l; [assumption |].
    unfold Rdiv. apply Rmult_lt_compat_r; [now apply Rinv_0_lt_compat | lra].
Qed.

(** ** Tables filled under distinct keys *)

Lemma map_get_app {V} (m1 m2 : jsmap V) k :
  map_get (m1 ++ m2) k
  = match map_get m1 k with Some v => Some v | None => map_get m2 k end.
Proof.
  induction m1 as [| [k0 v0] m1 IH]; simpl; [reflexivity |].
  now destruct (String.eqb k0 k).
Qed.

Lemma map_set_fresh {V} (m : jsmap V) k v :
  map_get m k = None -> map_set m k v = m ++ [(k, v)].
Proof.
  induction m as [| [k0 v0] m IH]; simpl; [reflexivity |].
  destruct (String.eqb k0 k); [discriminate |].
  intros H. now rewrite IH.
Qed.

Lemma map_get_None_keys {V} (m : jsmap V) k :
  map_get m k = None <-> ~ In k (map_keys m).
Proof.
  induction m as [| [k0 v0] m IH]; simpl.
  - tauto.
  - destruct (String.eqb k0 k) eqn:E.
    + apply String.eqb_eq in E. split; [discriminate | tauto].
    + apply String.eqb_neq in E. rewrite IH. tauto.
Qed.

Lemma fold_map_set_nodup {A V} (key : A -> string) (val : A -> V) l :
  forall m0 : jsmap V,
  NoDup (List.map key l) ->
  (forall a, In a l -> map_get m0 (key a) = None) ->
  fold_left (fun m a => map_set m (key a) (val a)) l m0
  = m0 ++ List.map (fun a => (key a, val a)) l.
Proof.
  induction l as [| a l IH]; intros m0 Hnd Hfresh; simpl.
  - now rewrite app_nil_r.
  - inversion Hnd as [| ? ? Hnotin Hnd']; subst.
    rewrite map_set_fresh by (apply Hfresh; now left).
    rewrite IH; [now rewrite <- app_assoc | assumption |].
    intros b Hb. rewrite map_get_app, (Hfresh b) by now right.
    simpl. destruct (String.eqb (key a) (key b)) eqn:E; [| reflexivity].
    apply String.eqb_eq in E. exfalso. apply Hnotin. rewrite E.
    now apply in_map.
Qed.

Lemma NoDup_map_filter {A B} (f : A -> B) (p : A -> bool) l :
  NoDup (List.map f l) -> NoDup (List.map f (filter p l)).
Proof.
  induction l as [| a l IH]; simpl; intros H; [constructor |].
  inversion H as [| ? ? Hnotin H']; subst.
  destruct (p a); simpl; [| now apply IH].
  constructor; [| now apply IH].
  intros Hin. apply Hnotin. apply in_map_iff in Hin as (b & Hb & Hin).
  apply filter_In in Hin as [Hin _]. rewrite <- Hb. now apply in_map.
Qed.

Lemma NoDup_map_inj {A B} (f : A -> B) l a b :
  NoDup (List.map f l) -> In a l -> In b l -> f a = f b -> a = b.
Proof.
  induction l as [| x l IH]; simpl; intros Hnd Ha Hb E; [contradiction |].
  inversion Hnd as [| ? ? Hnotin Hnd']; subst.
  destruct Ha as [-> | Ha], Hb as [-> | Hb]; try reflexivity.
  - exfalso. apply Hnotin. rewrite E. now apply in_map.
  - exfalso. apply Hnotin. rewrite <- E. now apply in_map.
  - now apply IH.
Qed.

(** The scoring loop, seen from one segment, is a loop over the
    countries of that segment. *)
Lemma scores_fold_filter ind M s cs : forall sc0,
  fold_left (scores_step ind M) cs sc0 s
  = fold_left
      (fun m c => map_set m (Country.iso3 c) (score_of ind (M s) (Country.iso3 c)))
      (filter (in_segment s) cs) (sc0 s).
Proof.
  induction cs as [| c cs IH]; intros sc0; simpl; [reflexivity |].
  rewrite IH. unfold scores_step, in_segment.
  destruct (Country.seg c) as [s' |]; [| reflexivity].
  unfold upd. rewrite (Segment_eqb_sym s' s).
  destruct (Segment_eqb s s') eqn:E; [| reflexivity].
  apply Segment_eqb_eq in E; subst s'. reflexivity.
Qed.

Lemma scores_entries countries ind s :
  NoDup (List.map Country.iso3 countries) ->
  scores countries ind s
  = List.map
      (fun c => (Country.iso3 c,
                 score_of ind (segMedian countries ind s) (Country.iso3 c)))
      (filter (in_segment s) countries).
Proof.
  intros Hnd. unfold scores. rewrite scores_fold_filter.
  rewrite (fold_map_set_nodup Country.iso3
             (fun c => score_of ind (segMedian countries ind s) (Country.iso3 c))).
  - reflexivity.
  - now apply NoDup_map_filter.
  - reflexivity.
Qed.

Lemma fold_revenue rows : forall a ys,
  List.map Alloc.revenueMillions rows = List.map Fin ys ->
  fold_left (fun a b => jadd a (Alloc.revenueMillions b)) rows (Fin a)
  = Fin (a + Rsum ys).
Proof.
  induction rows as [| r rows IH]; intros a ys H; destruct ys as [| y ys];
    try discriminate; simpl.
  - f_equal; lra.
  - simpl in H. inversion H as [[Hr Hrows]].
    rewrite Hr. cbn [jadd]. rewrite (IH _ ys Hrows). f_equal; lra.
Qed.

(** Under distinct country codes and without NaN, the rows of a segment
    that has a country carry real revenues that add up to the anchor. *)
Lemma segment_revenues countries ind s :
  NoDup (List.map Country.iso3 countries) ->
  (forall c, In c countries -> Country.seg c = Some s ->
             no_nan_indicator ind (Country.iso3 c)) ->
  (exists c, In c countries /\ Country.seg c = Some s) ->
  exists ys,
    List.map Alloc.revenueMillions (alloc_segment countries (scores countries ind) s)
    = List.map Fin ys
    /\ Rsum ys = anchor s.
Proof.
  intros Hnd Hnan Hex.
  set (score := fun c => score_of ind (segMedian countries ind s) (Country.iso3 c)).
  destruct (positive_reals _ score (filter (in_segment s) countries))
    as (xs & Hxs & Hall).
  { intros c Hc. apply filter_In in Hc as [Hin Hseg].
    apply in_segment_true in Hseg. apply score_of_positive. now apply Hnan. }
  assert (Hsum : score_sum (scores countries ind s) = Fin (0 + Rsum xs)).
  { unfold score_sum, map_values. rewrite scores_entries by assumption.
    rewrite map_map. cbn [snd]. fold score. rewrite Hxs. apply fold_jadd_Fin. }
  destruct (score_sum_positive countries ind s Hnan Hex) as (S & HS & HSpos).
  rewrite HS in Hsum. inversion Hsum as [HSeq].
  exists (List.map (fun x => anchor s * (x / S)) xs). split.
  - rewrite alloc_segment_revenues. rewrite map_map.
    transitivity (List.map (fun v => jmul (Fin (anchor s)) (jdiv v (Fin S)))
                    (List.map score (filter (in_segment s) countries))).
    + rewrite map_map. apply map_ext_in. intros c Hc.
      apply filter_In in Hc as [Hin Hseg]. apply in_segment_true in Hseg.
      unfold revenue_of, alloc_row. cbn [Alloc.revenueMillions].
      rewrite (scores_get countries ind c s Hin Hseg), HS.
      destruct (anchor_value s) as [-> _]. cbn [nullish jgt jlt].
      replace (Rltb 0 S) with true by (symmetry; now apply Rltb_true).
      reflexivity.
    + rewrite Hxs, map_map. apply map_ext. intros x. unfold jdiv.
      replace (Reqb S 0) with false by (symmetry; apply Reqb_false; lra).
      reflexivity.
  - rewrite Rsum_scaled. rewrite HSeq. field. lra.
Qed.

(** ** Revenues add up to the anchors *)

(** Runs the engine on closed input: everything is computed but the
    arithmetic of the reals, whose comparisons [rdec] settles. *)
Ltac run :=
  repeat (progress
            (cbv -[IZR Rplus Rmult Rminus Ropp Rdiv Rinv Rltb Rleb Reqb Rpower
                   Rabs Int_part Z.pow_pos Rlt Rle Rgt Rge];
             rdec)).

Lemma Rsum_app l1 l2 : Rsum (l1 ++ l2) = Rsum l1 + Rsum l2.
Proof. induction l1 as [| x l1 IH]; simpl; [| rewrite IH]; lra. Qed.

Lemma allocations_segments countries ind :
  allocations countries ind
  = alloc_segment countries (scores countries ind) AMERICAS
    ++ alloc_segment countries (scores countries ind) EMEA
    ++ alloc_segment countries (scores countries ind) APAC.
Proof. unfold allocations. simpl. now rewrite <- app_assoc. Qed.

Lemma assemble_total countries iso3ToAlpha2 ind :
  totalRevenueMillions (assemble countries iso3ToAlpha2 ind)
  = sum_revenue (allocations countries ind).
Proof.
  unfold assemble.
  destruct (fold_left (intensity_step _) _ _) as [i0 mx].
  destruct (fold_left (fill_step _ _) _ _) as [i1 dm].
  reflexivity.
Qed.

(** With a country code listed twice, the segment pays its anchor
    twice. *)
Lemma repeated_code_value :
  repeated_code
  = [ Country.mk "USA" (Some "US") "United States" (Some "Americas")
        (Some "Northern America") (Some AMERICAS);
      Country.mk "USA" (Some "US") "United States of America" (Some "Americas")
        (Some "Northern America") (Some AMERICAS);
      Country.mk "FRA" (Some "FR") "France" (Some "Europe")
        (Some "Western Europe") (Some EMEA);
      Country.mk "JPN" (Some "JP") "Japan" (Some "Asia")
        (Some "Eastern Asia") (Some APAC) ].
Proof. reflexivity. Qed.

Lemma repeated_code_not_anchored :
  every_segment_populated repeated_code
  /\ ~ anchored repeated_code no_indicators.
Proof.
  rewrite repeated_code_value. split.
  - intros [];
      [ exists (Country.mk "USA" (Some "US") "United States" (Some "Americas")
                  (Some "Northern America") (Some AMERICAS))
      | exists (Country.mk "FRA" (Some "FR") "France" (Some "Europe")
                  (Some "Western Europe") (Some EMEA))
      | exists (Country.mk "JPN" (Some "JP") "Japan" (Some "Asia")
                  (Some "Eastern Asia") (Some APAC)) ];
      (split; [simpl; auto 6 | reflexivity]).
  - intros [H _]. specialize (H AMERICAS). revert H. run.
    intros H. inversion H as [E]. lra.
Qed.

(** On clean input the sums are the anchors: when the country codes of
    the list are distinct, no indicator value of a scored country is NaN
    and every segment has at least one country, the revenues of the rows
    of each segment add up to the anchor of the segment, and the revenues
    of all rows (the reported total) add up to the sum of the three
    anchors. *)
Lemma revenue_sums_to_anchors (countries : list Country.t)
    (iso3ToAlpha2 : jsmap string) (ind : Indicators) :
  NoDup (List.map Country.iso3 countries) ->
  (forall c s, In c countries -> Country.seg c = Some s ->
               no_nan_indicator ind (Country.iso3 c)) ->
  every_segment_populated countries ->
  anchored countries ind
  /\ (forall s,
        sum_revenue (alloc_segment countries (scores countries ind) s)
        = Fin (anchor s))
  /\ totalRevenueMillions (assemble countries iso3ToAlpha2 ind)
     = Fin (1506108 / 1000 + 580284 / 1000 + 235356 / 1000).
Proof.
  intros Hnd Hnan Hpop.
  assert (Hseg : forall s, exists ys,
             List.map Alloc.revenueMillions
               (alloc_segment countries (scores countries ind) s)
             = List.map Fin ys /\ Rsum ys = anchor s).
  { intros s. apply segment_revenues; [assumption | | apply Hpop].
    intros c Hin Hs. now apply (Hnan c s). }
  assert (Hone : forall s,
             sum_revenue (alloc_segment countries (scores countries ind) s)
             = Fin (anchor s)).
  { intros s. destruct (Hseg s) as (ys & Hys & Hsum).
    unfold sum_revenue. rewrite (fold_revenue _ 0 ys Hys). f_equal; lra. }
  assert (Hall : sum_revenue (allocations countries ind)
                 = Fin (anchor AMERICAS + anchor EMEA + anchor APAC)).
  { destruct (Hseg AMERICAS) as (ya & Ha & Sa).
    destruct (Hseg EMEA) as (ye & He & Se).
    destruct (Hseg APAC) as (yp & Hp & Sp).
    unfold sum_revenue. rewrite allocations_segments.
    rewrite (fold_revenue _ 0 (ya ++ ye ++ yp)).
    - rewrite !Rsum_app. f_equal; lra.
    - rewrite !map_app. now rewrite Ha, He, Hp. }
  split; [split |]; [| | split].
  - intros s. rewrite Hone. symmetry. apply anchor_value.
  - rewrite Hall.
    destruct (anchor_value AMERICAS) as [-> _].
    destruct (anchor_value EMEA) as [-> _].
    destruct (anchor_value APAC) as [-> _]. reflexivity.
  - exact Hone.
  - rewrite assemble_total, Hall. reflexivity.
Qed.

Lemma revenue_sums_to_anchors_witness :
  anchored sample_countries sample_indicators
  /\ (forall s,
        sum_revenue (alloc_segment sample_countries
                       (scores sample_countries sample_indicators) s)
        = Fin (anchor s))
  /\ totalRevenueMillions (assemble sample_countries [] sample_indicators)
     = Fin (1506108 / 1000 + 580284 / 1000 + 235356 / 1000).
Proof.
  apply (revenue_sums_to_anchors sample_countries [] sample_indicators).
  - repeat constructor; simpl; intuition discriminate.
  - intros c s Hin _. simpl in Hin.
    repeat destruct Hin as [<- | Hin]; try contradiction;
      unfold no_nan_indicator; run; repeat split; discriminate.
  - intros [];
      [ exists (Country.mk "USA" (Some "US") "United States" (Some "Americas")
                  (Some "Northern America") (Some AMERICAS))
      | exists (Country.mk "FRA" (Some "FR") "France" (Some "Europe")
                  (Some "Western Europe") (Some EMEA))
      | exists (Country.mk "JPN" (Some "JP") "Japan" (Some "Asia")
                  (Some "Eastern Asia") (Some APAC)) ];
      (split; [simpl; auto 6 | reflexivity]).
Defined.

(** The sample run: the GDP per capita of 90000 enters clamped to 80000,
    and the United States are both a hub (1.3) and an office country
    (1.15). *)
Example sample_usa_score :
  map_get (scores sample_countries sample_indicators AMERICAS) "USA"
  = Some (Fin (Rpower 1000 0.7
               * Rpower (1 + 150 / 100) 0.9
               * Rpower (1 + 200 / 100) 0.6
               * Rpower (1 + 80000 / 50000) 0.35
               * Rpower (0.2 + 95 / 100) 0.25
               * 1.3 * 1.15)).
Proof. run. reflexivity. Qed.

(** Cuba in the sample run: no reading but the GDP, so the medians of the
    segment stand in (those of the United States, the only readings), and
    the near-zero multiplier applies. *)
Example sample_cuba_score :
  map_get (scores sample_countries sample_indicators AMERICAS) "CUB"
  = Some (Fin (Rpower 1000 0.7
               * Rpower (1 + 150 / 100) 0.9
               * Rpower (1 + 200 / 100) 0.6
               * Rpower (1 + 80000 / 50000) 0.35
               * Rpower (0.2 + 95 / 100) 0.25
               * 1.0 * 0.01)).
Proof. run. reflexivity. Qed.

(** ** Non-finite indicator values *)

(** What the code does: the direct value when there is one. *)
Lemma resolution_spec ind med iso3 :
  resolved_mcap ind med iso3
    = match value_of (mcapPct ind) iso3 with Some v => v | None => Med.mcap med end
  /\ resolved_credit ind med iso3
    = match value_of (creditPct ind) iso3 with Some v => v | None => Med.credit med end
  /\ resolved_gdppc ind med iso3
    = match value_of (gdpPc ind) iso3 with Some v => v | None => Med.gdppc med end
  /\ resolved_net ind med iso3
    = match value_of (netPct ind) iso3 with Some v => v | None => Med.net med end.
Proof. repeat split. Qed.

(** Both readings agree when the direct value is finite or missing. *)
Lemma resolution_agrees direct median :
  direct = None \/ (exists x, direct = Some (Fin x)) ->
  nullish direct median = claimed_resolution direct median.
Proof. intros [-> | [x ->]]; reflexivity. Qed.

Lemma taxonomy_parsed :
  List.map (fun c => (Country.iso3 c, Country.seg c)) taxonomy
  = [ ("USA", Some AMERICAS); ("HTI", Some AMERICAS); ("CUB", Some AMERICAS);
      ("DOM", Some AMERICAS); ("FRA", Some EMEA); ("JPN", Some APAC);
      ("ATA", None) ].
Proof. reflexivity. Qed.

(** C3, at a failing input.  The United States have a finite positive
    GDP and a market-cap reading that is not finite.  The specification
    resolves the indicator to the median of the segment (40); the code
    keeps the direct value: Infinity, clamped to 400 afterwards, and NaN
    when the reading is a word, which makes the score NaN. *)
Theorem resolution_keeps_non_finite_value :
  (let ind := lookups mcap_feed_infinite in
   let med := segMedian taxonomy ind AMERICAS in
   value_of (gdp ind) "USA" = Some (Fin 1000)
   /\ value_of (mcapPct ind) "USA" = Some PInf
   /\ claimed_resolution (value_of (mcapPct ind) "USA") (Med.mcap med) = Fin 40
   /\ resolved_mcap ind med "USA" = PInf
   /\ clamp (resolved_mcap ind med "USA") (Fin 0) (Fin 400) = Fin 400)
  /\ (let ind := lookups mcap_feed_word in
      let med := segMedian taxonomy ind AMERICAS in
      value_of (mcapPct ind) "USA" = Some NaN
      /\ claimed_resolution (value_of (mcapPct ind) "USA") (Med.mcap med) = Fin 30
      /\ resolved_mcap ind med "USA" = NaN
      /\ map_get (scores taxonomy ind AMERICAS) "USA" = Some NaN).
Proof.
  split; cbv zeta; repeat split; run; reflexivity.
Qed.

(** When the scores of a segment add up to NaN, the test [sum > 0]
    fails and every row of the segment is written with share 0. *)
Lemma nan_sum_revenue countries ind s c :
  score_sum (scores countries ind s) = NaN ->
  revenue_of countries ind s c = Fin (anchor s * 0).
Proof.
  intros H. unfold revenue_of, alloc_row. cbn [Alloc.revenueMillions].
  rewrite H. destruct (anchor_value s) as [-> _]. reflexivity.
Qed.

Lemma fold_jadd_NaN l : fold_left jadd l NaN = NaN.
Proof. induction l as [| x l IH]; simpl; [reflexivity | exact IH]. Qed.

Lemma fold_jadd_with_NaN l : forall a, In NaN l -> fold_left jadd l a = NaN.
Proof.
  induction l as [| x l IH]; intros a; simpl; [intros [] |].
  intros [-> | Hin].
  - replace (jadd a NaN) with NaN by (now destruct a). apply fold_jadd_NaN.
  - now apply IH.
Qed.

Lemma map_get_In {V} (m : jsmap V) k v : map_get m k = Some v -> In v (map_values m).
Proof.
  induction m as [| [k0 v0] m IH]; simpl; [discriminate |].
  destruct (String.eqb k0 k); [intros E; inversion E; now left |].
  intros H. right. now apply IH.
Qed.

(** The effect of one NaN reading: a country of the segment with a
    usable GDP and a NaN market-cap value is scored NaN, and then every
    row of the segment is written with revenue 0. *)
Lemma nan_reading_zeroes_segment countries ind s c g :
  In c countries -> Country.seg c = Some s ->
  value_of (gdp ind) (Country.iso3 c) = Some (Fin g) -> 0 < g ->
  value_of (mcapPct ind) (Country.iso3 c) = Some NaN ->
  map_get (scores countries ind s) (Country.iso3 c) = Some NaN
  /\ forall c', revenue_of countries ind s c' = Fin (anchor s * 0).
Proof.
  intros Hin Hseg Hg Hpos Hnan.
  assert (Hsc : map_get (scores countries ind s) (Country.iso3 c) = Some NaN).
  { rewrite (scores_get countries ind c s Hin Hseg).
    rewrite (score_of_spec _ _ _ g Hg Hpos).
    unfold claimed_score, resolved_mcap. now rewrite Hnan. }
  split; [exact Hsc |].
  intros c'. apply nan_sum_revenue. unfold score_sum.
  apply fold_jadd_with_NaN. now apply (map_get_In _ (Country.iso3 c)).
Qed.

Lemma lookups_nan_word : lookups mcap_feed_nan = lookups mcap_feed_word.
Proof. reflexivity. Qed.

Lemma lookups_word_sum : score_sum (scores taxonomy (lookups mcap_feed_word) AMERICAS) = NaN.
Proof. run. reflexivity. Qed.

(** C6, at a failing input.  Haiti has no GDP and is scored 1e-9, but the
    United States, in the same segment, have a market-cap reading that
    is NaN (the number, or a word, which is stored as NaN): their score
    is NaN, so is the sum of the segment, and
    every row of the segment, Haiti's included, gets revenue 0. *)
Theorem unusable_gdp_row_is_zero_beside_NaN :
  let ind := lookups mcap_feed_word in
  lookups mcap_feed_nan = ind
  /\ gdp_unusable ind "HTI"
  /\ map_get (scores taxonomy ind AMERICAS) "HTI" = Some (Fin 1e-9)
  /\ map_get (scores taxonomy ind AMERICAS) "USA" = Some NaN
  /\ score_sum (scores taxonomy ind AMERICAS) = NaN
  /\ List.map (fun r => (Alloc.iso3 r, Alloc.revenueMillions r))
       (alloc_segment taxonomy (scores taxonomy ind) AMERICAS)
     = [ ("USA", Fin (anchor AMERICAS * 0)); ("HTI", Fin (anchor AMERICAS * 0));
         ("CUB", Fin (anchor AMERICAS * 0)); ("DOM", Fin (anchor AMERICAS * 0)) ]
  /\ jgt (Fin (anchor AMERICAS * 0)) (Fin 0) = false.
Proof.
  cbv zeta. split; [exact lookups_nan_word |].
  split; [| split; [| split; [| split; [| split]]]].
  - run. exact I.
  - run. reflexivity.
  - run. reflexivity.
  - exact lookups_word_sum.
  - unfold alloc_segment. rewrite lookups_word_sum.
    generalize (scores taxonomy (lookups mcap_feed_word) AMERICAS). intros m.
    replace taxonomy with (fst (parseCountries taxonomy_csv)) by reflexivity.
    run. reflexivity.
  - unfold anchor. run. reflexivity.
Qed.

(** C7, at a failing input.  Cuba and the Dominican Republic differ only
    by the near-zero set; Cuba's score is one hundredth of the other.
    With the NaN score of the United States in the segment both rows get
    revenue 0, so Cuba's revenue is not strictly smaller. *)
Theorem near_zero_twin_not_smaller_beside_NaN :
  let ind := lookups mcap_feed_word in
  lookups mcap_feed_nan = ind
  /\ twins ind "CUB" "DOM" 500
  /\ (exists v, map_get (scores taxonomy ind AMERICAS) "DOM" = Some (Fin v)
                /\ map_get (scores taxonomy ind AMERICAS) "CUB"
                   = Some (Fin (v * 0.01)))
  /\ (forall cub dom : Country.t,
        revenue_of taxonomy ind AMERICAS cub = Fin (anchor AMERICAS * 0)
        /\ revenue_of taxonomy ind AMERICAS dom = Fin (anchor AMERICAS * 0)
        /\ jlt (revenue_of taxonomy ind AMERICAS cub)
               (revenue_of taxonomy ind AMERICAS dom) = false).
Proof.
  cbv zeta. split; [exact lookups_nan_word |]. split; [| split].
  - unfold twins. repeat split; run; try reflexivity; lra.
  - eexists. split; run; reflexivity.
  - intros cub dom.
    rewrite !(nan_sum_revenue _ _ _ _ lookups_word_sum).
    repeat split. unfold anchor. run. reflexivity.
Qed.

(** The countries of the sample list outside the Americas. *)
Lemma taxonomy_other_segments s c :
  In c taxonomy -> Country.seg c = Some s -> s <> AMERICAS ->
  Country.iso3 c = "FRA" \/ Country.iso3 c = "JPN".
Proof.
  intros Hin Hs Hne.
  assert (H : In (Country.iso3 c, Country.seg c)
                (List.map (fun c => (Country.iso3 c, Country.seg c)) taxonomy))
    by exact (in_map (fun c => (Country.iso3 c, Country.seg c)) taxonomy c Hin).
  rewrite taxonomy_parsed, Hs in H. cbn [In] in H.
  destruct H as [H | [H | [H | [H | [H | [H | [H | []]]]]]]];
    injection H as Ek Es;
    try discriminate Es;
    try (exfalso; apply Hne; symmetry; exact Es);
    [left | right]; symmetry; exact Ek.
Qed.

(** C1, at a failing input.  The codes of the list are distinct and every
    segment has a country, but the market-cap reading of the United
    States is a word, stored as NaN.  Their score is NaN, so is the sum
    of the scores of the segment, and every AMERICAS row is written with
    revenue 0: the rows of the segment add up to 0, not to the anchor
    1506.108, and the reported total is the sum of the two other anchors
    only. *)
Theorem segment_sum_misses_anchor_beside_NaN :
  let ind := lookups mcap_feed_word in
  let payload :=
    buildExposureData taxonomy_csv gdp_feed mcap_feed_word
      (feed []) (feed []) (feed []) (feed []) in
  NoDup (List.map Country.iso3 taxonomy)
  /\ every_segment_populated taxonomy
  /\ SEGMENT_REVENUE_USD_M AMERICAS = Fin (1506108 / 1000)
  /\ (exists v, sum_revenue (alloc_segment taxonomy (scores taxonomy ind) AMERICAS)
                = Fin v /\ v = 0)
  /\ (exists t, totalRevenueMillions payload = Fin t
                /\ t = 580284 / 1000 + 235356 / 1000).
Proof.
  cbv zeta.
  assert (Hnd : NoDup (List.map Country.iso3 taxonomy)).
  { replace (List.map Country.iso3 taxonomy)
      with (List.map fst (List.map (fun c => (Country.iso3 c, Country.seg c)) taxonomy))
      by (rewrite map_map; reflexivity).
    rewrite taxonomy_parsed. simpl.
    repeat constructor; simpl; intuition discriminate. }
  assert (Hpop : every_segment_populated taxonomy).
  { intros s.
    assert (H : exists k, In (k, Some s)
                  (List.map (fun c => (Country.iso3 c, Country.seg c)) taxonomy)).
    { rewrite taxonomy_parsed.
      destruct s; [exists "USA" | exists "FRA" | exists "JPN"]; simpl; auto 10. }
    destruct H as (k & H). apply in_map_iff in H as (c & E & Hin).
    exists c. split; [exact Hin | now inversion E]. }
  assert (Ha : List.map Alloc.revenueMillions
                 (alloc_segment taxonomy (scores taxonomy (lookups mcap_feed_word))
                    AMERICAS)
               = List.map Fin [anchor AMERICAS * 0; anchor AMERICAS * 0;
                               anchor AMERICAS * 0; anchor AMERICAS * 0]).
  { unfold alloc_segment. rewrite lookups_word_sum.
    generalize (scores taxonomy (lookups mcap_feed_word) AMERICAS). intros m.
    replace taxonomy with (fst (parseCountries taxonomy_csv)) by reflexivity.
    run. reflexivity. }
  assert (Hother : forall s, s <> AMERICAS -> exists ys,
             List.map Alloc.revenueMillions
               (alloc_segment taxonomy (scores taxonomy (lookups mcap_feed_word)) s)
             = List.map Fin ys /\ Rsum ys = anchor s).
  { intros s Hs. apply segment_revenues; [exact Hnd | | apply Hpop].
    intros c Hin Hseg.
    destruct (taxonomy_other_segments s c Hin Hseg Hs) as [Ek | Ek];
      unfold no_nan_indicator; rewrite Ek; repeat split; discriminate. }
  split; [exact Hnd |]. split; [exact Hpop |].
  split; [exact (proj1 (anchor_value AMERICAS)) |]. split.
  - exists (0 + Rsum [anchor AMERICAS * 0; anchor AMERICAS * 0;
                      anchor AMERICAS * 0; anchor AMERICAS * 0]).
    split; [unfold sum_revenue; now apply fold_revenue | simpl; lra].
  - destruct (Hother EMEA ltac:(discriminate)) as (ye & He & Se).
    destruct (Hother APAC ltac:(discriminate)) as (yp & Hp & Sp).
    exists (0 + Rsum ([anchor AMERICAS * 0; anchor AMERICAS * 0;
                       anchor AMERICAS * 0; anchor AMERICAS * 0] ++ ye ++ yp)).
    split.
    + unfold buildExposureData.
      change (parseCountries taxonomy_csv)
        with (taxonomy, snd (parseCountries taxonomy_csv)).
      cbv iota beta.
      change (mkIndicators _ _ _ _ _ _) with (lookups mcap_feed_word).
      rewrite assemble_total. unfold sum_revenue.
      rewrite allocations_segments. apply fold_revenue.
      rewrite !map_app. now rewrite Ha, He, Hp.
    + rewrite !Rsum_app, Se, Sp. simpl. lra.
Qed.

(** ** Every country has one entry in the output table *)

Lemma segment_classes {B} (f : Country.t -> B) (l : list Country.t) :
  Permutation
    (List.map f (filter (in_segment AMERICAS) l)
     ++ List.map f (filter (in_segment EMEA) l)
     ++ List.map f (filter (in_segment APAC) l)
     ++ List.map f (filter no_segment l))
    (List.map f l).
Proof.
  induction l as [| c l IH]; [constructor |].
  assert (E : forall s, in_segment s c
                        = match Country.seg c with
                          | Some s' => Segment_eqb s' s
                          | None => false
                          end) by reflexivity.
  assert (En : no_segment c
               = match Country.seg c with None => true | Some _ => false end)
    by reflexivity.
  cbn [filter]. rewrite !E, En.
  destruct (Country.seg c) as [[| |] |]; cbn [Segment_eqb List.map app].
  - now apply perm_skip.
  - eapply perm_trans; [apply Permutation_sym, Permutation_middle |].
    now apply perm_skip.
  - rewrite app_assoc.
    eapply perm_trans; [apply Permutation_sym, Permutation_middle |].
    rewrite <- app_assoc. now apply perm_skip.
  - rewrite !app_assoc.
    eapply perm_trans; [apply Permutation_sym, Permutation_middle |].
    rewrite <- !app_assoc. now apply perm_skip.
Qed.

Lemma allocations_iso3 countries ind :
  List.map Alloc.iso3 (allocations countries ind)
  = List.map Country.iso3 (filter (in_segment AMERICAS) countries)
    ++ List.map Country.iso3 (filter (in_segment EMEA) countries)
    ++ List.map Country.iso3 (filter (in_segment APAC) countries).
Proof.
  rewrite allocations_segments. unfold alloc_segment.
  rewrite !map_app, !map_map. reflexivity.
Qed.

Lemma filter_by_key {A} (key : A -> string) (l : list A) (d : A) :
  NoDup (List.map key l) -> In d l ->
  filter (fun a => String.eqb (key a) (key d)) l = [d].
Proof.
  induction l as [| a l IH]; simpl; intros Hnd Hin; [contradiction |].
  inversion Hnd as [| ? ? Hnotin Hnd']; subst.
  assert (Hrest : forall l', ~ In (key d) (List.map key l') ->
                    filter (fun a => String.eqb (key a) (key d)) l' = []).
  { induction l' as [| b l' IHl]; simpl; intros Hn; [reflexivity |].
    destruct (String.eqb (key b) (key d)) eqn:E.
    - apply String.eqb_eq in E. exfalso. apply Hn. now left.
    - apply IHl. intros H. apply Hn. now right. }
  destruct Hin as [-> | Hin].
  - rewrite String.eqb_refl. f_equal. now apply Hrest.
  - destruct (String.eqb (key a) (key d)) eqn:E.
    + apply String.eqb_eq in E. exfalso. apply Hnotin. rewrite E.
      now apply in_map.
    + now apply IH.
Qed.

Lemma fill_fold a2 pop cs : forall i dm,
  NoDup (List.map Country.iso3 cs) ->
  (forall c, In c cs -> no_segment c = false ->
             map_has dm (Country.iso3 c) = true) ->
  (forall c, In c cs -> no_segment c = true ->
             map_get dm (Country.iso3 c) = None) ->
  snd (fold_left (fill_step a2 pop) cs (i, dm))
  = dm ++ List.map (fun c => (Country.iso3 c, detail_of_country a2 pop c))
            (filter no_segment cs).
Proof.
  induction cs as [| c cs IH]; intros i dm Hnd Hseg Hnone; simpl.
  - now rewrite app_nil_r.
  - inversion Hnd as [| ? ? Hnotin Hnd']; subst.
    destruct (no_segment c) eqn:Ec.
    + assert (Hg : map_get dm (Country.iso3 c) = None)
        by (apply Hnone; [now left | assumption]).
      unfold map_has. rewrite Hg. rewrite (map_set_fresh dm) by assumption.
      rewrite IH; [simpl; now rewrite <- app_assoc | assumption | |].
      * intros c' Hin Hc'. unfold map_has. rewrite map_get_app.
        specialize (Hseg c' (or_intror Hin) Hc'). unfold map_has in Hseg.
        now destruct (map_get dm (Country.iso3 c')).
      * intros c' Hin Hc'. rewrite map_get_app.
        rewrite (Hnone c' (or_intror Hin) Hc'). simpl.
        destruct (String.eqb (Country.iso3 c) (Country.iso3 c')) eqn:E;
          [| reflexivity].
        apply String.eqb_eq in E. exfalso. apply Hnotin. rewrite E.
        now apply in_map.
    + rewrite (Hseg c (or_introl eq_refl) Ec).
      apply IH; [assumption | |]; intros c' Hin; [apply Hseg | apply Hnone];
        now right.
Qed.

Lemma NoDup_app_l {A} (l1 l2 : list A) : NoDup (l1 ++ l2) -> NoDup l1.
Proof.
  induction l1 as [| a l1 IH]; simpl; intros H; [constructor |].
  inversion H as [| ? ? Hn H']; subst. constructor; [| now apply IH].
  intros Hin. apply Hn. apply in_or_app. now left.
Qed.

(** The output table under distinct country codes: the rows in order,
    then a zero entry for each country without segment. *)
Lemma countryDetails_spec countries a2 ind :
  NoDup (List.map Country.iso3 countries) ->
  countryDetails (assemble countries a2 ind)
  = List.map
      (detail_of_row
         (map_of_entries (List.map (fun c => (Country.iso3 c, c)) countries))
         a2 (pop ind) (sum_revenue (allocations countries ind)))
      (allocations countries ind)
    ++ List.map (detail_of_country a2 (pop ind)) (filter no_segment countries).
Proof.
  intros Hnd.
  pose proof (segment_classes Country.iso3 countries) as Hperm.
  assert (Hall : NoDup
            (List.map Country.iso3 (filter (in_segment AMERICAS) countries)
             ++ List.map Country.iso3 (filter (in_segment EMEA) countries)
             ++ List.map Country.iso3 (filter (in_segment APAC) countries)
             ++ List.map Country.iso3 (filter no_segment countries))).
  { eapply Permutation_NoDup; [apply Permutation_sym, Hperm | exact Hnd]. }
  assert (Hrows : NoDup (List.map Alloc.iso3 (allocations countries ind))).
  { rewrite allocations_iso3. rewrite !app_assoc in Hall.
    apply NoDup_app_l in Hall. now rewrite <- app_assoc in Hall. }
  unfold assemble.
  set (cm := map_of_entries _). set (total := sum_revenue _).
  destruct (fold_left (intensity_step total) _ _) as [i0 mx].
  rewrite (fold_map_set_nodup Alloc.iso3 (detail_of_row cm a2 (pop ind) total))
    by (assumption || reflexivity).
  cbn [app].
  pose proof (fill_fold a2 (pop ind) countries i0
                (List.map (fun a => (Alloc.iso3 a, detail_of_row cm a2 (pop ind) total a))
                   (allocations countries ind))) as Hfill.
  destruct (fold_left (fill_step a2 (pop ind)) countries _) as [i1 dm].
  cbn [countryDetails]. cbn [snd] in Hfill. rewrite Hfill.
  - unfold map_values. rewrite map_app, !map_map. reflexivity.
  - assumption.
  - intros c Hin Hc. unfold map_has.
    destruct (map_get _ (Country.iso3 c)) eqn:E; [reflexivity |].
    apply map_get_None_keys in E. exfalso. apply E.
    unfold map_keys. rewrite map_map. cbn [fst].
    change (In (Country.iso3 c) (List.map Alloc.iso3 (allocations countries ind))).
    rewrite allocations_iso3.
    unfold no_segment in Hc. destruct (Country.seg c) as [s |] eqn:Hs;
      [| discriminate].
    assert (Hc' : In (Country.iso3 c)
                    (List.map Country.iso3 (filter (in_segment s) countries))).
    { apply in_map, filter_In. split; [assumption | now apply in_segment_true]. }
    destruct s; repeat (apply in_or_app; (now left) || right); assumption.
  - intros c Hin Hc. apply map_get_None_keys.
    unfold map_keys. rewrite map_map. cbn [fst].
    change (~ In (Country.iso3 c) (List.map Alloc.iso3 (allocations countries ind))).
    rewrite allocations_iso3. intros Habs.
    assert (Hex : exists c' s, In c' countries /\ Country.seg c' = Some s
                               /\ Country.iso3 c' = Country.iso3 c).
    { repeat (apply in_app_or in Habs as [Habs | Habs]);
        apply in_map_iff in Habs as (c' & E & Hf);
        apply filter_In in Hf as [Hin' Hs]; apply in_segment_true in Hs; eauto. }
    destruct Hex as (c' & s & Hin' & Hs & E).
    assert (c' = c) by (eapply NoDup_map_inj; eauto). subst c'.
    unfold no_segment in Hc. rewrite Hs in Hc. discriminate.
Qed.

Lemma countryDetails_iso3 countries a2 ind :
  NoDup (List.map Country.iso3 countries) ->
  Permutation (List.map Detail.iso3 (countryDetails (assemble countries a2 ind)))
              (List.map Country.iso3 countries).
Proof.
  intros Hnd. rewrite countryDetails_spec by assumption.
  rewrite map_app, !map_map. cbn [Detail.iso3 detail_of_row detail_of_country].
  change (List.map (fun x => Alloc.iso3 x) (allocations countries ind))
    with (List.map Alloc.iso3 (allocations countries ind)).
  rewrite allocations_iso3, <- !app_assoc.
  apply (segment_classes Country.iso3).
Qed.

Lemma countryDetails_entry countries a2 ind c :
  NoDup (List.map Country.iso3 countries) ->
  In c countries ->
  exists d,
    In d (countryDetails (assemble countries a2 ind))
    /\ Detail.iso3 d = Country.iso3 c
    /\ Detail.name d = Country.name c
    /\ (Country.seg c = None ->
        Detail.revenueMillions d = Fin 0 /\ Detail.share d = Fin 0).
Proof.
  intros Hnd Hin. rewrite countryDetails_spec by assumption.
  destruct (Country.seg c) as [s |] eqn:Hs.
  - eexists. split; [| split; [| split]].
    + apply in_or_app. left. apply in_map.
      rewrite allocations_segments.
      assert (Hrow : In (alloc_row (scores countries ind s)
                           (score_sum (scores countries ind s)) s c)
                        (alloc_segment countries (scores countries ind) s)).
      { unfold alloc_segment. apply in_map, filter_In.
        split; [assumption | now apply in_segment_true]. }
      destruct s; repeat (apply in_or_app; (left; exact Hrow) || right);
        exact Hrow.
    + reflexivity.
    + reflexivity.
    + discriminate.
  - exists (detail_of_country a2 (pop ind) c). split; [| repeat split].
    apply in_or_app. right. apply in_map, filter_In.
    split; [assumption |]. unfold no_segment. now rewrite Hs.
Qed.

Lemma truthy_nonempty x s : truthy x = Some s -> s <> EmptyString.
Proof.
  destruct x as [[| a r] |]; simpl; intros E; inversion E; subst. discriminate.
Qed.

(** Only rows with a non-empty code and a non-empty name give a record. *)
Lemma parsed_records_named isoCsv c :
  In c (fst (parseCountries isoCsv)) ->
  Country.iso3 c <> EmptyString /\ Country.name c <> EmptyString.
Proof.
  unfold parseCountries.
  destruct (split_newline (trim isoCsv)) as [| header data]; [intros [] |].
  assert (G : forall st,
             (forall x, In x (fst st) ->
                Country.iso3 x <> EmptyString /\ Country.name x <> EmptyString) ->
             forall x,
               In x (fst (fold_left (country_step (splitCsvLine header)) data st)) ->
               Country.iso3 x <> EmptyString /\ Country.name x <> EmptyString).
  { induction data as [| line data IH]; intros st Hst; [exact Hst |].
    simpl. apply IH. intros x. unfold country_step.
    destruct st as [cs m].
    destruct (truthy (option_map _ (col _ (indexOf _ "alpha-3")))) as [k |] eqn:Ek;
      [| apply Hst].
    destruct (truthy (option_map trim (col _ (indexOf _ "name")))) as [n |] eqn:En;
      [| apply Hst].
    cbn [fst]. intros Hx. apply in_app_or in Hx as [Hx | [<- | []]].
    - now apply Hst.
    - simpl. split; eapply truthy_nonempty; eassumption. }
  apply G. intros x [].
Qed.

(** The parse loop, line by line: a data line adds the record it stands
    for, or nothing. *)
Lemma country_step_fst header cs m line :
  fst (country_step header (cs, m) line)
  = cs ++ match record_of_row header line with Some c => [c] | None => [] end.
Proof.
  unfold country_step, record_of_row, cell.
  destruct (col (splitCsvLine line) (indexOf header "alpha-3")) as [k |];
    cbn [option_map]; [| now rewrite app_nil_r].
  destruct (truthy (Some (toUpperCase (trim k)))) as [code |];
    [| now rewrite app_nil_r].
  destruct (col (splitCsvLine line) (indexOf header "name")) as [n |];
    cbn [option_map truthy]; [| now rewrite app_nil_r].
  destruct (truthy (Some (trim n))) as [name |] eqn:En;
    cbn [truthy] in En |- *; rewrite En; [| now rewrite app_nil_r].
  cbn [fst]. do 3 f_equal.
  destruct (indexOf header "alpha-2") as [i |]; [| reflexivity].
  now destruct (col (splitCsvLine line) (Some i)).
Qed.

Lemma parse_fold_fst header data : forall st,
  fst (fold_left (country_step header) data st)
  = fst st
    ++ flat_map
         (fun line =>
            match record_of_row header line with Some c => [c] | None => [] end)
         data.
Proof.
  induction data as [| line data IH]; intros [cs m]; cbn [fold_left flat_map fst].
  - now rewrite app_nil_r.
  - rewrite IH. destruct (country_step header (cs, m) line) as [cs' m'] eqn:E.
    pose proof (country_step_fst header cs m line) as H. rewrite E in H.
    cbn [fst] in *. rewrite H. now rewrite <- app_assoc.
Qed.

(** The parse neither drops nor invents a country: its records are those
    of the rows with a non-empty code and name, in their order. *)
Lemma parseCountries_rows isoCsv :
  fst (parseCountries isoCsv) = taxonomy_rows isoCsv.
Proof.
  unfold parseCountries, taxonomy_rows.
  destruct (split_newline (trim isoCsv)) as [| header data]; [reflexivity |].
  now rewrite parse_fold_fst.
Qed.

(** Codes that are distinct as written can agree once upper-cased: the
    two rows of the list then share one table entry, which carries the
    name of the second, and the first country is not in the table. *)
Lemma raw_distinct_codes_share_one_entry :
  NoDup (raw_codes mixed_case_csv)
  /\ List.map (fun c => (Country.iso3 c, Country.name c))
       (taxonomy_rows mixed_case_csv)
     = [("USA", "United States"); ("USA", "United States of America")]
  /\ List.map (fun d => (Detail.iso3 d, Detail.name d)) mixed_case_table
     = [("USA", "United States of America")]
  /\ ~ (forall c, In c (taxonomy_rows mixed_case_csv) ->
          exists d, In d mixed_case_table /\ Detail.name d = Country.name c).
Proof.
  assert (T : List.map (fun d => (Detail.iso3 d, Detail.name d)) mixed_case_table
              = [("USA", "United States of America")]).
  { lazy. reflexivity. }
  split; [| split; [reflexivity | split; [exact T |]]].
  - vm_compute. repeat constructor; simpl; intuition discriminate.
  - intros H.
    destruct (H (Country.mk "USA" (Some "US") "United States" (Some "Americas")
                   (Some "Northern America") (Some AMERICAS)))
      as (d & Hd & Hn).
    + left. reflexivity.
    + apply (in_map (fun d => (Detail.iso3 d, Detail.name d))) in Hd.
      rewrite T in Hd. cbn [Detail.name] in Hn. rewrite Hn in Hd.
      destruct Hd as [Hd | []]. discriminate Hd.
Qed.

(** C2, amended.  The parse keeps every row of the taxonomy that has a
    non-empty code and name, and nothing else.  When the codes of these
    rows, trimmed and upper-cased as the parse stores them, are distinct,
    the output table holds, for every such row, exactly one entry with
    the code of the row, under the name of the row; the entry of a
    country without segment has revenue 0 and share 0.  The table has no
    two entries with the same code and as many entries as there are
    rows. *)
Theorem every_country_has_one_entry (isoCsv : string)
    (gdpJson mcapJson creditJson gdpPcJson netJson popJson : WbJson) :
  let rows := taxonomy_rows isoCsv in
  let table :=
    countryDetails
      (buildExposureData isoCsv gdpJson mcapJson creditJson gdpPcJson netJson
         popJson) in
  NoDup (List.map Country.iso3 rows) ->
  fst (parseCountries isoCsv) = rows
  /\ (forall c, In c rows ->
        Country.iso3 c <> EmptyString /\ Country.name c <> EmptyString
        /\ exists d,
             filter (fun d => String.eqb (Detail.iso3 d) (Country.iso3 c)) table = [d]
             /\ Detail.name d = Country.name c
             /\ (Country.seg c = None ->
                 Detail.revenueMillions d = Fin 0 /\ Detail.share d = Fin 0))
  /\ NoDup (List.map Detail.iso3 table)
  /\ List.length table = List.length rows.
Proof.
  intros rows table Hnd.
  pose proof (parsed_records_named isoCsv) as Hnamed.
  pose proof (parseCountries_rows isoCsv) as Hrows. fold rows in Hrows.
  split; [exact Hrows |].
  unfold table, buildExposureData. rewrite Hrows in Hnamed.
  destruct (parseCountries isoCsv) as [cs a2].
  cbn [fst] in Hrows. subst cs.
  set (ind := mkIndicators _ _ _ _ _ _).
  pose proof (countryDetails_iso3 rows a2 ind Hnd) as Hperm.
  assert (Hkeys : NoDup (List.map Detail.iso3 (countryDetails (assemble rows a2 ind)))).
  { eapply Permutation_NoDup; [apply Permutation_sym, Hperm | exact Hnd]. }
  split; [| split].
  - intros c Hin. destruct (Hnamed c Hin) as [Hk Hn].
    split; [exact Hk |]. split; [exact Hn |].
    destruct (countryDetails_entry rows a2 ind c Hnd Hin) as (d & Hd & Ek & En & Hz).
    exists d. split; [| split; assumption].
    rewrite <- Ek. now apply filter_by_key.
  - exact Hkeys.
  - apply Permutation_length in Hperm. now rewrite !length_map in Hperm.
Qed.

Lemma every_country_has_one_entry_witness :
  let rows := taxonomy_rows taxonomy_csv in
  let table :=
    countryDetails
      (buildExposureData taxonomy_csv gdp_feed mcap_feed_infinite
         (feed []) (feed []) (feed []) (feed [])) in
  fst (parseCountries taxonomy_csv) = rows
  /\ (forall c, In c rows ->
        Country.iso3 c <> EmptyString /\ Country.name c <> EmptyString
        /\ exists d,
             filter (fun d => String.eqb (Detail.iso3 d) (Country.iso3 c)) table = [d]
             /\ Detail.name d = Country.name c
             /\ (Country.seg c = None ->
                 Detail.revenueMillions d = Fin 0 /\ Detail.share d = Fin 0))
  /\ NoDup (List.map Detail.iso3 table)
  /\ List.length table = List.length rows.
Proof.
  apply (every_country_has_one_entry taxonomy_csv gdp_feed mcap_feed_infinite
           (feed []) (feed []) (feed []) (feed [])).
  vm_compute. repeat constructor; simpl; intuition discriminate.
Defined.

(** * Further properties of the engine *)

(** ** [clamp] *)

(** X1.  With [lo <= hi], [clamp] of a number that is not NaN is a finite
    number of the interval: the number itself when it lies inside, the
    nearer bound otherwise (also for the infinities); NaN stays NaN. *)
Theorem clamp_within_bounds (x : num) (lo hi : R) :
  lo <= hi ->
  match x with
  | NaN => clamp x (Fin lo) (Fin hi) = NaN
  | Fin v =>
      exists c, clamp x (Fin lo) (Fin hi) = Fin c /\ lo <= c <= hi
                /\ (lo <= v <= hi -> c = v)
                /\ (v < lo -> c = lo) /\ (hi < v -> c = hi)
  | PInf => clamp x (Fin lo) (Fin hi) = Fin hi
  | NInf => clamp x (Fin lo) (Fin hi) = Fin lo
  end.
Proof.
  intros Hle. rewrite clamp_spec by assumption.
  destruct x as [v | | |]; simpl; try reflexivity.
  exists (Rmax lo (Rmin hi v)). split; [reflexivity |].
  unfold Rmax, Rmin.
  destruct (Rle_dec hi v), (Rle_dec lo hi), (Rle_dec lo v);
    repeat split; intros; lra.
Qed.

Lemma clamp_within_bounds_witness :
  exists c, clamp (Fin 90000) (Fin 0) (Fin 80000) = Fin c /\ 0 <= c <= 80000
            /\ (0 <= 90000 <= 80000 -> c = 90000)
            /\ (90000 < 0 -> c = 0) /\ (80000 < 90000 -> c = 80000).
Proof. apply (clamp_within_bounds (Fin 90000) 0 80000). lra. Defined.

(** ** [median] *)

Lemma finite_values_perm arr arr' :
  Permutation arr arr' -> Permutation (finite_values arr) (finite_values arr').
Proof.
  induction 1 as [| x l l' _ IH | x y l | l l' l'' _ IH1 _ IH2].
  - constructor.
  - destruct x; simpl; auto.
  - destruct x, y; simpl; try apply Permutation_refl; apply perm_swap.
  - eapply perm_trans; eassumption.
Qed.

Lemma sort_asc_of_perm l l' : Permutation l l' -> sort_asc l = sort_asc l'.
Proof.
  intros H. apply sorted_perm_unique; try apply sort_asc_sorted.
  eapply perm_trans; [apply Permutation_sym, sort_asc_perm |].
  eapply perm_trans; [exact H | apply sort_asc_perm].
Qed.

(** X2.  The median does not depend on the order of the array. *)
Theorem median_order_independent (arr arr' : list num) :
  Permutation arr arr' -> median arr = median arr'.
Proof.
  intros H. unfold median.
  now rewrite (sort_asc_of_perm _ _ (finite_values_perm _ _ H)).
Qed.

Lemma median_order_independent_witness :
  median [Fin 3; NaN; Fin 1] = median [NaN; Fin 1; Fin 3].
Proof.
  apply median_order_independent.
  eapply perm_trans; [apply perm_swap |]. apply perm_skip. apply perm_swap.
Defined.

Lemma sorted_nth_le (a : list R) :
  Sorted Rle a ->
  forall i j, (i <= j)%nat -> (j < List.length a)%nat -> nth i a 0 <= nth j a 0.
Proof.
  intros Hs.
  assert (Htr : Relations_1.Transitive Rle) by (intros u v w; apply Rle_trans).
  apply (Sorted_StronglySorted Htr) in Hs.
  induction Hs as [| x a Hs IH Hall]; intros i j Hij Hj; simpl in Hj; [lia |].
  destruct j as [| j].
  - assert (i = 0)%nat by lia. subst. simpl. lra.
  - destruct i as [| i]; simpl.
    + rewrite Forall_forall in Hall. apply Hall. apply nth_In. lia.
    + apply IH; lia.
Qed.

Lemma In_firstn_nth (a : list R) k x :
  In x (firstn k a) ->
  exists i, (i < k)%nat /\ (i < List.length a)%nat /\ nth i a 0 = x.
Proof.
  revert k. induction a as [| y a IH]; intros k; destruct k as [| k]; simpl;
    try contradiction.
  intros [-> | H].
  - exists 0%nat. repeat split; lia.
  - destruct (IH k H) as (i & Hi & Hl & E). exists (S i). repeat split; try lia.
    exact E.
Qed.

Lemma In_skipn_nth (a : list R) k x :
  In x (skipn k a) ->
  exists j, (k <= j)%nat /\ (j < List.length a)%nat /\ nth j a 0 = x.
Proof.
  revert k. induction a as [| y a IH]; intros k; destruct k as [| k];
    cbn [skipn].
  - intros [].
  - intros [].
  - intros H. apply (In_nth _ _ 0) in H as (j & Hj & E).
    exists j. repeat split; try lia. exact E.
  - intros H. destruct (IH k H) as (j & Hk & Hl & E). exists (S j).
    repeat split; simpl; try lia. exact E.
Qed.

Lemma finite_values_nil_iff arr :
  finite_values arr = [] <-> forall x, ~ In (Fin x) arr.
Proof.
  induction arr as [| n arr IH]; simpl.
  - split; [intros _ x [] | reflexivity].
  - destruct n as [v | | |]; simpl.
    + split; [discriminate | intros H; exfalso; apply (H v); now left].
    + rewrite IH. split; intros H x; [intros [E | Hin]; [discriminate | now apply (H x)]
                                     | intros Hin; apply (H x); now right].
    + rewrite IH. split; intros H x; [intros [E | Hin]; [discriminate | now apply (H x)]
                                     | intros Hin; apply (H x); now right].
    + rewrite IH. split; intros H x; [intros [E | Hin]; [discriminate | now apply (H x)]
                                     | intros Hin; apply (H x); now right].
Qed.

(** X3.  [median] returns [null] exactly on an array without finite
    number.  On an odd number of finite values it returns one of them,
    [m], which splits the sorted values in two: the first half (rounded
    up) is at most [m] and the second half (rounded up) is at least [m].
    On an even number it returns the half of the sum of the two middle
    values of the sorted array. *)
Theorem median_splits_in_halves (arr : list num) :
  match median arr with
  | None => forall x, ~ In (Fin x) arr
  | Some r =>
      exists a : list R,
        Permutation a (finite_values arr) /\ Sorted Rle a /\ a <> []
        /\ if Nat.odd (List.length a)
           then exists m, r = Fin m /\ In m a
                  /\ Forall (fun x => x <= m) (firstn ((List.length a + 1) / 2) a)
                  /\ Forall (fun x => m <= x) (skipn (List.length a / 2) a)
           else r = jdiv (jadd (Fin (nth (List.length a / 2 - 1) a 0))
                               (Fin (nth (List.length a / 2) a 0)))
                         (Fin 2)
  end.
Proof.
  unfold median.
  pose proof (sort_asc_sorted (finite_values arr)) as Hs.
  pose proof (sort_asc_perm (finite_values arr)) as Hp.
  set (a := sort_asc (finite_values arr)) in *. clearbody a.
  destruct (Nat.eqb_spec (List.length a) 0) as [Hz | Hnz].
  - apply length_zero_iff_nil in Hz. subst a.
    apply finite_values_nil_iff. now apply Permutation_nil, Permutation_sym.
  - assert (Hn : (0 < List.length a)%nat) by lia.
    rewrite odd_mod2.
    assert (Hne : a <> []) by (intros E; rewrite E in Hn; simpl in Hn; lia).
    destruct (Nat.odd (List.length a)) eqn:Eodd; cbn [negb];
      exists a; (split; [now apply Permutation_sym |]);
      (split; [assumption |]); (split; [assumption |]); rewrite Eodd;
      [| reflexivity].
    remember (List.length a) as n eqn:En.
    pose proof (Nat.div_mod_eq n 2) as Hdm.
    pose proof (Nat.mod_upper_bound n 2 ltac:(lia)) as Hmod.
    assert (Hodd : (n mod 2 = 1)%nat).
    { rewrite <- odd_mod2 in Eodd. apply negb_true_iff, Nat.eqb_neq in Eodd. lia. }
    exists (nth (n / 2) a 0).
    split; [reflexivity |].
    split; [apply nth_In; rewrite <- En; lia |].
    assert (Hh : ((n + 1) / 2 = n / 2 + 1)%nat).
    { replace (n + 1)%nat with (2 * (n / 2 + 1))%nat by lia.
      rewrite Nat.mul_comm. apply Nat.div_mul. lia. }
    split; apply Forall_forall; intros x Hx.
    + apply In_firstn_nth in Hx as (i & Hi & Hl & <-).
      apply sorted_nth_le; try assumption; rewrite <- ?En; lia.
    + apply In_skipn_nth in Hx as (j & Hj & Hl & <-).
      apply sorted_nth_le; try assumption; rewrite <- ?En; lia.
Qed.

(** ** [splitCsvLine] on lines without quotes *)

Lemma join_comma_snoc l s :
  l <> [] -> join_comma (l ++ [s]) = (join_comma l ++ String comma s)%string.
Proof.
  induction l as [| x l IH]; intros Hne; [congruence |].
  destruct l as [| y l].
  - reflexivity.
  - change (join_comma ((x :: y :: l) ++ [s]))
      with (x ++ String comma (join_comma ((y :: l) ++ [s])))%string.
    rewrite IH by discriminate.
    change (join_comma (x :: y :: l))
      with (x ++ String comma (join_comma (y :: l)))%string.
    rewrite append_assoc. reflexivity.
Qed.

Lemma join_comma_last l cur s :
  join_comma (l ++ [(cur ++ s)%string]) = (join_comma (l ++ [cur]) ++ s)%string.
Proof.
  destruct l as [| x l]; [reflexivity |].
  rewrite !join_comma_snoc by discriminate.
  now rewrite append_assoc.
Qed.

Lemma loop_no_quote line : forall cur out,
  no_quote line = true ->
  join_comma (splitCsvLine_loop line cur false out)
  = (join_comma (out ++ [cur]) ++ line)%string
  /\ List.length (splitCsvLine_loop line cur false out)
     = (List.length out + 1 + count_commas line)%nat.
Proof.
  induction line as [| c line IH]; intros cur out Hq; simpl.
  - rewrite append_nil_r, length_app. simpl. split; [reflexivity | lia].
  - simpl in Hq. apply andb_prop in Hq as [Hc Hq]. apply negb_true_iff in Hc.
    rewrite Hc. destruct (Ascii.eqb c comma) eqn:Ec; simpl.
    + apply Ascii.eqb_eq in Ec; subst c.
      destruct (IH EmptyString (out ++ [cur]) Hq) as [-> ->]. split.
      * rewrite join_comma_snoc by (destruct out; discriminate).
        now rewrite append_assoc.
      * rewrite length_app. simpl. lia.
    + destruct (IH (snoc cur c) out Hq) as [-> ->]. split; [| lia].
      unfold snoc. rewrite join_comma_last. now rewrite append_assoc.
Qed.

(** X4.  On a line without quote character the splitter cuts at every
    comma and nowhere else: joining the fields with commas gives the line
    back, and there is one field more than there are commas. *)
Theorem splitCsvLine_plain_line (line : string) :
  no_quote line = true ->
  join_comma (splitCsvLine line) = line
  /\ List.length (splitCsvLine line) = S (count_commas line).
Proof.
  intros Hq. unfold splitCsvLine.
  destruct (loop_no_quote line EmptyString [] Hq) as [-> ->].
  split; [reflexivity | simpl; lia].
Qed.

Lemma splitCsvLine_plain_line_witness :
  join_comma (splitCsvLine "Cuba,CU,CUB,Americas,") = "Cuba,CU,CUB,Americas,"%string
  /\ List.length (splitCsvLine "Cuba,CU,CUB,Americas,")
     = S (count_commas "Cuba,CU,CUB,Americas,").
Proof. apply (splitCsvLine_plain_line "Cuba,CU,CUB,Americas,"). reflexivity. Defined.

(** ** The country list *)

Lemma upper_ascii_idem c : upper_ascii (upper_ascii c) = upper_ascii c.
Proof. destruct c as [[] [] [] [] [] [] [] []]; reflexivity. Qed.

Lemma toUpperCase_idem s : toUpperCase (toUpperCase s) = toUpperCase s.
Proof.
  unfold toUpperCase.
  induction s as [| c s IH]; cbn [map_string]; [reflexivity |].
  now rewrite upper_ascii_idem, IH.
Qed.

Lemma truthy_some x s : truthy x = Some s -> x = Some s.
Proof. destruct x as [[| a r] |]; simpl; congruence. Qed.

(** What one data line can add to the country list. *)
Lemma country_step_record header cs m line x :
  In x (fst (country_step header (cs, m) line)) ->
  In x cs
  \/ (Country.seg x = segmentOfCountry (Country.region x) (Country.subRegion x)
      /\ toUpperCase (Country.iso3 x) = Country.iso3 x
      /\ Country.alpha2 x <> Some EmptyString
      /\ (forall a, Country.alpha2 x = Some a -> toUpperCase a = a)).
Proof.
  unfold country_step.
  destruct (truthy (option_map _ (col _ (indexOf _ "alpha-3")))) as [k |] eqn:Ek;
    [| now left].
  destruct (truthy (option_map trim (col _ (indexOf _ "name")))) as [n |] eqn:En;
    [| now left].
  cbn [fst]. intros Hx. apply in_app_or in Hx as [Hx | [<- | []]]; [now left |].
  right. cbn [Country.seg Country.region Country.subRegion Country.iso3 Country.alpha2].
  split; [reflexivity |]. split.
  - apply truthy_some in Ek.
    destruct (col (splitCsvLine line) (indexOf header "alpha-3")) as [s |];
      [| discriminate].
    simpl in Ek. inversion Ek. apply toUpperCase_idem.
  - destruct (indexOf header "alpha-2") as [i |]; [| split; [discriminate | discriminate]].
    split.
    + intros E. apply truthy_nonempty in E. now apply E.
    + intros a E. apply truthy_some in E.
      destruct (col (splitCsvLine line) (Some i)) as [s |]; [| discriminate].
      simpl in E. inversion E. apply toUpperCase_idem.
Qed.

(** X5.  Every record of the parsed country list has an upper-case code,
    a two-letter code that, when present, is upper-case and not empty,
    and the segment that [segmentOfCountry] gives to its own region and
    sub-region. *)
Theorem parsed_records_consistent (isoCsv : string) :
  Forall
    (fun c =>
       Country.seg c = segmentOfCountry (Country.region c) (Country.subRegion c)
       /\ toUpperCase (Country.iso3 c) = Country.iso3 c
       /\ Country.alpha2 c <> Some EmptyString
       /\ (forall a, Country.alpha2 c = Some a -> toUpperCase a = a))
    (fst (parseCountries isoCsv)).
Proof.
  apply Forall_forall. unfold parseCountries.
  destruct (split_newline (trim isoCsv)) as [| header data]; [intros x [] |].
  set (P := fun c =>
       Country.seg c = segmentOfCountry (Country.region c) (Country.subRegion c)
       /\ toUpperCase (Country.iso3 c) = Country.iso3 c
       /\ Country.alpha2 c <> Some EmptyString
       /\ (forall a, Country.alpha2 c = Some a -> toUpperCase a = a)).
  assert (G : forall st, (forall x, In x (fst st) -> P x) ->
              forall x, In x (fst (fold_left (country_step (splitCsvLine header))
                                     data st)) -> P x).
  { induction data as [| line data IH]; intros st Hst; [exact Hst |].
    simpl. apply IH. intros x Hx. destruct st as [cs m].
    apply country_step_record in Hx as [Hx | Hx]; [now apply Hst | exact Hx]. }
  apply G. intros x [].
Qed.

Lemma parsed_records_upper isoCsv c :
  In c (fst (parseCountries isoCsv)) ->
  toUpperCase (Country.iso3 c) = Country.iso3 c.
Proof.
  unfold parseCountries.
  destruct (split_newline (trim isoCsv)) as [| header data]; [intros [] |].
  assert (G : forall st,
              (forall x, In x (fst st) -> toUpperCase (Country.iso3 x) = Country.iso3 x) ->
              forall x, In x (fst (fold_left (country_step (splitCsvLine header))
                                     data st)) ->
                        toUpperCase (Country.iso3 x) = Country.iso3 x).
  { induction data as [| line data IH]; intros st Hst; [exact Hst |].
    simpl. apply IH. intros x Hx. destruct st as [cs m].
    apply country_step_record in Hx as [Hx | (_ & Hx & _)];
      [now apply Hst | exact Hx]. }
  apply G. intros x [].
Qed.

Lemma country_step_no_key header st line :
  indexOf header "alpha-3" = None \/ indexOf header "name" = None ->
  country_step header st line = st.
Proof.
  intros H. unfold country_step. destruct st as [cs m].
  destruct H as [-> | ->]; simpl.
  - reflexivity.
  - now destruct (truthy _).
Qed.

(** X6.  When the header line has no column named alpha-3, or none named
    name, no record is produced and no two-letter code is noted,
    whatever the data lines hold. *)
Theorem parse_without_key_column (isoCsv : string) :
  (let header := splitCsvLine (hd EmptyString (split_newline (trim isoCsv))) in
   indexOf header "alpha-3" = None \/ indexOf header "name" = None) ->
  parseCountries isoCsv = ([], []).
Proof.
  cbv zeta. unfold parseCountries.
  destruct (split_newline (trim isoCsv)) as [| header data]; [reflexivity |].
  cbn [hd]. intros H. generalize (@nil Country.t, @nil (string * string)).
  induction data as [| line data IH]; intros st; simpl; [reflexivity |].
  rewrite (country_step_no_key _ st line H). apply IH.
Qed.

Lemma parse_without_key_column_witness :
  parseCountries (join_lines ["name,region"; "France,Europe"]) = ([], []).
Proof.
  apply parse_without_key_column. left. reflexivity.
Defined.

(** ** The latest-value lookup *)

Lemma map_set_keys {V} (m : jsmap V) k v :
  map_keys (map_set m k v)
  = if map_has m k then map_keys m else map_keys m ++ [k].
Proof.
  unfold map_has, map_keys.
  induction m as [| [k0 v0] m IH]; simpl; [reflexivity |].
  destruct (String.eqb k0 k) eqn:E; simpl; [reflexivity |].
  rewrite IH. now destruct (map_get m k).
Qed.

Lemma map_has_keys {V} (m : jsmap V) k :
  map_has m k = false -> ~ In k (map_keys m).
Proof.
  unfold map_has. intros H. apply map_get_None_keys.
  now destruct (map_get m k).
Qed.

Lemma NoDup_snoc {A} (l : list A) a : NoDup l -> ~ In a l -> NoDup (l ++ [a]).
Proof.
  intros Hl Ha. apply NoDup_app; [assumption | repeat constructor; intros [] |].
  intros x Hx [<- | []]. contradiction.
Qed.

Lemma map_set_NoDup {V} (m : jsmap V) k v :
  NoDup (map_keys m) -> NoDup (map_keys (map_set m k v)).
Proof.
  intros H. rewrite map_set_keys.
  destruct (map_has m k) eqn:E; [assumption |].
  apply NoDup_snoc; [assumption | now apply map_has_keys].
Qed.

Lemma latest_step_NoDup best it :
  NoDup (map_keys best) -> NoDup (map_keys (latest_step best it)).
Proof.
  intros H. unfold latest_step.
  destruct (Datum.countryiso3code it) as [k |]; [| assumption].
  destruct (_ || _ || _); [assumption |].
  destruct (map_get best k) as [prev |]; [destruct (jgt _ _) |];
    try assumption; now apply map_set_NoDup.
Qed.

Lemma latestRows_NoDup rows : NoDup (map_keys (latestRows rows)).
Proof.
  unfold latestRows.
  assert (G : forall best, NoDup (map_keys best) ->
                NoDup (map_keys (fold_left latest_step rows best))).
  { induction rows as [| it rows IH]; intros best H; [exact H |].
    simpl. apply IH. now apply latest_step_NoDup. }
  apply G. constructor.
Qed.

Lemma observations_key iso3 rows o :
  In o (observations iso3 rows) -> iso3 <> EmptyString.
Proof.
  unfold observations. rewrite in_map_iff. intros (it & _ & Hin).
  apply filter_In in Hin as [_ Hq]. unfold row_is_for, qualifies, str_is in Hq.
  destruct (Datum.countryiso3code it) as [k |]; [| discriminate].
  apply andb_prop in Hq as [Hq Hk]. apply String.eqb_eq in Hk; subst k.
  apply andb_prop in Hq as [Hq _]. apply andb_prop in Hq as [Hq _].
  apply negb_true_iff in Hq. now apply String.eqb_neq.
Qed.

(** X7.  The lookup built by [latestByIso3] has no key twice, no empty
    key, and only finite years; every entry it holds is [Number] of the
    date and of the value of one row of the feed. *)
Theorem latestByIso3_well_formed (wbJson : WbJson) :
  NoDup (map_keys (latestByIso3 wbJson))
  /\ (forall k e, map_get (latestByIso3 wbJson) k = Some e ->
        k <> EmptyString
        /\ isFiniteNum (Latest.year e) = true
        /\ exists it, In it (wb_rows wbJson)
                      /\ Datum.countryiso3code it = Some k
                      /\ e = Latest.mk (Number (Datum.date it))
                                       (Number (Datum.value it))).
Proof.
  split; [apply latestRows_NoDup |].
  intros k e He. unfold latestByIso3 in He.
  pose proof (latestRows_first_of_max (wb_rows wbJson) k) as H.
  rewrite He in H. destruct H as (pre & post & Hobs & _).
  assert (Hin : In e (observations k (wb_rows wbJson))).
  { rewrite Hobs. apply in_or_app. right. now left. }
  split; [eapply observations_key; eassumption |].
  split; [eapply observations_finite_year; eassumption |].
  unfold observations in Hin. apply in_map_iff in Hin as (it & <- & Hin).
  apply filter_In in Hin as [Hin Hq]. exists it. split; [exact Hin |].
  split; [| reflexivity].
  unfold row_is_for, str_is in Hq. apply andb_prop in Hq as [_ Hq].
  destruct (Datum.countryiso3code it) as [k' |]; [| discriminate].
  apply String.eqb_eq in Hq. now subst.
Qed.

Lemma jle_not_jgt a b : jle a b = true -> jgt a b = false.
Proof.
  destruct a, b; simpl; try congruence; unfold jgt, jlt.
  rewrite Rleb_true, Rltb_false. tauto.
Qed.

Lemma latest_step_seen rows it :
  In it rows -> latest_step (latestRows rows) it = latestRows rows.
Proof.
  intros Hin. unfold latest_step.
  destruct (Datum.countryiso3code it) as [k |] eqn:Ek; [| reflexivity].
  destruct (String.eqb k "" || negb (isFiniteNum (Number (Datum.date it)))
            || is_nullish (Datum.value it)) eqn:Eskip; [reflexivity |].
  assert (Hq : row_is_for k it = true).
  { unfold row_is_for, qualifies, str_is. rewrite Ek, String.eqb_refl.
    apply orb_false_elim in Eskip as [Eskip E3].
    apply orb_false_elim in Eskip as [E1 E2].
    apply negb_false_iff in E2. now rewrite E1, E2, E3. }
  assert (Hobs : In (entry_of it) (observations k rows)).
  { unfold observations. apply in_map, filter_In. now split. }
  pose proof (latestRows_first_of_max rows k) as H.
  destruct (map_get (latestRows rows) k) as [e |].
  - apply first_of_max_at_max in H;
      [| intros o; apply observations_finite_year].
    destruct H as [_ Hmax]. specialize (Hmax _ Hobs). cbn [entry_of Latest.year] in Hmax.
    now rewrite (jle_not_jgt _ _ Hmax).
  - rewrite H in Hobs. contradiction.
Qed.

(** X8.  Rows that were already part of the feed change nothing when they
    come again: the lookup of a feed followed by any of its own rows is
    the lookup of the feed. *)
Theorem latestRows_repeated_rows (rows again : list Datum.t) :
  (forall it, In it again -> In it rows) ->
  latestRows (rows ++ again) = latestRows rows.
Proof.
  intros Hsub. unfold latestRows at 1. rewrite fold_left_app.
  fold (latestRows rows).
  induction again as [| it again IH]; simpl; [reflexivity |].
  rewrite latest_step_seen by (apply Hsub; now left).
  apply IH. intros x Hx. apply Hsub. now right.
Qed.

Lemma latestRows_repeated_rows_witness :
  latestRows ([obs "USA" "2020" (JNum (Fin 1)); obs "USA" "2021" (JNum (Fin 2))]
              ++ [obs "USA" "2020" (JNum (Fin 1))])
  = latestRows [obs "USA" "2020" (JNum (Fin 1)); obs "USA" "2021" (JNum (Fin 2))].
Proof.
  apply latestRows_repeated_rows.
  intros it [<- | []]. left. reflexivity.
Defined.

(** ** Scores: monotone in GDP, saturated by the clamps *)

Lemma segMedian_with_gdp countries ind gdp' s :
  segMedian countries (with_gdp ind gdp') s = segMedian countries ind s.
Proof.
  destruct (segMedian_spec countries (with_gdp ind gdp') s) as (A1 & A2 & A3 & A4).
  destruct (segMedian_spec countries ind s) as (B1 & B2 & B3 & B4).
  cbn [with_gdp mcapPct creditPct gdpPc netPct] in A1, A2, A3, A4.
  destruct (segMedian countries (with_gdp ind gdp') s),
    (segMedian countries ind s); simpl in *. congruence.
Qed.

Lemma composite_positive g m c w n : 0 < composite g m c w n.
Proof. unfold composite. repeat apply Rmult_lt_0_compat; apply Rpower_pos. Qed.

(** X9.  Other things equal, a larger GDP never gives a smaller score:
    when only the GDP lookup changes and the GDP of a country goes from
    [g1 > 0] to [g2 >= g1], its score stays positive and does not go
    down (no indicator of the country being NaN). *)
Theorem score_not_decreasing_in_gdp (countries : list Country.t) (ind : Indicators)
    (gdp' : jsmap Latest.t) (s : Segment) (iso3 : string) (g1 g2 : R) :
  value_of (gdp ind) iso3 = Some (Fin g1) ->
  value_of gdp' iso3 = Some (Fin g2) ->
  0 < g1 <= g2 ->
  no_nan_indicator ind iso3 ->
  exists s1 s2,
    score_of ind (segMedian countries ind s) iso3 = Fin s1
    /\ score_of (with_gdp ind gdp') (segMedian countries (with_gdp ind gdp') s) iso3
       = Fin s2
    /\ 0 < s1 <= s2.
Proof.
  intros G1 G2 [Hpos Hlt] (Hm & Hc & Hw & Hn).
  rewrite segMedian_with_gdp.
  rewrite (score_of_spec ind _ iso3 g1 G1 Hpos).
  rewrite (score_of_spec (with_gdp ind gdp') _ iso3 g2) by (assumption || lra).
  unfold resolved_mcap, resolved_credit, resolved_gdppc, resolved_net.
  cbn [with_gdp mcapPct creditPct gdpPc netPct].
  destruct (segMedian_finite countries ind s) as (m0 & c0 & w0 & n0 & ->).
  cbn [Med.mcap Med.credit Med.gdppc Med.net].
  unfold claimed_score.
  destruct (clamp_real_defined _ 0 400 (resolved_not_nan _ m0 Hm)) as [m ->].
  destruct (clamp_real_defined _ 0 300 (resolved_not_nan _ c0 Hc)) as [c ->].
  destruct (clamp_real_defined _ 0 80000 (resolved_not_nan _ w0 Hw)) as [w ->].
  destruct (clamp_real_defined _ 0 100 (resolved_not_nan _ n0 Hn)) as [n ->].
  eexists. eexists. split; [reflexivity |]. split; [reflexivity |].
  assert (Ho : 0 < office_multiplier iso3)
    by (unfold office_multiplier; destruct (set_has _ _); lra).
  assert (Hz : 0 < near_zero_multiplier iso3)
    by (unfold near_zero_multiplier; destruct (set_has _ _); lra).
  destruct (hub_value iso3) as [_ Hh].
  assert (Hk : 0 < hub_multiplier iso3 * office_multiplier iso3
                   * near_zero_multiplier iso3)
    by (repeat apply Rmult_lt_0_compat; assumption).
  assert (Hcmp : composite g1 m c w n <= composite g2 m c w n).
  { destruct (Req_dec g1 g2) as [-> | Hne]; [lra |]. left.
    unfold composite.
    repeat (apply Rmult_lt_compat_r; [apply Rpower_pos |]).
    apply Rlt_Rpower_l; lra. }
  pose proof (composite_positive g1 m c w n) as Hc1.
  split.
  - rewrite !Rmult_assoc. apply Rmult_lt_0_compat; [assumption |].
    rewrite <- !Rmult_assoc. assumption.
  - rewrite !Rmult_assoc. apply Rmult_le_compat_r; [| assumption].
    rewrite <- !Rmult_assoc. lra.
Qed.

Lemma score_not_decreasing_in_gdp_witness :
  exists s1 s2,
    score_of sample_indicators
      (segMedian sample_countries sample_indicators AMERICAS) "USA" = Fin s1
    /\ score_of (with_gdp sample_indicators [("USA", at_year 2023 2000)])
         (segMedian sample_countries
            (with_gdp sample_indicators [("USA", at_year 2023 2000)]) AMERICAS)
         "USA" = Fin s2
    /\ 0 < s1 <= s2.
Proof.
  apply (score_not_decreasing_in_gdp sample_countries sample_indicators
           [("USA", at_year 2023 2000)] AMERICAS "USA" 1000 2000).
  - reflexivity.
  - reflexivity.
  - lra.
  - unfold no_nan_indicator. run. repeat split; discriminate.
Defined.

Lemma clamp_real_saturated a b lo hi :
  lo <= hi ->
  (hi <= a /\ hi <= b) \/ (a <= lo /\ b <= lo) ->
  clamp_real (Fin a) lo hi = clamp_real (Fin b) lo hi.
Proof.
  intros Hle H. simpl. f_equal. unfold Rmax, Rmin.
  destruct (Rle_dec hi a), (Rle_dec hi b), (Rle_dec lo hi), (Rle_dec lo a),
    (Rle_dec lo b); lra.
Qed.

(** X10.  The clamp saturates the market-cap reading: two readings of a
    country that are both at or above 400, or both at or below 0, give
    the same score when its GDP, its three other readings and the
    medians used for them are the same. *)
Theorem score_saturates_on_market_cap (ind ind' : Indicators) (med med' : Med.t)
    (iso3 : string) (g a b : R) :
  value_of (gdp ind) iso3 = Some (Fin g) ->
  value_of (gdp ind') iso3 = Some (Fin g) ->
  0 < g ->
  value_of (mcapPct ind) iso3 = Some (Fin a) ->
  value_of (mcapPct ind') iso3 = Some (Fin b) ->
  (400 <= a /\ 400 <= b) \/ (a <= 0 /\ b <= 0) ->
  resolved_credit ind med iso3 = resolved_credit ind' med' iso3 ->
  resolved_gdppc ind med iso3 = resolved_gdppc ind' med' iso3 ->
  resolved_net ind med iso3 = resolved_net ind' med' iso3 ->
  score_of ind med iso3 = score_of ind' med' iso3.
Proof.
  intros G G' Hpos Ha Hb Hsat Ec Ew En.
  rewrite (score_of_spec ind med iso3 g G Hpos).
  rewrite (score_of_spec ind' med' iso3 g G' Hpos).
  rewrite Ec, Ew, En. unfold resolved_mcap. rewrite Ha, Hb.
  cbn [nullish]. unfold claimed_score.
  now rewrite (clamp_real_saturated a b 0 400) by (lra || assumption).
Qed.

Lemma score_saturates_on_market_cap_witness :
  score_of (with_mcap sample_indicators [("USA", at_year 2022 450)])
    (segMedian sample_countries
       (with_mcap sample_indicators [("USA", at_year 2022 450)]) AMERICAS) "USA"
  = score_of (with_mcap sample_indicators [("USA", at_year 2022 900)])
      (segMedian sample_countries
         (with_mcap sample_indicators [("USA", at_year 2022 900)]) AMERICAS) "USA".
Proof.
  apply (score_saturates_on_market_cap _ _ _ _ "USA" 1000 450 900);
    try reflexivity; try lra.
Defined.

(** ** Allocation: proportional to the scores *)

Lemma Rsum_ge_member xs x :
  Forall (fun y => 0 < y) xs -> In x xs -> x <= Rsum xs.
Proof.
  induction 1 as [| y xs Hy Hall IH]; simpl; [intros [] |].
  assert (0 <= Rsum xs) by (clear -Hall; induction Hall; simpl; lra).
  intros [-> | Hin]; [lra |]. specialize (IH Hin). lra.
Qed.

Lemma In_map_Fin x xs : In (Fin x) (List.map Fin xs) -> In x xs.
Proof.
  rewrite in_map_iff. intros (y & E & Hin). inversion E. now subst.
Qed.

(** A row of a segment without NaN: score, sum and revenue are positive
    reals, and the score is at most the sum. *)
Lemma row_revenue_le countries ind s c :
  (forall c, In c countries -> Country.seg c = Some s ->
             no_nan_indicator ind (Country.iso3 c)) ->
  In c countries -> Country.seg c = Some s ->
  exists x S,
    map_get (scores countries ind s) (Country.iso3 c) = Some (Fin x)
    /\ score_sum (scores countries ind s) = Fin S
    /\ 0 < x <= S
    /\ revenue_of countries ind s c = Fin (anchor s * (x / S)).
Proof.
  intros Hnan Hin Hseg.
  destruct (row_revenue countries ind s Hnan c Hin Hseg)
    as (x & S & Hx & Hxpos & HS & HSpos & Hrev).
  exists x, S.
  assert (Hget : map_get (scores countries ind s) (Country.iso3 c) = Some (Fin x)).
  { rewrite (scores_get countries ind c s Hin Hseg). now rewrite Hx. }
  repeat split; try assumption.
  destruct (positive_reals _ snd (scores countries ind s)) as (xs & Hxs & Hall).
  { intros [k v] Hkv. unfold scores in Hkv.
    apply scores_fold_entries in Hkv as [[] | (c' & Hin' & Hseg' & E)].
    inversion E; subst. simpl. apply score_of_positive. now apply Hnan. }
  assert (Hmem : In x xs).
  { apply In_map_Fin. rewrite <- Hxs. now apply (map_get_In _ (Country.iso3 c)). }
  unfold score_sum, map_values in HS. rewrite Hxs, fold_jadd_Fin in HS.
  inversion HS. pose proof (Rsum_ge_member xs x Hall Hmem). lra.
Qed.



(** ** The grand total *)

Lemma existsb_false_filter {A} (p : A -> bool) l :
  existsb p l = false -> filter p l = [].
Proof.
  induction l as [| a l IH]; simpl; [reflexivity |].
  destruct (p a); simpl; [discriminate | exact IH].
Qed.

Lemma segment_revenues_any countries ind s :
  NoDup (List.map Country.iso3 countries) ->
  (forall c, In c countries -> Country.seg c = Some s ->
             no_nan_indicator ind (Country.iso3 c)) ->
  exists ys,
    List.map Alloc.revenueMillions (alloc_segment countries (scores countries ind) s)
    = List.map Fin ys
    /\ Rsum ys = anchor_if_populated countries s
    /\ Forall (fun y => 0 < y <= anchor s) ys.
Proof.
  intros Hnd Hnan. unfold anchor_if_populated.
  destruct (existsb (in_segment s) countries) eqn:E.
  - apply existsb_exists in E as (c0 & Hin0 & Hs0). apply in_segment_true in Hs0.
    destruct (segment_revenues countries ind s Hnd Hnan) as (ys & Hys & Hsum);
      [eauto |].
    exists ys. split; [exact Hys |]. split; [exact Hsum |].
    apply Forall_forall. intros y Hy.
    assert (Hy' : In (Fin y) (List.map Fin ys)) by now apply in_map.
    rewrite <- Hys, alloc_segment_revenues in Hy'.
    apply in_map_iff in Hy' as (c & Hc & Hcin).
    apply filter_In in Hcin as [Hcin Hcs]. apply in_segment_true in Hcs.
    destruct (row_revenue_le countries ind s c Hnan Hcin Hcs)
      as (x & S & _ & _ & [Hx Hle] & Hrev).
    rewrite Hrev in Hc. inversion Hc; subst y.
    destruct (anchor_value s) as [_ Ha].
    assert (0 < S) by lra.
    assert (0 < x / S) by (now apply Rdiv_lt_0_compat).
    assert (x / S <= 1).
    { unfold Rdiv. apply (Rmult_le_reg_r S); [assumption |].
      rewrite Rmult_assoc, Rinv_l by lra. lra. }
    split; [now apply Rmult_lt_0_compat |].
    rewrite <- (Rmult_1_r (anchor s)) at 2.
    apply Rmult_le_compat_l; lra.
  - exists []. unfold alloc_segment.
    rewrite (existsb_false_filter _ _ E). repeat split; constructor.
Qed.

Lemma anchor_if_populated_bounds countries s :
  0 <= anchor_if_populated countries s.
Proof.
  unfold anchor_if_populated. destruct (anchor_value s) as [_ H].
  destruct (existsb _ _); lra.
Qed.

Lemma total_revenue_value countries ind :
  NoDup (List.map Country.iso3 countries) ->
  (forall c s, In c countries -> Country.seg c = Some s ->
               no_nan_indicator ind (Country.iso3 c)) ->
  sum_revenue (allocations countries ind)
  = Fin (anchor_if_populated countries AMERICAS
         + anchor_if_populated countries EMEA
         + anchor_if_populated countries APAC).
Proof.
  intros Hnd Hnan.
  destruct (segment_revenues_any countries ind AMERICAS Hnd
              (fun c Hin Hs => Hnan c AMERICAS Hin Hs)) as (ya & Ha & Sa & _).
  destruct (segment_revenues_any countries ind EMEA Hnd
              (fun c Hin Hs => Hnan c EMEA Hin Hs)) as (ye & He & Se & _).
  destruct (segment_revenues_any countries ind APAC Hnd
              (fun c Hin Hs => Hnan c APAC Hin Hs)) as (yp & Hp & Sp & _).
  unfold sum_revenue. rewrite allocations_segments.
  rewrite (fold_revenue _ 0 (ya ++ ye ++ yp)).
  - rewrite !Rsum_app. f_equal; lra.
  - rewrite !map_app. now rewrite Ha, He, Hp.
Qed.



(** ** Global shares *)

Lemma allocations_rows countries ind row :
  In row (allocations countries ind) ->
  exists s c,
    In c countries /\ Country.seg c = Some s
    /\ row = alloc_row (scores countries ind s)
               (score_sum (scores countries ind s)) s c.
Proof.
  rewrite allocations_segments. intros H.
  assert (G : forall s, In row (alloc_segment countries (scores countries ind) s) ->
              exists s c,
                In c countries /\ Country.seg c = Some s
                /\ row = alloc_row (scores countries ind s)
                           (score_sum (scores countries ind s)) s c).
  { intros s Hs. unfold alloc_segment in Hs.
    apply in_map_iff in Hs as (c & <- & Hc). apply filter_In in Hc as [Hin Hseg].
    apply in_segment_true in Hseg. exists s, c. auto. }
  repeat (apply in_app_or in H as [H | H]); eauto.
Qed.

Lemma in_segment_populated countries s c :
  In c countries -> Country.seg c = Some s ->
  anchor_if_populated countries s = anchor s.
Proof.
  intros Hin Hseg. unfold anchor_if_populated.
  replace (existsb (in_segment s) countries) with true; [reflexivity |].
  symmetry. apply existsb_exists. exists c. split; [assumption |].
  now apply in_segment_true.
Qed.

Section Shares.
Variables (countries : list Country.t) (ind : Indicators).
Hypothesis distinct : NoDup (List.map Country.iso3 countries).
Hypothesis no_nan :
  forall c s, In c countries -> Country.seg c = Some s ->
              no_nan_indicator ind (Country.iso3 c).

Let T : R :=
  anchor_if_populated countries AMERICAS + anchor_if_populated countries EMEA
  + anchor_if_populated countries APAC.

Lemma row_share row :
  In row (allocations countries ind) ->
  exists r sh,
    Alloc.revenueMillions row = Fin r
    /\ global_share (sum_revenue (allocations countries ind)) row = Fin sh
    /\ 0 < r /\ 0 < sh <= 1 /\ sh * T = r.
Proof.
  intros Hrow. apply allocations_rows in Hrow as (s & c & Hin & Hseg & ->).
  destruct (row_revenue_le countries ind s c
              (fun c Hin Hs => no_nan c s Hin Hs) Hin Hseg)
    as (x & S & _ & _ & [Hx Hle] & Hrev).
  unfold revenue_of in Hrev.
  rewrite (total_revenue_value countries ind distinct no_nan). fold T.
  destruct (anchor_value s) as [_ Ha].
  assert (HS : 0 < S) by lra.
  assert (Hq : 0 < x / S) by now apply Rdiv_lt_0_compat.
  assert (Hq1 : x / S <= 1).
  { unfold Rdiv. apply (Rmult_le_reg_r S); [assumption |].
    rewrite Rmult_assoc, Rinv_l by lra. lra. }
  set (r := anchor s * (x / S)) in *.
  assert (Hr : 0 < r) by now apply Rmult_lt_0_compat.
  assert (Hra : r <= anchor s).
  { unfold r. rewrite <- (Rmult_1_r (anchor s)) at 2.
    apply Rmult_le_compat_l; lra. }
  assert (HT : anchor s <= T).
  { pose proof (anchor_if_populated_bounds countries AMERICAS).
    pose proof (anchor_if_populated_bounds countries EMEA).
    pose proof (anchor_if_populated_bounds countries APAC).
    pose proof (in_segment_populated countries s c Hin Hseg) as E.
    unfold T. destruct s; lra. }
  assert (HTpos : 0 < T) by lra.
  exists r, (r / T). unfold global_share. rewrite Hrev.
  cbn [jgt jlt jdiv].
  replace (Rltb 0 T) with true by (symmetry; now apply Rltb_true).
  replace (Reqb T 0) with false by (symmetry; apply Reqb_false; lra).
  repeat split; try assumption.
  - now apply Rdiv_lt_0_compat.
  - unfold Rdiv. apply (Rmult_le_reg_r T); [assumption |].
    rewrite Rmult_assoc, Rinv_l by lra. lra.
  - field. lra.
Qed.

Lemma detail_share d iso3ToAlpha2 :
  In d (countryDetails (assemble countries iso3ToAlpha2 ind)) ->
  exists r sh,
    Detail.revenueMillions d = Fin r /\ Detail.share d = Fin sh
    /\ 0 <= r /\ 0 <= sh <= 1 /\ sh * T = r.
Proof.
  rewrite countryDetails_spec by assumption.
  intros H. apply in_app_or in H as [H | H].
  - apply in_map_iff in H as (row & <- & Hrow).
    destruct (row_share row Hrow) as (r & sh & Hr & Hsh & Hpos & Hb & E).
    exists r, sh. cbn [detail_of_row Detail.revenueMillions Detail.share].
    repeat split; try assumption; lra.
  - apply in_map_iff in H as (c & <- & _).
    exists 0, 0. cbn [detail_of_country Detail.revenueMillions Detail.share].
    repeat split; lra.
Qed.
End Shares.

(** X13.  When the country codes are distinct and no indicator of a
    scored country is NaN, every entry of the output table has a revenue
    that is not negative and a share between 0 and 1, and the share is
    the revenue divided by the reported total. *)
Theorem shares_between_zero_and_one (countries : list Country.t)
    (iso3ToAlpha2 : jsmap string) (ind : Indicators) :
  NoDup (List.map Country.iso3 countries) ->
  (forall c s, In c countries -> Country.seg c = Some s ->
               no_nan_indicator ind (Country.iso3 c)) ->
  exists T,
    totalRevenueMillions (assemble countries iso3ToAlpha2 ind) = Fin T
    /\ forall d, In d (countryDetails (assemble countries iso3ToAlpha2 ind)) ->
         exists r sh,
           Detail.revenueMillions d = Fin r /\ Detail.share d = Fin sh
           /\ 0 <= r /\ 0 <= sh <= 1 /\ sh * T = r.
Proof.
  intros Hnd Hnan. eexists. split.
  - rewrite assemble_total. now apply total_revenue_value.
  - intros d Hd. now apply (detail_share countries ind Hnd Hnan d iso3ToAlpha2).
Qed.

Lemma shares_between_zero_and_one_witness :
  exists T,
    totalRevenueMillions (assemble sample_countries [] sample_indicators) = Fin T
    /\ forall d, In d (countryDetails (assemble sample_countries [] sample_indicators)) ->
         exists r sh,
           Detail.revenueMillions d = Fin r /\ Detail.share d = Fin sh
           /\ 0 <= r /\ 0 <= sh <= 1 /\ sh * T = r.
Proof.
  apply shares_between_zero_and_one.
  - repeat constructor; simpl; intuition discriminate.
  - intros c s Hin _. simpl in Hin.
    repeat destruct Hin as [<- | Hin]; try contradiction;
      unfold no_nan_indicator; run; repeat split; discriminate.
Defined.

(** ** The greatest share *)

Lemma Rmax_list_spec l : forall m0,
  m0 <= Rmax_list m0 l
  /\ Forall (fun y => y <= Rmax_list m0 l) l
  /\ (Rmax_list m0 l = m0 \/ In (Rmax_list m0 l) l).
Proof.
  unfold Rmax_list.
  induction l as [| y l IH]; intros m0; simpl.
  - split; [lra |]. split; [constructor | now left].
  - destruct (IH (Rmax m0 y)) as (H1 & H2 & H3).
    pose proof (Rmax_l m0 y). pose proof (Rmax_r m0 y).
    split; [lra |]. split.
    + constructor; [lra | exact H2].
    + destruct H3 as [E | Hin]; [| right; now right].
      rewrite E. unfold Rmax. destruct (Rle_dec m0 y); [right; now left | now left].
Qed.

Lemma maxShare_fold total rows : forall i m0 ys,
  List.map (global_share total) rows = List.map Fin ys ->
  snd (fold_left (intensity_step total) rows (i, Fin m0))
  = Fin (Rmax_list m0 ys).
Proof.
  induction rows as [| row rows IH]; intros i m0 ys H; destruct ys as [| y ys];
    try discriminate; [reflexivity |].
  simpl in H. inversion H as [[Hy Hys]]. cbn [fold_left].
  assert (E : intensity_step total (i, Fin m0) row
              = (map_set i (toUpperCase (Alloc.iso3 row)) (Fin y),
                 Fin (Rmax m0 y))).
  { unfold intensity_step. rewrite Hy. cbn [jgt jlt]. f_equal.
    unfold Rmax, Rltb. destruct (Rle_dec m0 y), (Rlt_dec m0 y);
      try reflexivity; f_equal; lra. }
  rewrite E. change (Rmax_list m0 (y :: ys)) with (Rmax_list (Rmax m0 y) ys).
  now apply IH.
Qed.

Lemma finite_reals (A : Type) (f : A -> num) (P : R -> Prop) (l : list A) :
  (forall a, In a l -> exists x, f a = Fin x /\ P x) ->
  exists xs, List.map f l = List.map Fin xs /\ Forall P xs.
Proof.
  induction l as [| a l IH]; intros H.
  - exists []. split; constructor.
  - destruct (H a (or_introl eq_refl)) as (x & Hx & Hp).
    destruct IH as (xs & Hxs & Hall).
    { intros b Hb. apply H. now right. }
    exists (x :: xs). simpl. rewrite Hx, Hxs. split; [reflexivity |].
    now constructor.
Qed.

Lemma assemble_maxShare countries a2 ind :
  maxShare (assemble countries a2 ind)
  = snd (fold_left (intensity_step (sum_revenue (allocations countries ind)))
           (allocations countries ind) ([], Fin 0)).
Proof.
  unfold assemble.
  destruct (fold_left (intensity_step _) _ _) as [i0 mx].
  destruct (fold_left (fill_step _ _) _ _) as [i1 dm].
  reflexivity.
Qed.

(** X14.  When the country codes are distinct and no indicator of a
    scored country is NaN, [maxShare] is a number between 0 and 1 that
    no share of the output table exceeds; it is the share of one of the
    entries, unless no country has a segment, when it is 0. *)
Theorem maxShare_is_greatest_share (countries : list Country.t)
    (iso3ToAlpha2 : jsmap string) (ind : Indicators) :
  NoDup (List.map Country.iso3 countries) ->
  (forall c s, In c countries -> Country.seg c = Some s ->
               no_nan_indicator ind (Country.iso3 c)) ->
  let p := assemble countries iso3ToAlpha2 ind in
  exists m,
    maxShare p = Fin m /\ 0 <= m <= 1
    /\ (forall d, In d (countryDetails p) ->
          exists sh, Detail.share d = Fin sh /\ sh <= m)
    /\ ((m = 0 /\ allocations countries ind = [])
        \/ exists d, In d (countryDetails p) /\ Detail.share d = Fin m).
Proof.
  intros Hnd Hnan p. unfold p.
  set (total := sum_revenue (allocations countries ind)).
  destruct (finite_reals _ (global_share total) (fun sh => 0 < sh <= 1)
              (allocations countries ind)) as (ys & Hys & Hall).
  { intros row Hrow.
    destruct (row_share countries ind Hnd Hnan row Hrow)
      as (r & sh & _ & Hsh & _ & Hb & _).
    exists sh. split; assumption. }
  rewrite assemble_maxShare. fold total. rewrite (maxShare_fold total _ _ 0 ys Hys).
  destruct (Rmax_list_spec ys 0) as (H0 & Hge & Hmem).
  exists (Rmax_list 0 ys). split; [reflexivity |]. split; [| split].
  - split; [exact H0 |]. destruct Hmem as [-> | Hin]; [lra |].
    rewrite Forall_forall in Hall. now apply Hall.
  - intros d Hd. rewrite countryDetails_spec in Hd by assumption.
    apply in_app_or in Hd as [Hd | Hd].
    + apply in_map_iff in Hd as (row & <- & Hrow).
      cbn [detail_of_row Detail.share]. fold total.
      assert (Hin : In (global_share total row)
                      (List.map (global_share total) (allocations countries ind)))
        by now apply in_map.
      rewrite Hys in Hin. apply in_map_iff in Hin as (y & Ey & Hy).
      exists y. split; [now symmetry |].
      rewrite Forall_forall in Hge. now apply Hge.
    + apply in_map_iff in Hd as (c & <- & _).
      exists 0. cbn [detail_of_country Detail.share]. split; [reflexivity | exact H0].
  - destruct ys as [| y ys].
    + left. split; [reflexivity |].
      destruct (allocations countries ind); [reflexivity | discriminate].
    + right. destruct Hmem as [E | Hin].
      * exfalso. rewrite Forall_forall in Hall, Hge.
        assert (0 < y) by (apply Hall; now left).
        assert (y <= Rmax_list 0 (y :: ys)) by (apply Hge; now left). lra.
      * assert (Hin' : In (Fin (Rmax_list 0 (y :: ys)))
                         (List.map (global_share total) (allocations countries ind))).
        { rewrite Hys. now apply in_map. }
        apply in_map_iff in Hin' as (row & Erow & Hrow).
        exists (detail_of_row
                  (map_of_entries (List.map (fun c => (Country.iso3 c, c)) countries))
                  iso3ToAlpha2 (pop ind) total row).
        split; [| exact Erow].
        rewrite countryDetails_spec by assumption.
        apply in_or_app. left. fold total. now apply in_map.
Qed.

Lemma maxShare_is_greatest_share_witness :
  let p := assemble sample_countries [] sample_indicators in
  exists m,
    maxShare p = Fin m /\ 0 <= m <= 1
    /\ (forall d, In d (countryDetails p) ->
          exists sh, Detail.share d = Fin sh /\ sh <= m)
    /\ ((m = 0 /\ allocations sample_countries sample_indicators = [])
        \/ exists d, In d (countryDetails p) /\ Detail.share d = Fin m).
Proof.
  apply maxShare_is_greatest_share.
  - repeat constructor; simpl; intuition discriminate.
  - intros c s Hin _. simpl in Hin.
    repeat destruct Hin as [<- | Hin]; try contradiction;
      unfold no_nan_indicator; run; repeat split; discriminate.
Defined.

(** ** The output table and the intensities, entry by entry *)

Lemma map_get_map_nodup {A V} (key : A -> string) (val : A -> V) l a :
  NoDup (List.map key l) -> In a l ->
  map_get (List.map (fun a => (key a, val a)) l) (key a) = Some (val a).
Proof.
  induction l as [| b l IH]; simpl; intros Hnd Hin; [contradiction |].
  inversion Hnd as [| ? ? Hnotin Hnd']; subst.
  destruct Hin as [-> | Hin].
  - now rewrite String.eqb_refl.
  - destruct (String.eqb (key b) (key a)) eqn:E; [| now apply IH].
    apply String.eqb_eq in E. exfalso. apply Hnotin. rewrite E. now apply in_map.
Qed.

Lemma countryMap_get countries c :
  NoDup (List.map Country.iso3 countries) -> In c countries ->
  map_get (map_of_entries (List.map (fun c => (Country.iso3 c, c)) countries))
    (Country.iso3 c) = Some c.
Proof.
  intros Hnd Hin. unfold map_of_entries.
  rewrite (fold_map_set_nodup fst snd).
  - cbn [app]. rewrite map_map. cbn [fst snd].
    apply (map_get_map_nodup Country.iso3 (fun c => c)); assumption.
  - now rewrite map_map.
  - reflexivity.
Qed.

Lemma entry_for_in_table countries a2 ind c :
  NoDup (List.map Country.iso3 countries) -> In c countries ->
  In (entry_for countries a2 ind c) (countryDetails (assemble countries a2 ind)).
Proof.
  intros Hnd Hin. rewrite countryDetails_spec by assumption.
  unfold entry_for. destruct (Country.seg c) as [s |] eqn:Hs.
  - apply in_or_app. left.
    set (row := alloc_row (scores countries ind s)
                  (score_sum (scores countries ind s)) s c).
    assert (Hrow : In row (allocations countries ind)).
    { rewrite allocations_segments.
      assert (Hr : In row (alloc_segment countries (scores countries ind) s)).
      { unfold alloc_segment. apply in_map, filter_In.
        split; [assumption | now apply in_segment_true]. }
      destruct s; repeat (apply in_or_app; (left; exact Hr) || right); exact Hr. }
    apply in_map_iff. exists row. split; [| exact Hrow].
    unfold detail_of_row. cbn [row alloc_row Alloc.iso3 Alloc.country Alloc.segment
      Alloc.revenueMillions Alloc.office Alloc.hub Alloc.nearZero].
    rewrite (countryMap_get countries c Hnd Hin). reflexivity.
  - apply in_or_app. right. apply in_map_iff. exists c. split.
    + unfold detail_of_country. now rewrite Hs.
    + apply filter_In. split; [assumption |]. unfold no_segment. now rewrite Hs.
Qed.

(** X15.  Under distinct country codes the entry of a country in the
    output table is made of the country's own record and lookups: its
    name, its region (or the empty string), the revenue of its allocation
    row and that revenue over the total (both 0 without segment), its
    population reading, the flag of its own two-letter code (else the one
    noted for the code, else the first two characters of the code), the
    name of its segment (or the empty string) and its office, hub and
    near-zero flags. *)
Theorem table_entry_of_country (countries : list Country.t)
    (iso3ToAlpha2 : jsmap string) (ind : Indicators) (c : Country.t) :
  NoDup (List.map Country.iso3 countries) ->
  In c countries ->
  filter (fun d => String.eqb (Detail.iso3 d) (Country.iso3 c))
    (countryDetails (assemble countries iso3ToAlpha2 ind))
  = [entry_for countries iso3ToAlpha2 ind c].
Proof.
  intros Hnd Hin.
  change (Country.iso3 c) with (Detail.iso3 (entry_for countries iso3ToAlpha2 ind c)).
  apply filter_by_key.
  - eapply Permutation_NoDup; [apply Permutation_sym, countryDetails_iso3 |];
      assumption.
  - now apply entry_for_in_table.
Qed.

Lemma table_entry_of_country_witness :
  filter (fun d => String.eqb (Detail.iso3 d) "ATA")
    (countryDetails (assemble sample_countries [] sample_indicators))
  = [entry_for sample_countries [] sample_indicators
       (Country.mk "ATA" (Some "AQ") "Antarctica" (Some "") (Some "") None)].
Proof.
  apply (table_entry_of_country sample_countries [] sample_indicators
           (Country.mk "ATA" (Some "AQ") "Antarctica" (Some "") (Some "") None)).
  - repeat constructor; simpl; intuition discriminate.
  - simpl. auto 6.
Defined.

Lemma intensity_fold_fst total rows : forall i m,
  fst (fold_left (intensity_step total) rows (i, m))
  = fold_left
      (fun i row => map_set i (toUpperCase (Alloc.iso3 row)) (global_share total row))
      rows i.
Proof.
  induction rows as [| row rows IH]; intros i m; [reflexivity |].
  cbn [fold_left]. unfold intensity_step at 2. apply IH.
Qed.

Lemma fill_fold_fst a2 pop cs : forall i dm,
  NoDup (List.map Country.iso3 cs) ->
  (forall c, In c cs -> no_segment c = false ->
             map_has dm (Country.iso3 c) = true) ->
  (forall c, In c cs -> no_segment c = true ->
             map_get dm (Country.iso3 c) = None
             /\ map_get i (Country.iso3 c) = None) ->
  fst (fold_left (fill_step a2 pop) cs (i, dm))
  = i ++ List.map (fun c => (Country.iso3 c, Fin 0)) (filter no_segment cs).
Proof.
  induction cs as [| c cs IH]; intros i dm Hnd Hseg Hnone; simpl.
  - now rewrite app_nil_r.
  - inversion Hnd as [| ? ? Hnotin Hnd']; subst.
    assert (Hother : forall c', In c' cs ->
              String.eqb (Country.iso3 c) (Country.iso3 c') = false).
    { intros c' Hin. apply String.eqb_neq. intros E. apply Hnotin. rewrite E.
      now apply in_map. }
    destruct (no_segment c) eqn:Ec.
    + destruct (Hnone c (or_introl eq_refl) Ec) as [Hd Hi].
      unfold map_has. rewrite Hd, Hi. cbn [nullish].
      rewrite (map_set_fresh dm), (map_set_fresh i) by assumption.
      rewrite IH; [simpl; now rewrite <- app_assoc | assumption | |].
      * intros c' Hin Hc'. unfold map_has. rewrite map_get_app.
        specialize (Hseg c' (or_intror Hin) Hc'). unfold map_has in Hseg.
        now destruct (map_get dm (Country.iso3 c')).
      * intros c' Hin Hc'.
        destruct (Hnone c' (or_intror Hin) Hc') as [Hd' Hi'].
        rewrite !map_get_app, Hd', Hi'. simpl. rewrite (Hother c' Hin). auto.
    + rewrite (Hseg c (or_introl eq_refl) Ec).
      apply IH; [assumption | |]; intros c' Hin; [apply Hseg | apply Hnone];
        now right.
Qed.

Lemma rows_keys_of countries ind :
  (forall c, In c countries -> toUpperCase (Country.iso3 c) = Country.iso3 c) ->
  List.map (fun row => toUpperCase (Alloc.iso3 row)) (allocations countries ind)
  = List.map Alloc.iso3 (allocations countries ind).
Proof.
  intros Hup. apply map_ext_in. intros row Hrow.
  apply allocations_rows in Hrow as (s & c & Hin & _ & ->).
  cbn [alloc_row Alloc.iso3]. now apply Hup.
Qed.

Lemma rows_keys_nodup countries ind :
  NoDup (List.map Country.iso3 countries) ->
  NoDup (List.map Alloc.iso3 (allocations countries ind)).
Proof.
  intros Hnd. rewrite allocations_iso3.
  pose proof (segment_classes Country.iso3 countries) as Hperm.
  assert (Hall : NoDup
            (List.map Country.iso3 (filter (in_segment AMERICAS) countries)
             ++ List.map Country.iso3 (filter (in_segment EMEA) countries)
             ++ List.map Country.iso3 (filter (in_segment APAC) countries)
             ++ List.map Country.iso3 (filter no_segment countries))).
  { eapply Permutation_NoDup; [apply Permutation_sym, Hperm | exact Hnd]. }
  rewrite !app_assoc in Hall. apply NoDup_app_l in Hall.
  now rewrite <- app_assoc in Hall.
Qed.

Lemma rows_key_iff countries ind c :
  NoDup (List.map Country.iso3 countries) -> In c countries ->
  In (Country.iso3 c) (List.map Alloc.iso3 (allocations countries ind))
  <-> no_segment c = false.
Proof.
  intros Hnd Hin. rewrite allocations_iso3. split.
  - intros Habs.
    assert (Hex : exists c' s, In c' countries /\ Country.seg c' = Some s
                               /\ Country.iso3 c' = Country.iso3 c).
    { repeat (apply in_app_or in Habs as [Habs | Habs]);
        apply in_map_iff in Habs as (c' & E & Hf);
        apply filter_In in Hf as [Hin' Hs]; apply in_segment_true in Hs; eauto. }
    destruct Hex as (c' & s & Hin' & Hs & E).
    assert (c' = c) by (eapply NoDup_map_inj; eauto). subst c'.
    unfold no_segment. now rewrite Hs.
  - unfold no_segment. destruct (Country.seg c) as [s |] eqn:Hs; [| discriminate].
    intros _.
    assert (Hc' : In (Country.iso3 c)
                    (List.map Country.iso3 (filter (in_segment s) countries))).
    { apply in_map, filter_In. split; [assumption | now apply in_segment_true]. }
    destruct s; repeat (apply in_or_app; (now left) || right); assumption.
Qed.

Lemma iso3ToIntensity_spec countries a2 ind :
  NoDup (List.map Country.iso3 countries) ->
  (forall c, In c countries -> toUpperCase (Country.iso3 c) = Country.iso3 c) ->
  iso3ToIntensity (assemble countries a2 ind)
  = List.map (fun row => (Alloc.iso3 row,
                          global_share (sum_revenue (allocations countries ind)) row))
      (allocations countries ind)
    ++ List.map (fun c => (Country.iso3 c, Fin 0)) (filter no_segment countries).
Proof.
  intros Hnd Hup.
  pose proof (rows_keys_nodup countries ind Hnd) as Hrows.
  pose proof (rows_keys_of countries ind Hup) as Hkeys.
  unfold assemble.
  set (cm := map_of_entries _). set (total := sum_revenue _).
  pose proof (intensity_fold_fst total (allocations countries ind) [] (Fin 0)) as Hi.
  destruct (fold_left (intensity_step total) _ _) as [i0 mx]. cbn [fst] in Hi.
  rewrite (fold_map_set_nodup (fun row => toUpperCase (Alloc.iso3 row))
             (global_share total)) in Hi
    by (rewrite ?Hkeys; assumption || reflexivity).
  cbn [app] in Hi.
  assert (Hi' : i0 = List.map (fun row => (Alloc.iso3 row, global_share total row))
                       (allocations countries ind)).
  { rewrite Hi. apply map_ext_in. intros row Hrow.
    apply allocations_rows in Hrow as (s & c & Hin & _ & ->).
    cbn [alloc_row Alloc.iso3]. now rewrite Hup. }
  clear Hi.
  rewrite (fold_map_set_nodup Alloc.iso3 (detail_of_row cm a2 (pop ind) total))
    by (assumption || reflexivity).
  cbn [app].
  pose proof (fill_fold_fst a2 (pop ind) countries i0
                (List.map (fun a => (Alloc.iso3 a, detail_of_row cm a2 (pop ind) total a))
                   (allocations countries ind))) as Hfill.
  destruct (fold_left (fill_step a2 (pop ind)) countries _) as [i1 dm].
  cbn [iso3ToIntensity]. cbn [fst] in Hfill. rewrite Hfill.
  - now rewrite Hi'.
  - assumption.
  - intros c Hin Hc. unfold map_has.
    destruct (map_get _ (Country.iso3 c)) eqn:E; [reflexivity |].
    apply map_get_None_keys in E. exfalso. apply E.
    unfold map_keys. rewrite map_map. cbn [fst].
    now apply (rows_key_iff countries ind c Hnd Hin).
  - intros c Hin Hc.
    assert (Hno : ~ In (Country.iso3 c)
                     (List.map Alloc.iso3 (allocations countries ind))).
    { intros Habs. apply (rows_key_iff countries ind c Hnd Hin) in Habs. congruence. }
    split; apply map_get_None_keys; unfold map_keys; rewrite ?Hi', map_map;
      cbn [fst]; exact Hno.
Qed.

(** X16.  The colour intensities agree with the table: under distinct
    country codes, the intensity stored for the code of every parsed
    country is the share of its table entry, which is 0 for a country
    without segment. *)
Theorem intensity_is_table_share (isoCsv : string)
    (gdpJson mcapJson creditJson gdpPcJson netJson popJson : WbJson)
    (c : Country.t) :
  let countries := fst (parseCountries isoCsv) in
  let p :=
    buildExposureData isoCsv gdpJson mcapJson creditJson gdpPcJson netJson
      popJson in
  NoDup (List.map Country.iso3 countries) ->
  In c countries ->
    exists d,
      filter (fun d => String.eqb (Detail.iso3 d) (Country.iso3 c)) (countryDetails p)
      = [d]
      /\ map_get (iso3ToIntensity p) (Country.iso3 c) = Some (Detail.share d)
      /\ (Country.seg c = None -> Detail.share d = Fin 0).
Proof.
  intros countries p Hnd Hin.
  pose proof (parsed_records_upper isoCsv) as Hcons. fold countries in Hcons.
  unfold p, buildExposureData. subst countries.
  destruct (parseCountries isoCsv) as [cs a2]. cbn [fst] in *.
  set (ind := mkIndicators _ _ _ _ _ _).
  exists (entry_for cs a2 ind c). split; [| split].
  - change (Country.iso3 c) with (Detail.iso3 (entry_for cs a2 ind c)).
    apply filter_by_key.
    + eapply Permutation_NoDup; [apply Permutation_sym, countryDetails_iso3 |];
        assumption.
    + now apply entry_for_in_table.
  - rewrite iso3ToIntensity_spec;
      [| assumption | exact Hcons].
    rewrite map_get_app. unfold entry_for. cbn [Detail.share].
    destruct (Country.seg c) as [s |] eqn:Hs.
    + set (row := alloc_row (scores cs ind s) (score_sum (scores cs ind s)) s c).
      assert (Hrow : In row (allocations cs ind)).
      { rewrite allocations_segments.
        assert (Hr : In row (alloc_segment cs (scores cs ind) s)).
        { unfold alloc_segment. apply in_map, filter_In.
          split; [assumption | now apply in_segment_true]. }
        destruct s; repeat (apply in_or_app; (left; exact Hr) || right); exact Hr. }
      change (Country.iso3 c) with (Alloc.iso3 row) at 1.
      rewrite (map_get_map_nodup Alloc.iso3
                 (global_share (sum_revenue (allocations cs ind))))
        by (try apply rows_keys_nodup; assumption).
      reflexivity.
    + assert (Hno : no_segment c = true) by (unfold no_segment; now rewrite Hs).
      assert (Hnone : map_get
                (List.map (fun row => (Alloc.iso3 row,
                    global_share (sum_revenue (allocations cs ind)) row))
                   (allocations cs ind)) (Country.iso3 c) = None).
      { apply map_get_None_keys. unfold map_keys. rewrite map_map. cbn [fst].
        intros Habs. apply (rows_key_iff cs ind c Hnd Hin) in Habs. congruence. }
      rewrite Hnone.
      apply (map_get_map_nodup Country.iso3 (fun _ => Fin 0)).
      * now apply NoDup_map_filter.
      * apply filter_In. now split.
  - intros Hs. unfold entry_for. cbn [Detail.share]. now rewrite Hs.
Qed.

Lemma intensity_is_table_share_witness :
  let p :=
    buildExposureData taxonomy_csv gdp_feed mcap_feed_infinite
      (feed []) (feed []) (feed []) (feed []) in
  exists d,
    filter (fun d => String.eqb (Detail.iso3 d) "ATA") (countryDetails p) = [d]
    /\ map_get (iso3ToIntensity p) "ATA" = Some (Detail.share d)
    /\ (@None Segment = None -> Detail.share d = Fin 0).
Proof.
  apply (intensity_is_table_share taxonomy_csv gdp_feed mcap_feed_infinite
           (feed []) (feed []) (feed []) (feed [])
           (Country.mk "ATA" (Some "AQ") "Antarctica" (Some "") (Some "") None)).
  - vm_compute. repeat constructor; simpl; intuition discriminate.
  - vm_compute. auto 10.
Defined.

(** X17.  An empty country list (an empty text, a header alone, or data
    lines that all lack a code or a name) gives an empty table, no
    intensity, total 0 and greatest share 0, whatever the feeds hold. *)
Theorem empty_country_list (isoCsv : string)
    (gdpJson mcapJson creditJson gdpPcJson netJson popJson : WbJson) :
  fst (parseCountries isoCsv) = [] ->
  buildExposureData isoCsv gdpJson mcapJson creditJson gdpPcJson netJson popJson
  = mkPayload [] [] (Fin 0) (Fin 0).
Proof.
  intros H. unfold buildExposureData.
  destruct (parseCountries isoCsv) as [cs a2]. cbn [fst] in H. subst cs.
  reflexivity.
Qed.

Lemma empty_country_list_witness :
  buildExposureData "name,alpha-2,alpha-3,region,sub-region"
    gdp_feed mcap_feed_word (feed []) (feed []) (feed []) (feed [])
  = mkPayload [] [] (Fin 0) (Fin 0).
Proof. apply empty_country_list. reflexivity. Defined.

(** ** The export script *)

Lemma insert_by_perm {A} (cmp : A -> A -> num) x l :
  Permutation (x :: l) (insert_by cmp x l).
Proof.
  induction l as [| y r IH]; cbn [insert_by].
  - apply Permutation_refl.
  - destruct (jgt (cmp x y) (Fin 0)).
    + eapply perm_trans; [apply perm_swap |]. now apply perm_skip.
    + apply Permutation_refl.
Qed.

Lemma sort_by_perm {A} (cmp : A -> A -> num) l : Permutation l (sort_by cmp l).
Proof.
  induction l as [| x l IH]; cbn [sort_by fold_right].
  - apply perm_nil.
  - eapply perm_trans; [apply perm_skip, IH | apply insert_by_perm].
Qed.

Lemma export_compare_total a b :
  finite_revenue a -> finite_revenue b ->
  if jgt (export_compare a b) (Fin 0) then export_before b a
  else export_before a b.
Proof.
  unfold finite_revenue, export_compare, export_before, localeCompare_segment.
  destruct a as [ia ca sa ra oa ha na], b as [ib cb sb rb ob hb nb]; simpl.
  destruct ra as [x | | |]; try discriminate.
  destruct rb as [y | | |]; try discriminate.
  intros _ _.
  destruct sa, sb; simpl; rdec; simpl;
    try (left; lia);
    unfold jgt, jlt, jsub, jadd, jneg;
    destruct (Rlt_dec 0 (y + - x));
      unfold Rltb;
      try (destruct (Rlt_dec 0 (y + - x)); [| contradiction]);
      try (destruct (Rlt_dec 0 (y + - x)); [contradiction |]);
      right; split; try reflexivity; lra.
Qed.

Lemma export_before_trans a b c :
  export_before a b -> export_before b c -> export_before a c.
Proof.
  unfold export_before.
  intros [H1 | [E1 H1]] [H2 | [E2 H2]].
  - left; lia.
  - left. rewrite <- E2. exact H1.
  - left. rewrite E1. exact H2.
  - right. split; [congruence |].
    destruct (Alloc.revenueMillions a), (Alloc.revenueMillions b),
      (Alloc.revenueMillions c); try contradiction; lra.
Qed.

Lemma insert_by_sorted x l :
  finite_revenue x -> Forall finite_revenue l ->
  Sorted export_before l -> Sorted export_before (insert_by export_compare x l).
Proof.
  intros Hx Hl Hs. induction l as [| y r IH]; cbn [insert_by].
  - repeat constructor.
  - inversion Hl as [| ? ? Hy Hr]; subst.
    inversion Hs as [| ? ? Hs' Hhd]; subst.
    pose proof (export_compare_total x y Hx Hy) as T.
    destruct (jgt (export_compare x y) (Fin 0)).
    + constructor; [now apply IH |].
      destruct r as [| z r]; cbn [insert_by].
      * constructor. exact T.
      * inversion Hr as [| ? ? Hz _]; subst.
        pose proof (export_compare_total x z Hx Hz) as T'.
        destruct (jgt (export_compare x z) (Fin 0)).
        -- inversion Hhd; subst. now constructor.
        -- now constructor.
    + constructor; [exact Hs | now constructor].
Qed.

Lemma sort_by_finite l :
  Forall finite_revenue l -> Forall finite_revenue (sort_by export_compare l).
Proof.
  intros H. rewrite Forall_forall in *. intros r Hr. apply H.
  eapply Permutation_in; [apply Permutation_sym, sort_by_perm | exact Hr].
Qed.

(** X18.  The export script orders its rows by segment name, and within
    a segment by revenue, largest first: when every revenue is finite
    the ordered list holds the same rows, and each row stands before
    every later one in that order. *)
Theorem export_rows_ordered (rows : list Alloc.t) :
  Forall finite_revenue rows ->
  Permutation rows (export_order rows)
  /\ StronglySorted export_before (export_order rows).
Proof.
  intros H. split; [apply sort_by_perm |].
  apply Sorted_StronglySorted.
  - intros a b c. apply export_before_trans.
  - unfold export_order. induction rows as [| x l IH]; cbn [sort_by fold_right].
    + constructor.
    + inversion H; subst.
      apply insert_by_sorted; [assumption | now apply sort_by_finite | now apply IH].
Qed.

Lemma export_rows_ordered_witness :
  Permutation export_sample (export_order export_sample)
  /\ StronglySorted export_before (export_order export_sample).
Proof.
  apply export_rows_ordered.
  repeat constructor.
Defined.

(** X19.  A line of the export file reads back: for a row whose code has
    no comma and no quote character, [splitCsvLine] returns the seven
    fields of the row, the country name exactly as it was, whatever
    commas and quote characters it contains. *)
Theorem export_line_reads_back (r : Alloc.t) (fixed : string) :
  plain (Alloc.iso3 r) = true ->
  plain fixed = true ->
  splitCsvLine (export_line r fixed)
  = [ Alloc.iso3 r; Alloc.country r; segment_name (Alloc.segment r); fixed;
      flag_text (Alloc.office r); flag_text (Alloc.hub r);
      flag_text (Alloc.nearZero r) ].
Proof.
  intros Hi Hf.
  assert (E : export_line r fixed
              = join_comma (List.map encode_field
                  [ (false, Alloc.iso3 r); (true, Alloc.country r);
                    (false, segment_name (Alloc.segment r)); (false, fixed);
                    (false, flag_text (Alloc.office r));
                    (false, flag_text (Alloc.hub r));
                    (false, flag_text (Alloc.nearZero r)) ])).
  { unfold export_line, encode_field. cbn [List.map fst snd orb].
    rewrite Hi, Hf.
    assert (Hs : plain (segment_name (Alloc.segment r)) = true)
      by (destruct (Alloc.segment r); reflexivity).
    assert (Hb : forall b, plain (flag_text b) = true) by (intros []; reflexivity).
    rewrite Hs, !Hb. reflexivity. }
  rewrite E. unfold splitCsvLine. rewrite loop_encoded_line. reflexivity.
Qed.

Lemma export_line_reads_back_witness :
  splitCsvLine
    (export_line
       (Alloc.mk "KOR" ("Korea, " ++ quoted "Republic" ++ " of") APAC (Fin 12.5)
          false false false)
       "12.500000")
  = [ "KOR"; ("Korea, " ++ quoted "Republic" ++ " of")%string; "APAC";
      "12.500000"; "0"; "0"; "0" ].
Proof.
  apply (export_line_reads_back
           (Alloc.mk "KOR" ("Korea, " ++ quoted "Republic" ++ " of") APAC (Fin 12.5)
              false false false) "12.500000"); reflexivity.
Defined.

(** ** The page *)

Lemma upper_ascii_not_small c : not_small (upper_ascii c) = true.
Proof.
  destruct c as [[] [] [] [] [] [] [] []]; reflexivity.
Qed.

Lemma toUpperCase_no_small s : no_small (toUpperCase s) = true.
Proof.
  induction s as [| c r IH]; [reflexivity |].
  unfold toUpperCase; cbn [map_string no_small].
  rewrite upper_ascii_not_small. exact IH.
Qed.

(** The terms of the search, and the keys of the page's table, never
    meet an inherited member. *)
Lemma upper_not_inherited s :
  set_has Object_prototype_names (toUpperCase s) = false.
Proof.
  destruct (set_has Object_prototype_names (toUpperCase s)) eqn:E; [| reflexivity].
  pose proof (toUpperCase_no_small s) as N.
  unfold set_has, Object_prototype_names in E.
  cbn [existsb] in E.
  repeat (apply orb_true_iff in E as [E | E];
          [apply String.eqb_eq in E; rewrite <- E in N + rewrite E in N;
           discriminate N |]).
  discriminate E.
Qed.

Lemma startsWith_includes s t : startsWith s t = true -> includes s t = true.
Proof.
  unfold startsWith. destruct s; simpl; intros H; [exact H |].
  rewrite H. reflexivity.
Qed.

Lemma map_has_In {V} (m : jsmap V) k v : In (k, v) m -> map_has m k = true.
Proof.
  intros H. destruct (map_has m k) eqn:E; [reflexivity |].
  unfold map_has in E. destruct (map_get m k) eqn:G; [discriminate |].
  apply map_get_None_keys in G. exfalso. apply G.
  unfold map_keys. apply in_map_iff. now exists (k, v).
Qed.

Lemma blank_trimStart s : blank s = true -> trimStart s = EmptyString.
Proof.
  induction s as [| c r IH]; [reflexivity |].
  cbn [blank trimStart]. intros H. apply andb_true_iff in H as [Hc Hr].
  rewrite Hc. now apply IH.
Qed.

(** X20.  The search never selects a code outside the table, and never
    without a reason: a selected code is a key of the table, and the
    term is an alias of it, or the code itself, or part of the name
    recorded under it. *)
Theorem search_selection_justified (details : jsmap Detail.t) (val : string) :
  match applySearch details val with
  | Selected iso =>
      map_has details iso = true
      /\ justified details (toUpperCase (trim val)) iso
  | _ => True
  end.
Proof.
  unfold applySearch.
  destruct (toUpperCase (trim val)) as [| c r] eqn:Et; [exact I |].
  set (term := String c r) in *.
  destruct (truthy (map_get NAME_TO_ISO_OVERRIDES term)) as [iso |] eqn:Ea.
  - destruct (map_has details iso) eqn:Hi.
    + split; [exact Hi |]. left. now apply truthy_some.
    + clear Ea Hi iso.
      destruct (map_has details term) eqn:Hk.
      { split; [exact Hk |]. right; left; reflexivity. }
      destruct (find (name_test startsWith term) details) as [[k d] |] eqn:F1.
      { apply find_some in F1 as [Hin Ht]. cbn [fst].
        split; [now apply (map_has_In _ _ d) |].
        right; right. exists d. split; [exact Hin |].
        now apply startsWith_includes. }
      destruct (find (name_test includes term) details) as [[k d] |] eqn:F2;
        [| exact I].
      apply find_some in F2 as [Hin Ht]. cbn [fst].
      split; [now apply (map_has_In _ _ d) |].
      right; right. exists d. split; [exact Hin | exact Ht].
  - destruct (map_has details term) eqn:Hk.
    { split; [exact Hk |]. right; left; reflexivity. }
    destruct (find (name_test startsWith term) details) as [[k d] |] eqn:F1.
    { apply find_some in F1 as [Hin Ht]. cbn [fst].
      split; [now apply (map_has_In _ _ d) |].
      right; right. exists d. split; [exact Hin |].
      now apply startsWith_includes. }
    destruct (find (name_test includes term) details) as [[k d] |] eqn:F2;
      [| exact I].
    apply find_some in F2 as [Hin Ht]. cbn [fst].
    split; [now apply (map_has_In _ _ d) |].
    right; right. exists d. split; [exact Hin | exact Ht].
Qed.

(** X21.  An input of white space only, the empty input included, clears
    the selection whatever the table holds. *)
Theorem search_blank_clears (details : jsmap Detail.t) (val : string) :
  blank val = true -> applySearch details val = Cleared.
Proof.
  intros H. unfold applySearch, trim.
  rewrite (blank_trimStart val H). reflexivity.
Qed.

Lemma search_blank_clears_witness :
  applySearch [("UKR", detail_row "UKR" "Ukraine")] "   " = Cleared.
Proof. apply search_blank_clears. reflexivity. Defined.

Lemma page_fold_has table : forall m k,
  map_has m k = true \/ (exists d, In d table /\ fst (page_entry d) = k) ->
  map_has
    (fold_left
       (fun map d => map_set map (fst (page_entry d)) (snd (page_entry d)))
       table m) k = true.
Proof.
  induction table as [| d0 table IH]; intros m k H; cbn [fold_left].
  - destruct H as [H | (d & [] & _)]. exact H.
  - apply IH.
    destruct (String.eqb (fst (page_entry d0)) k) eqn:E.
    + left. unfold map_has. rewrite map_get_set, E. reflexivity.
    + destruct H as [H | (d & [Hd | Hd] & Hk)].
      * left. unfold map_has in *. rewrite map_get_set, E. exact H.
      * subst d0. apply String.eqb_neq in E. contradiction.
      * right. now exists d.
Qed.

Lemma page_fold_get table : forall m k e,
  map_get
    (fold_left
       (fun map d => map_set map (fst (page_entry d)) (snd (page_entry d)))
       table m) k = Some e ->
  map_get m k = Some e \/ exists d, In d table /\ page_entry d = (k, e).
Proof.
  induction table as [| d0 table IH]; intros m k e H; cbn [fold_left] in H.
  - now left.
  - apply IH in H as [H | (d & Hd & He)].
    + rewrite map_get_set in H.
      destruct (String.eqb (fst (page_entry d0)) k) eqn:E.
      * apply String.eqb_eq in E. injection H as H. right. exists d0.
        split; [now left |]. rewrite <- E, <- H. apply surjective_pairing.
      * now left.
    + right. exists d. split; [now right | exact He].
Qed.

Lemma toUpperCase_nonempty s : s <> EmptyString -> toUpperCase s <> EmptyString.
Proof. destruct s; [congruence | discriminate]. Qed.

(** X22.  Typing the code of a country of the list selects that country,
    in any letter case and with blanks around it, unless the code is an
    alias of another country. *)
Theorem search_by_code (table : list Detail.t) (d : Detail.t) (val : string) :
  In d table ->
  Detail.iso3 d <> EmptyString ->
  toUpperCase (trim val) = toUpperCase (Detail.iso3 d) ->
  (forall iso, map_get NAME_TO_ISO_OVERRIDES (toUpperCase (Detail.iso3 d)) = Some iso ->
               iso = toUpperCase (Detail.iso3 d)) ->
  applySearch (page_details table) val = Selected (toUpperCase (Detail.iso3 d)).
Proof.
  intros Hin Hne Hterm Halias.
  assert (Hhas : map_has (page_details table) (toUpperCase (Detail.iso3 d)) = true).
  { apply page_fold_has. right. now exists d. }
  unfold applySearch. rewrite Hterm.
  destruct (toUpperCase (Detail.iso3 d)) as [| c r] eqn:Et.
  { exfalso. now apply (toUpperCase_nonempty _ Hne). }
  destruct (truthy (map_get NAME_TO_ISO_OVERRIDES (String c r))) as [iso |] eqn:Ea.
  - apply truthy_some in Ea. rewrite (Halias iso Ea), Hhas. reflexivity.
  - rewrite Hhas. reflexivity.
Qed.

Lemma search_by_code_witness :
  applySearch (page_details page_sample) " ukr " = Selected "UKR".
Proof.
  apply (search_by_code page_sample (detail_row "UKR" "Ukraine") " ukr ").
  - right; left; reflexivity.
  - discriminate.
  - reflexivity.
  - intros iso H. discriminate H.
Defined.

Lemma page_entry_name d :
  Detail.name (snd (page_entry d))
  = if String.eqb "FRA" (toUpperCase (Detail.iso3 d)) then "France"
    else if String.eqb "NOR" (toUpperCase (Detail.iso3 d)) then "Norway"
    else Detail.name d.
Proof.
  unfold page_entry. cbn [snd Detail.name].
  change (map_get NAME_OVERRIDES (toUpperCase (Detail.iso3 d)))
    with (if String.eqb "FRA" (toUpperCase (Detail.iso3 d)) then Some "France"
          else if String.eqb "NOR" (toUpperCase (Detail.iso3 d)) then Some "Norway"
          else None).
  destruct (String.eqb "FRA" (toUpperCase (Detail.iso3 d))); [reflexivity |].
  destruct (String.eqb "NOR" (toUpperCase (Detail.iso3 d))); reflexivity.
Qed.

(** X23.  The table of the page: an entry stands under the upper-cased
    code it carries, it comes from a row of the list with that code and
    keeps its revenue and share, and its name is the one of the list
    except for France and Norway, which are always shown under these
    names. *)
Theorem page_table_entries (table : list Detail.t) (k : string) (e : Detail.t) :
  map_get (page_details table) k = Some e ->
  Detail.iso3 e = k
  /\ toUpperCase k = k
  /\ (k = "FRA" -> Detail.name e = "France")
  /\ (k = "NOR" -> Detail.name e = "Norway")
  /\ exists d, In d table
       /\ toUpperCase (Detail.iso3 d) = k
       /\ Detail.revenueMillions e = Detail.revenueMillions d
       /\ Detail.share e = Detail.share d
       /\ (k <> "FRA" -> k <> "NOR" -> Detail.name e = Detail.name d).
Proof.
  intros H. apply page_fold_get in H as [H | (d & Hd & He)]; [discriminate |].
  assert (Hk : toUpperCase (Detail.iso3 d) = k)
    by (change (fst (page_entry d) = k); now rewrite He).
  assert (Ee : e = snd (page_entry d)) by now rewrite He.
  pose proof (page_entry_name d) as Hn. rewrite <- Ee, Hk in Hn.
  split; [rewrite Ee; exact Hk |].
  split; [rewrite <- Hk; apply toUpperCase_idem |].
  split; [intros ->; exact Hn |].
  split; [intros ->; exact Hn |].
  exists d.
  split; [exact Hd |]. split; [exact Hk |].
  split; [now rewrite Ee |]. split; [now rewrite Ee |].
  intros H1 H2. rewrite Hn.
  destruct (String.eqb "FRA" k) eqn:E1.
  { apply String.eqb_eq in E1. exfalso. apply H1. now symmetry. }
  destruct (String.eqb "NOR" k) eqn:E2.
  { apply String.eqb_eq in E2. exfalso. apply H2. now symmetry. }
  reflexivity.
Qed.

Lemma page_table_entries_witness :
  Detail.iso3 (snd (page_entry (detail_row "fra" "Francia"))) = "FRA"
  /\ toUpperCase "FRA" = "FRA"
  /\ ("FRA" = "FRA" -> Detail.name (snd (page_entry (detail_row "fra" "Francia"))) = "France")
  /\ ("FRA" = "NOR" -> Detail.name (snd (page_entry (detail_row "fra" "Francia"))) = "Norway")
  /\ exists d, In d page_sample
       /\ toUpperCase (Detail.iso3 d) = "FRA"
       /\ Detail.revenueMillions (snd (page_entry (detail_row "fra" "Francia")))
          = Detail.revenueMillions d
       /\ Detail.share (snd (page_entry (detail_row "fra" "Francia"))) = Detail.share d
       /\ ("FRA" <> "FRA" -> "FRA" <> "NOR" ->
           Detail.name (snd (page_entry (detail_row "fra" "Francia"))) = Detail.name d).
Proof.
  apply (page_table_entries page_sample "FRA"
           (snd (page_entry (detail_row "fra" "Francia")))).
  reflexivity.
Defined.

Lemma first_truthy_spec l s :
  first_truthy l = Some s -> s <> EmptyString /\ In (Some s) l.
Proof.
  induction l as [| a l IH]; cbn [first_truthy fold_right]; [discriminate |].
  destruct (truthy a) as [s' |] eqn:E.
  - intros H. injection H as ->. split.
    + now apply (truthy_nonempty a).
    + left. now apply truthy_some.
  - intros H. apply IH in H as [H1 H2]. split; [exact H1 | now right].
Qed.

Lemma object_get_own {V} (o : jsmap V) k v :
  object_get o k = Own v -> In v (map_values o).
Proof.
  unfold object_get. destruct (map_get o k) as [v' |] eqn:E.
  - intros H. injection H as ->. now apply (map_get_In o k).
  - destruct (set_has Object_prototype_names k); discriminate.
Qed.

(** X24.  The code of a map feature is never the empty string and never
    invented: when [iso3FromFeature] returns a string, it is not empty,
    and it is a value of the alias table or the value of one of the five
    code properties of the feature (the id upper-cased). *)
Theorem feature_code_from_sources (properties : option (jsmap string)) :
  match iso3FromFeature properties with
  | Code s =>
      s <> EmptyString
      /\ In (Some s)
           (code_sources (match properties with Some p => p | None => [] end))
  | _ => True
  end.
Proof.
  unfold iso3FromFeature, code_sources.
  set (props := match properties with Some p => p | None => [] end).
  set (codes := [ option_map toUpperCase (map_get props "id");
                  map_get props "ISO3166-1-Alpha-3"; map_get props "ISO_A3";
                  map_get props "iso_a3"; map_get props "adm0_a3" ]).
  assert (B : match match first_truthy codes with
                    | Some s => Code s | None => NoCode end with
              | Code s =>
                  s <> EmptyString
                  /\ In (Some s)
                       (List.map Some (map_values NAME_TO_ISO_OVERRIDES) ++ codes)
              | _ => True
              end).
  { destruct (first_truthy codes) as [s |] eqn:E; [| exact I].
    apply first_truthy_spec in E as [E1 E2].
    split; [exact E1 | apply in_or_app; now right]. }
  assert (A : forall k c r,
             object_get NAME_TO_ISO_OVERRIDES k = Own (String c r) ->
             String c r <> EmptyString
             /\ In (Some (String c r))
                  (List.map Some (map_values NAME_TO_ISO_OVERRIDES) ++ codes)).
  { intros k c r H. split; [discriminate |].
    apply in_or_app. left. apply in_map. now apply (object_get_own _ k). }
  destruct (first_truthy
              [map_get props "name"; map_get props "NAME"; map_get props "NAME_LONG"])
    as [nmRaw |]; [| exact B].
  cbv zeta.
  destruct (object_get NAME_TO_ISO_OVERRIDES (trim nmRaw)) as [[| c r] | |] eqn:E1.
  - destruct (object_get NAME_TO_ISO_OVERRIDES (toUpperCase (trim nmRaw)))
      as [[| c r] | |] eqn:E2; [exact B | now apply (A _ _ _ E2) | exact I | exact B].
  - now apply (A _ _ _ E1).
  - exact I.
  - destruct (object_get NAME_TO_ISO_OVERRIDES (toUpperCase (trim nmRaw)))
      as [[| c r] | |] eqn:E2; [exact B | now apply (A _ _ _ E2) | exact I | exact B].
Qed.

(** ** Colours *)

Lemma Int_part_IZR z : Int_part (IZR z) = z.
Proof. symmetry. apply Int_part_spec. lra. Qed.

Lemma Rpower_unit c y : 0 < c <= 1 -> 0 < y -> 0 < Rpower c y <= 1.
Proof.
  intros [Hc Hc1] Hy. split; [apply exp_pos |]. unfold Rpower.
  destruct (Req_dec c 1) as [-> | Hne].
  - rewrite ln_1, Rmult_0_r, exp_0. lra.
  - assert (Hl : ln c < 0) by (rewrite <- ln_1; apply ln_increasing; lra).
    left. rewrite <- exp_0. apply exp_increasing. nra.
Qed.

Lemma pow_unit c y :
  0 <= c <= 1 -> 0 < y ->
  exists t, Math_pow (Fin c) (Fin y) = Fin t /\ 0 <= t <= 1
            /\ (c = 0 -> t = 0) /\ (c = 1 -> t = 1).
Proof.
  intros [Hc Hc1] Hy. unfold Math_pow.
  replace (Reqb y 0) with false by (symmetry; apply Reqb_false; lra).
  destruct (Req_dec c 0) as [-> | Hne].
  - replace (Reqb 0 0) with true by (symmetry; now apply Reqb_true).
    replace (Rltb 0 y) with true by (symmetry; now apply Rltb_true).
    exists 0. repeat split; lra.
  - replace (Reqb c 0) with false by (symmetry; now apply Reqb_false).
    replace (Rltb 0 c) with true by (symmetry; apply Rltb_true; lra).
    exists (Rpower c y).
    pose proof (Rpower_unit c y) as B.
    split; [reflexivity |]. split; [lra |]. split; [intros; lra |].
    intros ->. unfold Rpower. now rewrite ln_1, Rmult_0_r, exp_0.
Qed.

(** The normalised share of [colorFor], raised to the first exponent. *)
Lemma colour_unit x m :
  exists t,
    Math_pow (clamp01 (if jgt m (Fin 0) then jdiv (Fin x) m else Fin 0)) (Fin 0.35)
    = Fin t
    /\ 0 <= t <= 1
    /\ (x <= 0 \/ jgt m (Fin 0) = false -> t = 0)
    /\ (forall y, m = Fin y -> 0 < y -> y <= x -> t = 1).
Proof.
  assert (N : exists n,
             (if jgt m (Fin 0) then jdiv (Fin x) m else Fin 0) = Fin n
             /\ (x <= 0 \/ jgt m (Fin 0) = false -> n <= 0)
             /\ (forall y, m = Fin y -> 0 < y -> y <= x -> 1 <= n)).
  { destruct m as [y | | |].
    - unfold jgt, jlt. destruct (Rltb 0 y) eqn:E.
      + apply Rltb_true in E. unfold jdiv.
        replace (Reqb y 0) with false by (symmetry; apply Reqb_false; lra).
        exists (x / y). split; [reflexivity |]. split.
        * intros [H | H]; [| discriminate].
          assert (Hi : 0 < / y) by now apply Rinv_0_lt_compat.
          unfold Rdiv. nra.
        * intros y' Hy' Hp Hle. injection Hy' as <-.
          apply Rmult_le_reg_r with y; [exact E |].
          unfold Rdiv. rewrite Rmult_assoc, Rinv_l by lra. lra.
      + apply Rltb_false in E. exists 0. split; [reflexivity |]. split.
        * intros; lra.
        * intros y' Hy' Hp Hle. injection Hy' as <-. lra.
    - exists 0. split; [reflexivity |]. split; [intros; lra | intros; discriminate].
    - exists 0. split; [reflexivity |]. split; [intros; lra | intros; discriminate].
    - exists 0. split; [reflexivity |]. split; [intros; lra | intros; discriminate]. }
  destruct N as (n & -> & N0 & N1).
  unfold clamp01. rewrite Math_min_Fin, Math_max_Fin.
  destruct (pow_unit (Rmax 0 (Rmin 1 n)) 0.35) as (t & Et & Bt & T0 & T1).
  - split; [apply Rmax_l |]. apply Rmax_lub; [lra | apply Rmin_l].
  - lra.
  - exists t. split; [exact Et |]. split; [exact Bt |]. split.
    + intros H. apply T0. specialize (N0 H).
      rewrite Rmin_right by lra. apply Rmax_left. exact N0.
    + intros y Hm Hy Hle. apply T1. specialize (N1 y Hm Hy Hle).
      rewrite Rmin_left by lra. apply Rmax_right. lra.
Qed.

(** One channel of [mix]: between whole numbers the result is a whole
    number between them. *)
Lemma round_between p q f :
  0 <= f <= 1 ->
  exists z,
    Math_round (jadd (Fin (IZR p)) (jmul (jsub (Fin (IZR q)) (Fin (IZR p))) (Fin f)))
    = Fin (IZR z)
    /\ (Z.min p q <= z <= Z.max p q)%Z
    /\ (f = 0 -> z = p) /\ (f = 1 -> z = q).
Proof.
  intros [Hf0 Hf1].
  cbn [jadd jmul jsub jneg Math_round].
  set (w := IZR p + (IZR q + - IZR p) * f).
  exists (Int_part (w + / 2)). split; [reflexivity |].
  destruct (base_Int_part (w + / 2)) as [B1 B2].
  assert (Hw : IZR (Z.min p q) <= w <= IZR (Z.max p q)).
  { destruct (Z.le_ge_cases p q) as [H | H].
    - rewrite Z.min_l, Z.max_r by lia. apply IZR_le in H. unfold w. split; nra.
    - rewrite Z.min_r, Z.max_l by lia. apply IZR_le in H. unfold w. split; nra. }
  split; [split |].
  - assert (H : (Z.min p q - 1 < Int_part (w + / 2))%Z).
    { apply lt_IZR. rewrite minus_IZR. lra. }
    lia.
  - assert (H : (Int_part (w + / 2) < Z.max p q + 1)%Z).
    { apply lt_IZR. rewrite plus_IZR. lra. }
    lia.
  - split; intros ->; symmetry; apply Int_part_spec; unfold w; lra.
Qed.

Lemma mix_three p0 p1 p2 q0 q1 q2 f :
  0 <= f <= 1 ->
  exists z0 z1 z2,
    mix [Fin (IZR p0); Fin (IZR p1); Fin (IZR p2)]
        [Fin (IZR q0); Fin (IZR q1); Fin (IZR q2)] (Fin f)
    = [Fin (IZR z0); Fin (IZR z1); Fin (IZR z2)]
    /\ (Z.min p0 q0 <= z0 <= Z.max p0 q0)%Z
    /\ (Z.min p1 q1 <= z1 <= Z.max p1 q1)%Z
    /\ (Z.min p2 q2 <= z2 <= Z.max p2 q2)%Z
    /\ (f = 0 -> z0 = p0 /\ z1 = p1 /\ z2 = p2)
    /\ (f = 1 -> z0 = q0 /\ z1 = q1 /\ z2 = q2).
Proof.
  intros Hf.
  destruct (round_between p0 q0 f Hf) as (z0 & E0 & B0 & S0 & T0).
  destruct (round_between p1 q1 f Hf) as (z1 & E1 & B1 & S1 & T1).
  destruct (round_between p2 q2 f Hf) as (z2 & E2 & B2 & S2 & T2).
  exists z0, z1, z2. cbn [mix hd tl]. rewrite E0, E1, E2.
  split; [reflexivity |].
  split; [exact B0 |]. split; [exact B1 |]. split; [exact B2 |].
  split; intros H; auto.
Qed.

(** The three channels of [colorFor] on a finite share. *)
Lemma colour_channels x m :
  exists z0 z1 z2,
    colorFor_channels (Fin x) m = [Fin (IZR z0); Fin (IZR z1); Fin (IZR z2)]
    /\ (0 <= z0 <= 255 /\ 0 <= z1 <= 255 /\ 0 <= z2 <= 255)%Z
    /\ (x <= 0 \/ jgt m (Fin 0) = false ->
        z0 = 10%Z /\ z1 = 25%Z /\ z2 = 40%Z)
    /\ (forall y, m = Fin y -> 0 < y -> y <= x ->
        z0 = 120%Z /\ z1 = 230%Z /\ z2 = 255%Z).
Proof.
  unfold colorFor_channels.
  destruct (colour_unit x m) as (t & -> & Bt & T0 & T1).
  destruct (pow_unit t 1.2 Bt ltac:(lra)) as (f2 & -> & Bf & F0 & F1).
  cbn [jmul]. unfold ramp_start, ramp_mid, ramp_end.
  destruct (mix_three 10 25 40 0 174 239 (t * 0.7) ltac:(lra))
    as (a0 & a1 & a2 & -> & A0 & A1 & A2 & AS & _).
  destruct (mix_three a0 a1 a2 120 230 255 f2 Bf)
    as (z0 & z1 & z2 & -> & Z0 & Z1 & Z2 & ZS & ZT).
  exists z0, z1, z2. split; [reflexivity |]. split; [lia |]. split.
  - intros H. specialize (T0 H). subst t.
    destruct (AS ltac:(lra)) as (-> & -> & ->).
    destruct (ZS (F0 eq_refl)) as (-> & -> & ->). repeat split.
  - intros y Hm Hy Hle. specialize (T1 y Hm Hy Hle).
    exact (ZT (F1 T1)).
Qed.

(** X25.  Every colour of the map is a proper one: on a finite share,
    whatever the greatest share is, [colorFor] mixes three channels and
    each is a whole number from 0 to 255. *)
Theorem colour_channels_in_range (x : R) (maxShare : num) :
  List.length (colorFor_channels (Fin x) maxShare) = 3%nat
  /\ Forall channel (colorFor_channels (Fin x) maxShare).
Proof.
  destruct (colour_channels x maxShare) as (z0 & z1 & z2 & -> & (B0 & B1 & B2) & _).
  split; [reflexivity |].
  repeat constructor; eexists; (split; [reflexivity | assumption]).
Qed.

(** X26.  The two ends of the colour ramp: a share of zero or less, or a
    greatest share that is not positive, gives the dark colour
    rgb(10,25,40); a share that reaches a positive greatest share gives
    the light colour rgb(120,230,255). *)
Theorem colour_ramp_ends (x : R) (maxShare : num) :
  (x <= 0 \/ jgt maxShare (Fin 0) = false ->
   colorFor (Fin x) maxShare = "rgb(10,25,40)")
  /\ (forall y, maxShare = Fin y -> 0 < y -> y <= x ->
      colorFor (Fin x) maxShare = "rgb(120,230,255)").
Proof.
  unfold colorFor.
  destruct (colour_channels x maxShare) as (z0 & z1 & z2 & -> & _ & S & T).
  cbn [nth number_text]. rewrite !Int_part_IZR. split.
  - intros H. destruct (S H) as (-> & -> & ->). reflexivity.
  - intros y Hm Hy Hle. destruct (T y Hm Hy Hle) as (-> & -> & ->). reflexivity.
Qed.

(** X27.  The page upper-cases the keys of the intensity map it
    receives; on the engine's own output, for a list without repeated
    codes, this changes nothing: the map it keeps is the map it got. *)
Theorem page_keeps_intensity (isoCsv : string)
    (gdpJson mcapJson creditJson gdpPcJson netJson popJson : WbJson) :
  NoDup (List.map Country.iso3 (fst (parseCountries isoCsv))) ->
  page_intensity
    (iso3ToIntensity
       (buildExposureData isoCsv gdpJson mcapJson creditJson gdpPcJson netJson
          popJson))
  = iso3ToIntensity
      (buildExposureData isoCsv gdpJson mcapJson creditJson gdpPcJson netJson
         popJson).
Proof.
  intros Hnd.
  pose proof (parsed_records_upper isoCsv) as Hup.
  unfold buildExposureData.
  destruct (parseCountries isoCsv) as [cs a2]. cbn [fst] in *.
  set (ind := mkIndicators _ _ _ _ _ _).
  rewrite iso3ToIntensity_spec by assumption.
  set (L := _ ++ _).
  assert (Hfst : List.map fst L
                 = List.map Alloc.iso3 (allocations cs ind)
                   ++ List.map Country.iso3 (filter no_segment cs)).
  { unfold L. rewrite map_app, !map_map. reflexivity. }
  assert (Hperm : Permutation (List.map fst L) (List.map Country.iso3 cs)).
  { rewrite Hfst, allocations_iso3, <- !app_assoc.
    apply (segment_classes Country.iso3). }
  assert (Hupper : forall kv, In kv L -> toUpperCase (fst kv) = fst kv).
  { intros kv Hkv.
    assert (Hk : In (fst kv) (List.map Country.iso3 cs)).
    { eapply Permutation_in; [exact Hperm | now apply in_map]. }
    apply in_map_iff in Hk as (c & <- & Hc). now apply Hup. }
  unfold page_intensity.
  rewrite (fold_map_set_nodup (fun kv : string * num => toUpperCase (fst kv)) snd).
  - cbn [app]. rewrite <- (map_id L) at 2. apply map_ext_in.
    intros [k v] Hkv. cbn [fst snd]. f_equal. exact (Hupper (k, v) Hkv).
  - rewrite (map_ext_in _ fst) by exact Hupper.
    eapply Permutation_NoDup; [apply Permutation_sym, Hperm | exact Hnd].
  - reflexivity.
Qed.

Lemma page_keeps_intensity_witness :
  page_intensity
    (iso3ToIntensity
       (buildExposureData taxonomy_csv gdp_feed mcap_feed_infinite
          (feed []) (feed []) (feed []) (feed [])))
  = iso3ToIntensity
      (buildExposureData taxonomy_csv gdp_feed mcap_feed_infinite
         (feed []) (feed []) (feed []) (feed [])).
Proof.
  apply page_keeps_intensity.
  vm_compute. repeat constructor; simpl; intuition discriminate.
Defined.
